(** * Static Code Analyzer

    A shallow embedding of [task/analyzer/code_analyzer.py] and the
    properties of its rule evaluation and diagnostic aggregation.

    Conventions of the embedding:
    - a Python [str] is a [string] and a character is an [ascii], the
      character of that code point: the texts are those of the range
      U+0000..U+00FF, and the character classes of [re] are the ones
      Python uses for [str] patterns on that range;
    - a Python [int] is a [Z];
    - a call returns a [result]: a value or a raised exception; a function
      that returns a tuple or falls off its end ([None]) returns an
      [option] in it;
    - a [dict] is an association list kept in insertion order;
    - the regular expressions of the source are written as terms of
      [Re.regex] and run by a backtracking matcher that follows the
      priority order of Python's [re] (leftmost start, greedy repetition,
      first alternative first);
    - [ast.parse] is not part of the analyzer and is a parameter of
      [check_file]; the trees it returns are values of [node]. *)

From Stdlib Require Import ZArith List Bool Ascii String Lia.
From Stdlib Require Import Sorting.Sorted Sorting.Permutation DecimalString.
Import ListNotations.

Open Scope string_scope.
Open Scope Z_scope.

(** ** Characters and strings *)

(** The newline character, and a string that holds only it. *)
Definition newline : ascii := "010"%char.
Definition nl : string := String newline EmptyString.

Definition code_point (c : ascii) : N := N_of_ascii c.

Definition in_range (lo hi : N) (c : ascii) : bool :=
  ((lo <=? code_point c) && (code_point c <=? hi))%N.

(** [\s]: tab, newline, vertical tab, form feed, carriage return, the
    four separators 0x1c..0x1f, the space, NEL (0x85) and the no-break
    space (0xa0). *)
Definition is_space (c : ascii) : bool :=
  in_range 9 13 c || in_range 28 32 c || in_range 133 133 c
  || in_range 160 160 c.

(** The characters beyond the ASCII range that are alphanumeric for
    [str.isalnum]: the ordinal indicators, the micro sign, the
    superscript digits, the fractions and the letters. *)
Definition is_latin1_alnum (c : ascii) : bool :=
  in_range 170 170 c || in_range 178 179 c || in_range 181 181 c
  || in_range 185 186 c || in_range 188 190 c || in_range 192 214 c
  || in_range 216 246 c || in_range 248 255 c.

(** [\w]: the alphanumeric characters and the underscore. *)
Definition is_word (c : ascii) : bool :=
  in_range 97 122 c || in_range 65 90 c || in_range 48 57 c
  || (c =? "_")%char || is_latin1_alnum c.

Definition is_lower (c : ascii) : bool := in_range 97 122 c.
Definition is_upper (c : ascii) : bool := in_range 65 90 c.
Definition is_digit (c : ascii) : bool := in_range 48 57 c.

Definition to_lower (c : ascii) : ascii :=
  if is_upper c then ascii_of_N (code_point c + 32) else c.

(** [len(s)] *)
Definition len (s : string) : Z := Z.of_nat (String.length s).

(** [s.lstrip(" ")] *)
Fixpoint lstrip_spaces (s : string) : string :=
  match s with
  | String c s' => if (c =? " ")%char then lstrip_spaces s' else s
  | EmptyString => s
  end.

(** [s.rstrip(" ")] *)
Fixpoint rstrip_spaces (s : string) : string :=
  match s with
  | String c s' =>
      match rstrip_spaces s' with
      | EmptyString => if (c =? " ")%char then EmptyString
                       else String c EmptyString
      | t => String c t
      end
  | EmptyString => EmptyString
  end.

(** ** Regular expressions *)

Module Re.

(** The fragment of [re] syntax the analyzer uses.  Every repetition in
    the source is over a single character class. *)
Inductive regex : Type :=
| Eps
| Lit (c : ascii)
| Cls (p : ascii -> bool)
| Star (p : ascii -> bool)
| Seq (r1 r2 : regex)
| Alt (r1 r2 : regex)
| Bol
| Eol
| NotAhead (r : regex).

(** [p*], greedy: take a character when possible and give it back when the
    rest of the pattern fails. *)
Fixpoint star (p : ascii -> bool) (R : Type) (i : nat) (s : string)
    (k : nat -> string -> option R) : option R :=
  match s with
  | String c s' =>
      if p c then
        match star p R (S i) s' k with
        | Some x => Some x
        | None => k i s
        end
      else k i s
  | EmptyString => k i s
  end.

(** [run r i s k]: match [r] at index [i], where [s] is the text from [i]
    on, and hand the rest to [k]; the first success in priority order is
    the result.  [$] holds at the end of the text and before a final
    newline, [^] only at index 0 (no MULTILINE flag is used). *)
Fixpoint run (r : regex) (R : Type) (i : nat) (s : string)
    (k : nat -> string -> option R) {struct r} : option R :=
  match r with
  | Eps => k i s
  | Lit c =>
      match s with
      | String x s' => if (x =? c)%char then k (S i) s' else None
      | EmptyString => None
      end
  | Cls p =>
      match s with
      | String x s' => if p x then k (S i) s' else None
      | EmptyString => None
      end
  | Star p => star p R i s k
  | Seq r1 r2 => run r1 R i s (fun j t => run r2 R j t k)
  | Alt r1 r2 =>
      match run r1 R i s k with
      | Some x => Some x
      | None => run r2 R i s k
      end
  | Bol => if (i =? 0)%nat then k i s else None
  | Eol =>
      match s with
      | EmptyString => k i s
      | String x EmptyString => if (x =? newline)%char then k i s else None
      | _ => None
      end
  | NotAhead r' =>
      match run r' unit i s (fun _ _ => Some tt) with
      | Some _ => None
      | None => k i s
      end
  end.

(** The end index of the match of [r] that starts at [i]; with
    [must_advance] an empty match is refused (and the matcher backtracks),
    as the scanning functions of [re] do right after an empty match. *)
Definition match_at (r : regex) (i : nat) (s : string) (must_advance : bool)
    : option nat :=
  run r nat i s
    (fun j _ => if must_advance && (j =? i)%nat then None else Some j).

(** [re.match(r, s)]: the end of the match at index 0, or [None]. *)
Definition re_match (r : regex) (s : string) : option nat :=
  match_at r 0 s false.

Fixpoint search_from (r : regex) (i : nat) (s : string) : option (nat * nat) :=
  match match_at r i s false with
  | Some e => Some (i, e)
  | None =>
      match s with
      | String _ s' => search_from r (S i) s'
      | EmptyString => None
      end
  end.

(** [re.search(r, s)]: the span of the leftmost match, or [None]. *)
Definition re_search (r : regex) (s : string) : option (nat * nat) :=
  search_from r 0 s.

(** The spans of the successive non-overlapping matches, as [findall],
    [finditer] and [sub] scan them: indices below [resume] lie inside the
    previous match; after an empty match at [i] the scan first looks for a
    non-empty match at [i] again, then moves on. *)
Fixpoint spans_from (r : regex) (i resume : nat) (s : string)
    : list (nat * nat) :=
  let next rs :=
    match s with
    | String _ s' => spans_from r (S i) rs s'
    | EmptyString => []
    end in
  if (i <? resume)%nat then next resume
  else
    match match_at r i s false with
    | None => next resume
    | Some e =>
        if (e =? i)%nat then
          (i, i) ::
          match match_at r i s true with
          | Some e' => (i, e') :: next e'
          | None => next resume
          end
        else (i, e) :: next e
    end.

Definition spans (r : regex) (s : string) : list (nat * nat) :=
  spans_from r 0 0 s.

Definition slice (s : string) (span : nat * nat) : string :=
  substring (fst span) (snd span - fst span) s.

(** [re.findall(r, s)] for a pattern without groups (with one group that
    spans the whole pattern the list is the same). *)
Definition findall (r : regex) (s : string) : list string :=
  map (slice s) (spans r s).

(** Drop from [s] (the text from index [i] on) the characters inside the
    spans. *)
Fixpoint delete_spans (sp : list (nat * nat)) (i : nat) (s : string) : string :=
  match s with
  | EmptyString => EmptyString
  | String c s' =>
      if existsb (fun be => (fst be <=? i)%nat && (i <? snd be)%nat) sp
      then delete_spans sp (S i) s'
      else String c (delete_spans sp (S i) s')
  end.

(** [re.sub(r, "", s)] *)
Definition sub_empty (r : regex) (s : string) : string :=
  delete_spans (spans r s) 0 s.

(** A literal string, a class repeated at least once, and a letter under
    IGNORECASE. *)
Fixpoint Str (s : string) : regex :=
  match s with
  | EmptyString => Eps
  | String c EmptyString => Lit c
  | String c s' => Seq (Lit c) (Str s')
  end.

Definition Plus (p : ascii -> bool) : regex := Seq (Cls p) (Star p).

Definition LitI (c : ascii) : regex :=
  Cls (fun x => (to_lower x =? to_lower c)%char).

(** [.] without and with the DOTALL flag. *)
Definition dot : ascii -> bool := fun c => negb (c =? newline)%char.
Definition dot_all : ascii -> bool := fun _ => true.

Definition matched (m : option nat) : bool :=
  match m with Some _ => true | None => false end.

Definition found (m : option (nat * nat)) : bool :=
  match m with Some _ => true | None => false end.

End Re.

Import Re.

(** ** Exceptions and results *)

Inductive exn : Type :=
| IndexError
| AttributeError
| KeyError
| TypeError
| SyntaxError
| UnicodeDecodeError
| OSError.

(** A computation either returns a value or raises. *)
Inductive result (A : Type) : Type :=
| Ok (a : A)
| Raise (e : exn).

Arguments Ok {A} a.
Arguments Raise {A} e.

Definition bind {A B : Type} (m : result A) (f : A -> result B) : result B :=
  match m with
  | Ok a => f a
  | Raise e => Raise e
  end.

Notation "x <- m ;; f" := (bind m (fun x => f))
  (at level 61, m at next level, right associativity).

(** [l[i]] on a list. *)
Definition index {A : Type} (l : list A) (i : nat) : result A :=
  match nth_error l i with
  | Some a => Ok a
  | None => Raise IndexError
  end.

(** ** Dictionaries keyed by line number *)

Definition dict (V : Type) : Type := list (Z * V).

Fixpoint dict_get {V : Type} (k : Z) (d : dict V) : option V :=
  match d with
  | [] => None
  | (k', v) :: d' => if k =? k' then Some v else dict_get k d'
  end.

(** [d[k] = v]: a present key keeps its place and takes the new value, a
    new key goes last. *)
Fixpoint dict_set {V : Type} (k : Z) (v : V) (d : dict V) : dict V :=
  match d with
  | [] => [(k, v)]
  | (k', v') :: d' =>
      if k =? k' then (k, v) :: d' else (k', v') :: dict_set k v d'
  end.

Definition keys {V : Type} (d : dict V) : list Z := map fst d.

(** ** The line rules

    Each rule returns [Ok (Some (line_number, message))] when it returns
    its tuple and [Ok None] when it falls off its end. *)

Definition diagnostic : Type := (Z * string)%type.

Definition line_length_check (line_number : Z) (line : string)
    : result (option diagnostic) :=
  if len line >? 79 then Ok (Some (line_number, "S001 Too long"))
  else Ok None.

Definition indentation_check (line_number : Z) (line : string)
    : result (option diagnostic) :=
  let indents := len line - len (lstrip_spaces line) in
  if negb (indents mod 4 =? 0) && negb (indents =? 0) then
    Ok (Some (line_number, "S002 Indentation is not a multiple of four"))
  else Ok None.

(** ["(?s)#.*"] and [";$"] *)
Definition comment_to_end : regex := Seq (Lit "#") (Star dot_all).
Definition semicolon_at_end : regex := Seq (Lit ";") Eol.

Definition semicolon_check (line_number : Z) (line : string)
    : result (option diagnostic) :=
  let line := sub_empty comment_to_end line in
  let line := rstrip_spaces line in
  if found (re_search semicolon_at_end line) then
    Ok (Some (line_number, "S003 Unnecessary semicolon after a statement"))
  else Ok None.

(** ["\S *#"] and ["( )"] *)
Definition is_blank_char (c : ascii) : bool := (c =? " ")%char.
Definition code_then_hash : regex :=
  Seq (Cls (fun c => negb (is_space c))) (Seq (Star is_blank_char) (Lit "#")).
Definition one_space : regex := Lit " ".

Definition comment_space_check (line_number : Z) (line : string)
    : result (option diagnostic) :=
  match index (findall code_then_hash line) 0 with
  | Ok comment =>
      if Z.of_nat (List.length (findall one_space comment)) <? 2 then
        Ok (Some (line_number,
                  "S004 At least two spaces before inline comments required"))
      else Ok None
  | Raise IndexError => Ok None
  | Raise e => Raise e
  end.

(** ["#.*TODO"] under IGNORECASE *)
Definition hash_todo : regex :=
  Seq (Lit "#") (Seq (Star dot)
    (Seq (LitI "T") (Seq (LitI "O") (Seq (LitI "D") (LitI "O"))))).

Definition todo_check (line_number : Z) (line : string)
    : result (option diagnostic) :=
  if found (re_search hash_todo line) then
    Ok (Some (line_number, "S005 TODO found"))
  else Ok None.

(** ["^ *(def|class)"], ["(?! )\w*"] and ["^ *(def|class) [\w]"] *)
Definition def_or_class : regex := Alt (Str "def") (Str "class").
Definition construction_start : regex :=
  Seq Bol (Seq (Star is_blank_char) def_or_class).
Definition word_not_at_space : regex :=
  Seq (NotAhead (Lit " ")) (Star is_word).
Definition construction_one_space : regex :=
  Seq Bol (Seq (Star is_blank_char)
    (Seq def_or_class (Seq (Lit " ") (Cls is_word)))).

Definition construction_space_check (line_number : Z) (line : string)
    : result (option diagnostic) :=
  if matched (re_match construction_start line) then
    construction_name <- index (findall word_not_at_space line) 0 ;;
    if negb (matched (re_match construction_one_space line)) then
      Ok (Some (line_number,
                "S007 Too many spaces after " ++ construction_name))
    else Ok None
  else Ok None.

(** ["^class"], ["^__|__$"] and ["^[A-Z][A-Za-z]*$"] *)
Definition class_start : regex := Seq Bol (Str "class").
Definition dunder_marks : regex :=
  Alt (Seq Bol (Str "__")) (Seq (Str "__") Eol).
Definition is_letter (c : ascii) : bool := is_upper c || is_lower c.
Definition camel_case : regex :=
  Seq Bol (Seq (Cls is_upper) (Seq (Star is_letter) Eol)).

Definition class_case_check (line_number : Z) (line : string)
    : result (option diagnostic) :=
  if matched (re_match class_start line) then
    word <- index (findall word_not_at_space line) 1 ;;
    let class_name := sub_empty dunder_marks word in
    if negb (matched (re_match camel_case class_name)) then
      Ok (Some (line_number,
                "S008 Class name " ++ class_name ++ " should use CamelCase"))
    else Ok None
  else Ok None.

(** ** The blank-line pass *)

(** ["^\s*$"] *)
Definition blank_pattern : regex := Seq Bol (Seq (Star is_space) Eol).

Definition is_blank (line : string) : bool :=
  matched (re_match blank_pattern line).

Definition S006_message : string :=
  "S006 More than two blank lines used before this line".

(** The body of the loop of [blank_line_check], threading [num_blanks] and
    [blanks_dict] over the lines that remain, [line_number] being the
    index [enumerate] gives to the first of them. *)
Fixpoint blank_line_loop (lines : list string) (line_number : Z)
    (num_blanks : Z) (blanks_dict : dict string) : dict string :=
  match lines with
  | [] => blanks_dict
  | line :: rest =>
      if num_blanks <=? 2 then
        if is_blank line then
          blank_line_loop rest (line_number + 1) (num_blanks + 1) blanks_dict
        else blank_line_loop rest (line_number + 1) 0 blanks_dict
      else
        if negb (is_blank line) then
          blank_line_loop rest (line_number + 1) 0
            (dict_set (line_number + 1) S006_message blanks_dict)
        else blank_line_loop rest (line_number + 1) num_blanks blanks_dict
  end.

Definition blank_line_check (file : list string) : dict string :=
  blank_line_loop file 0 0 [].

(** ** Syntax trees

    The nodes of Python's [ast] that the analyzer tells apart, and those
    that hold an [arguments] object, with their fields in the order of
    [_fields]; every other kind of node is [Other] and holds its child
    nodes in that order.  [ctx] is the [Load()] or
    [Store()] node of a name or a list display. *)

#[local] Set Warnings "-register-all".

Inductive node : Type :=
| FunctionDef (name : string) (args : arguments) (body : list node)
    (decorator_list : list node) (returns : option node) (lineno : Z)
| AsyncFunctionDef (name : string) (args : arguments) (body : list node)
    (decorator_list : list node) (returns : option node) (lineno : Z)
| Lambda (args : arguments) (body : node) (lineno : Z)
| Assign (targets : list node) (value : node) (lineno : Z)
| Name (id : string) (ctx : node) (lineno : Z)
| ListDisplay (elts : list node) (ctx : node) (lineno : Z)
| SetDisplay (elts : list node) (lineno : Z)
| DictDisplay (dkeys : list (option node)) (dvalues : list node) (lineno : Z)
| Other (children : list node)
with arguments : Type :=
| Arguments (posonlyargs : list arg) (args : list arg) (vararg : option arg)
    (kwonlyargs : list arg) (kw_defaults : list (option node))
    (kwarg : option arg) (defaults : list node)
with arg : Type :=
| Arg (name : string) (annotation : option node) (lineno : Z).

(** Anything [ast.walk] can yield. *)
Inductive ast_obj : Type :=
| ONode (n : node)
| OArguments (a : arguments)
| OArg (a : arg).

Definition opt_list {A : Type} (o : option A) : list A :=
  match o with Some a => [a] | None => [] end.

(** The items of a list field that are nodes ([None] entries are skipped). *)
Definition present {A : Type} (l : list (option A)) : list A :=
  flat_map opt_list l.

(** [ast.iter_child_nodes] *)
Definition iter_child_nodes (o : ast_obj) : list ast_obj :=
  match o with
  | ONode (FunctionDef _ a body decorators returns _) =>
      OArguments a :: map ONode (body ++ decorators ++ opt_list returns)%list
  | ONode (AsyncFunctionDef _ a body decorators returns _) =>
      OArguments a :: map ONode (body ++ decorators ++ opt_list returns)%list
  | ONode (Lambda a body _) => [OArguments a; ONode body]
  | ONode (Assign targets value _) => map ONode (targets ++ [value])%list
  | ONode (Name _ ctx _) => [ONode ctx]
  | ONode (ListDisplay elts ctx _) => map ONode (elts ++ [ctx])%list
  | ONode (SetDisplay elts _) => map ONode elts
  | ONode (DictDisplay ks vs _) => map ONode (present ks ++ vs)%list
  | ONode (Other children) => map ONode children
  | OArguments (Arguments posonly args vararg kwonly kw_defaults kwarg defaults) =>
      (map OArg (posonly ++ args ++ opt_list vararg ++ kwonly)
       ++ map ONode (present kw_defaults)
       ++ map OArg (opt_list kwarg)
       ++ map ONode defaults)%list
  | OArg (Arg _ annotation _) => map ONode (opt_list annotation)
  end.

Definition sum_sizes {A : Type} (f : A -> nat) (l : list A) : nat :=
  list_sum (map f l).

Definition opt_size {A : Type} (f : A -> nat) (o : option A) : nat :=
  match o with Some a => f a | None => 0%nat end.

(** The number of objects in a tree. *)
Fixpoint node_size (n : node) : nat :=
  match n with
  | FunctionDef _ a body decorators returns _ =>
      S (arguments_size a + sum_sizes node_size body
         + sum_sizes node_size decorators + opt_size node_size returns)
  | AsyncFunctionDef _ a body decorators returns _ =>
      S (arguments_size a + sum_sizes node_size body
         + sum_sizes node_size decorators + opt_size node_size returns)
  | Lambda a body _ => S (arguments_size a + node_size body)
  | Assign targets value _ => S (sum_sizes node_size targets + node_size value)
  | Name _ ctx _ => S (node_size ctx)
  | ListDisplay elts ctx _ => S (sum_sizes node_size elts + node_size ctx)
  | SetDisplay elts _ => S (sum_sizes node_size elts)
  | DictDisplay ks vs _ =>
      S (sum_sizes (opt_size node_size) ks + sum_sizes node_size vs)
  | Other children => S (sum_sizes node_size children)
  end
with arguments_size (a : arguments) : nat :=
  match a with
  | Arguments posonly args vararg kwonly kw_defaults kwarg defaults =>
      S (sum_sizes arg_size posonly + sum_sizes arg_size args
         + opt_size arg_size vararg + sum_sizes arg_size kwonly
         + sum_sizes (opt_size node_size) kw_defaults
         + opt_size arg_size kwarg + sum_sizes node_size defaults)
  end
with arg_size (a : arg) : nat :=
  match a with
  | Arg _ annotation _ => S (opt_size node_size annotation)
  end.

Definition obj_size (o : ast_obj) : nat :=
  match o with
  | ONode n => node_size n
  | OArguments a => arguments_size a
  | OArg a => arg_size a
  end.

(** The loop of [ast.walk]: pop the left end of the queue, push the
    children at the right end, yield the popped object. *)
Fixpoint walk_loop (fuel : nat) (todo : list ast_obj) : list ast_obj :=
  match fuel, todo with
  | S fuel', o :: rest => o :: walk_loop fuel' (rest ++ iter_child_nodes o)%list
  | _, _ => []
  end.

(** [ast.walk(tree)]; the loop pops one object a turn, so the number of
    objects of the tree is the fuel it needs. *)
Definition walk (tree : node) : list ast_obj :=
  walk_loop (node_size tree) [ONode tree].

(** ** The syntax-tree pass

    The checks touch [ast_errors_dict] only through the item assignment
    [ast_errors_dict[k] = v].  The pass is written over any store with
    such an assignment: with [dict_set] it is [ast_checks] itself, with
    [record_write] it lists the assignments it makes, in order. *)

(** ["^[a-z0-9_]+$"] *)
Definition snake_char (c : ascii) : bool :=
  is_lower c || is_digit c || (c =? "_")%char.
Definition snake_case : regex := Seq Bol (Seq (Plus snake_char) Eol).

Definition S009_message (name : string) : string :=
  "S009 Function name " ++ name ++ " should use snake_case".
Definition S010_message (name : string) : string :=
  "S010 Argument name " ++ name ++ " should be snake_case".
Definition S011_message (name : string) : string :=
  "S011 Variable name " ++ name ++ " should use snake_case".
Definition S012_message : string :=
  "S012 Default argument value is mutable".

(** [n.id]: only a [Name] has the attribute. *)
Definition get_id (n : node) : result string :=
  match n with
  | Name id _ _ => Ok id
  | _ => Raise AttributeError
  end.

(** [isinstance(dval, (ast.List, ast.Set, ast.Dict))], with the line of
    the literal. *)
Definition mutable_literal (dval : node) : option Z :=
  match dval with
  | ListDisplay _ _ lineno => Some lineno
  | SetDisplay _ lineno => Some lineno
  | DictDisplay _ _ lineno => Some lineno
  | _ => None
  end.

Section TreePass.

Context {S : Type} (assign : Z -> string -> S -> S).

Definition function_case_check (name : string) (lineno : Z) (errors : S) : S :=
  if negb (matched (re_match snake_case name)) then
    assign lineno (S009_message name) errors
  else errors.

Definition argument_case_check (agm : arg) (errors : S) : S :=
  match agm with
  | Arg name _ lineno =>
      if negb (matched (re_match snake_case name)) then
        assign lineno (S010_message name) errors
      else errors
  end.

(** [var.targets[0].id] may raise; the [AttributeError] is caught. *)
Definition variable_case_check (targets : list node) (lineno : Z) (errors : S)
    : result S :=
  match (target <- index targets 0 ;; get_id target) with
  | Ok id =>
      if negb (matched (re_match snake_case id)) then
        Ok (assign lineno (S011_message id) errors)
      else Ok errors
  | Raise AttributeError => Ok errors
  | Raise e => Raise e
  end.

(** Returns [True] after a write and [None], which is false, otherwise. *)
Definition defval_multability_check (dval : node) (errors : S) : bool * S :=
  match mutable_literal dval with
  | Some lineno => (true, assign lineno S012_message errors)
  | None => (false, errors)
  end.

(** [for defval in node.defaults: if defval_multability_check(defval): break] *)
Fixpoint scan_defaults (defaults : list node) (errors : S) : S :=
  match defaults with
  | [] => errors
  | defval :: rest =>
      let (hit, errors') := defval_multability_check defval errors in
      if hit then errors' else scan_defaults rest errors'
  end.

(** [for arg in node.args: argument_case_check(arg)] *)
Fixpoint scan_args (args : list arg) (errors : S) : S :=
  match args with
  | [] => errors
  | agm :: rest => scan_args rest (argument_case_check agm errors)
  end.

(** The body of the loop over [ast.walk(tree)]. *)
Definition visit (o : ast_obj) (errors : S) : result S :=
  match o with
  | ONode (FunctionDef name _ _ _ _ lineno) =>
      Ok (function_case_check name lineno errors)
  | OArguments (Arguments _ args _ _ _ _ defaults) =>
      Ok (scan_defaults defaults (scan_args args errors))
  | ONode (Assign targets _ lineno) =>
      variable_case_check targets lineno errors
  | _ => Ok errors
  end.

Fixpoint visit_all (objs : list ast_obj) (errors : S) : result S :=
  match objs with
  | [] => Ok errors
  | o :: rest => errors' <- visit o errors ;; visit_all rest errors'
  end.

Definition tree_pass (tree : node) (init : S) : result S :=
  visit_all (walk tree) init.

(** The effect of a list of assignments on a store. *)
Fixpoint apply_writes (ws : list diagnostic) (errors : S) : S :=
  match ws with
  | [] => errors
  | (ln, msg) :: rest => apply_writes rest (assign ln msg errors)
  end.

End TreePass.

Definition ast_checks (tree : node) : result (dict string) :=
  tree_pass dict_set tree [].

Definition record_write (ln : Z) (msg : string) (log : list diagnostic)
    : list diagnostic :=
  (log ++ [(ln, msg)])%list.

(** The assignments [ast_checks] makes to [ast_errors_dict], in order. *)
Definition ast_writes (tree : node) : result (list diagnostic) :=
  tree_pass record_write tree [].

(** The assignments made while one object is visited. *)
Definition writes_of (o : ast_obj) : result (list diagnostic) :=
  visit record_write o [].

(** The last message assigned to a line. *)
Fixpoint last_write (ln : Z) (ws : list diagnostic) : option string :=
  match ws with
  | [] => None
  | (k, msg) :: rest =>
      match last_write ln rest with
      | Some m => Some m
      | None => if ln =? k then Some msg else None
      end
  end.

(** ** The analysis of a file *)

(** The lines a text file yields when iterated: each keeps its newline,
    the last one may lack it. *)
Fixpoint iter_lines (text : string) : list string :=
  match text with
  | EmptyString => []
  | String c rest =>
      if (c =? newline)%char then nl :: iter_lines rest
      else
        match iter_lines rest with
        | [] => [String c EmptyString]
        | line :: more => String c line :: more
        end
  end.

Definition file_errors : Type := dict (list string).

(** [try: errors_in_file[ln]
    except KeyError: errors_in_file[ln] = []
    finally: errors_in_file[ln].append(msg)] *)
Definition add_error (ln : Z) (msg : string) (errors_in_file : file_errors)
    : result file_errors :=
  let errors_in_file :=
    match dict_get ln errors_in_file with
    | Some _ => errors_in_file
    | None => dict_set ln [] errors_in_file
    end in
  match dict_get ln errors_in_file with
  | Some error_list => Ok (dict_set ln (error_list ++ [msg])%list errors_in_file)
  | None => Raise KeyError
  end.

(** [for ln, msg in d.items(): ...] with the block above as its body. *)
Fixpoint add_errors (items : dict string) (errors_in_file : file_errors)
    : result file_errors :=
  match items with
  | [] => Ok errors_in_file
  | (ln, msg) :: rest =>
      errors_in_file' <- add_error ln msg errors_in_file ;;
      add_errors rest errors_in_file'
  end.

Definition line_rule : Type := Z -> string -> result (option diagnostic).

Definition line_rules : list line_rule :=
  [line_length_check; indentation_check; semicolon_check;
   comment_space_check; todo_check; construction_space_check;
   class_case_check].

(** One turn of the inner loop: unpacking [None] raises [TypeError], and a
    [TypeError] makes the loop [continue]. *)
Definition apply_rule (check : line_rule) (line_number : Z) (line : string)
    (errors_in_file : file_errors) : result file_errors :=
  let attempt :=
    r <- check (line_number + 1) line ;;
    match r with
    | Some (ln, msg) => add_error ln msg errors_in_file
    | None => Raise TypeError
    end in
  match attempt with
  | Raise TypeError => Ok errors_in_file
  | other => other
  end.

Fixpoint apply_rules (checks : list line_rule) (line_number : Z)
    (line : string) (errors_in_file : file_errors) : result file_errors :=
  match checks with
  | [] => Ok errors_in_file
  | check :: rest =>
      errors_in_file' <- apply_rule check line_number line errors_in_file ;;
      apply_rules rest line_number line errors_in_file'
  end.

Fixpoint check_lines (lines : list string) (line_number : Z)
    (errors_in_file : file_errors) : result file_errors :=
  match lines with
  | [] => Ok errors_in_file
  | line :: rest =>
      errors_in_file' <-
        apply_rules line_rules line_number line errors_in_file ;;
      check_lines rest (line_number + 1) errors_in_file'
  end.

(** A file object open for reading in text mode.  What the analyzer sees
    of it is what reading it from its start gives: the text of the file,
    or the exception raised while the file is read, a
    [UnicodeDecodeError] for bytes that do not decode or an [OSError] of
    the device.  A text is the file that reads as it. *)
Inductive file_object : Type :=
| Readable (text : string)
| Unreadable (e : exn).

Coercion Readable : string >-> file_object.

(** [for line in file], from the start of the file: the loop raises when
    the read does; what it did with the lines before is lost with the
    local state of the caller. *)
Definition readlines (file : file_object) : result (list string) :=
  match file with
  | Readable text => Ok (iter_lines text)
  | Unreadable e => Raise e
  end.

(** [file.read()], from the start of the file. *)
Definition read (file : file_object) : result string :=
  match file with
  | Readable text => Ok text
  | Unreadable e => Raise e
  end.

Section CheckFile.

(** [ast.parse], which is not part of the analyzer: it returns a tree or
    raises. *)
Variable parse : string -> result node.

(** The file is read three times, each time from its start
    ([file.seek(0)]): by the loop of the line rules, by
    [blank_line_check] and by [file.read()]. *)
Definition check_file (file : file_object) : result file_errors :=
  lines <- readlines file ;;
  errors_in_file <- check_lines lines 0 [] ;;
  lines <- readlines file ;;
  let blank_lines := blank_line_check lines in
  errors_in_file <- add_errors blank_lines errors_in_file ;;
  text <- read file ;;
  tree <- parse text ;;
  ast_errors <- ast_checks tree ;;
  add_errors ast_errors errors_in_file.

End CheckFile.

(** ** The report *)

(** [sorted]: a stable insertion sort. *)
Fixpoint insert_sorted {A : Type} (leb : A -> A -> bool) (x : A) (l : list A)
    : list A :=
  match l with
  | [] => [x]
  | y :: l' => if leb x y then x :: l else y :: insert_sorted leb x l'
  end.

Definition sorted {A : Type} (leb : A -> A -> bool) (l : list A) : list A :=
  fold_right (insert_sorted leb) [] l.

(** The order of lists of strings and of [(line, error_list)] tuples. *)
Fixpoint str_list_leb (l1 l2 : list string) : bool :=
  match l1, l2 with
  | [], _ => true
  | _ :: _, [] => false
  | x :: l1', y :: l2' =>
      if (x =? y)%string then str_list_leb l1' l2' else (x <? y)%string
  end.

Definition item_leb (a b : Z * list string) : bool :=
  (fst a <? fst b) || ((fst a =? fst b) && str_list_leb (snd a) (snd b)).

(** What [print_results] prints for one file, before formatting: the pairs
    of a line number and an error, in the order of the [print] calls. *)
Definition report (errors_dict : file_errors) : list diagnostic :=
  flat_map
    (fun item => map (pair (fst item)) (sorted String.leb (snd item)))
    (sorted item_leb errors_dict).

Definition decimal (z : Z) : string :=
  DecimalString.NilZero.string_of_int (Z.to_int z).

Definition format_line (path : string) (d : diagnostic) : string :=
  path ++ ": Line " ++ decimal (fst d) ++ ": " ++ snd d.

(** The lines printed, [all_errors] mapping each path to its errors. *)
Definition print_results (all_errors : list (string * file_errors))
    : list string :=
  flat_map
    (fun entry => map (format_line (fst entry)) (report (snd entry)))
    all_errors.

(** The four-character code a message starts with. *)
Definition code_of (msg : string) : string := substring 0 4 msg.

(** ** The command line *)

(** [s.endswith(suffix)] *)
Definition endswith (s suffix : string) : bool :=
  (String.length suffix <=? String.length s)%nat
  && (substring (String.length s - String.length suffix)
                (String.length suffix) s =? suffix)%string.

(** [all_errors[path] = errors]: as [dict_set], on the dictionary that is
    keyed by path. *)
Fixpoint path_set (path : string) (errors : file_errors)
    (all_errors : list (string * file_errors)) : list (string * file_errors) :=
  match all_errors with
  | [] => [(path, errors)]
  | (path', errors') :: rest =>
      if (path =? path')%string then (path, errors) :: rest
      else (path', errors') :: path_set path errors rest
  end.

(** How a run ends: it is done, an exception raised inside [check_file]
    goes through, or [open] or [os.listdir] raised. *)
Inductive outcome (A : Type) : Type :=
| Done (a : A)
| Failed (e : exn)
| FailedOS.

Arguments Done {A} a.
Arguments Failed {A} e.
Arguments FailedOS {A}.

Section Main.

(** What the program finds around it: [ast.parse], the file object
    [open(path, "r")] returns ([None] when it raises), the names
    [os.listdir] returns ([None] when it raises) and [os.sep]. *)
Variable parse : string -> result node.
Variable read_file : string -> option file_object.
Variable listdir : string -> option (list string).
Variable sep : string.

(** [with open(path, "r") as file: all_errors[path] = check_file(file)] *)
Definition check_path (path : string) (all_errors : list (string * file_errors))
    : outcome (list (string * file_errors)) :=
  match read_file path with
  | None => FailedOS
  | Some file =>
      match check_file parse file with
      | Ok errors => Done (path_set path errors all_errors)
      | Raise e => Failed e
      end
  end.

(** The loop over [os.listdir(path)]. *)
Fixpoint check_entries (path : string) (names : list string)
    (all_errors : list (string * file_errors))
    : outcome (list (string * file_errors)) :=
  match names with
  | [] => Done all_errors
  | file_name :: rest =>
      if endswith file_name ".py" then
        match check_path (path ++ sep ++ file_name) all_errors with
        | Done all_errors' => check_entries path rest all_errors'
        | Failed e => Failed e
        | FailedOS => FailedOS
        end
      else check_entries path rest all_errors
  end.

(** [main], from the path the command line gives; what it returns when
    done is what it has printed. *)
Definition main (path : string) : outcome (list string) :=
  if endswith path ".py" then
    match check_path path [] with
    | Done all_errors => Done (print_results all_errors)
    | Failed e => Failed e
    | FailedOS => FailedOS
    end
  else
    match listdir path with
    | None => FailedOS
    | Some names =>
        match check_entries path names [] with
        | Done all_errors => Done (print_results all_errors)
        | Failed e => Failed e
        | FailedOS => FailedOS
        end
    end.

End Main.

(** * The vocabulary of the properties

    Nothing below is part of the analyzer: these are the notions its
    properties are stated with, and the sample inputs they are run on. *)

(** ** Strings *)

(** The strings that [^\s*$] matches: whitespace only. *)
Fixpoint whitespace_only (s : string) : bool :=
  match s with
  | EmptyString => true
  | String c s' => is_space c && whitespace_only s'
  end.

(** A text without [#], and one without newline. *)
Fixpoint no_hash (s : string) : bool :=
  match s with
  | EmptyString => true
  | String c s' => negb (c =? "#")%char && no_hash s'
  end.

Fixpoint no_newline (s : string) : bool :=
  match s with
  | EmptyString => true
  | String c s' => negb (c =? newline)%char && no_newline s'
  end.

Definition starts_with_hash (t : string) : bool :=
  match t with
  | String c _ => (c =? "#")%char
  | EmptyString => false
  end.

Definition starts_with_space (t : string) : bool :=
  match t with
  | String c _ => is_blank_char c
  | EmptyString => false
  end.

(** All the characters of [s] are in the class [p]. *)
Fixpoint all_chars (p : ascii -> bool) (s : string) : bool :=
  match s with
  | EmptyString => true
  | String c s' => p c && all_chars p s'
  end.

Fixpoint count_spaces (s : string) : nat :=
  match s with
  | EmptyString => 0%nat
  | String c s' =>
      if is_blank_char c then S (count_spaces s') else count_spaces s'
  end.

(** [n] times the character [c], and an indentation of [n] spaces. *)
Fixpoint replicate (n : nat) (c : ascii) : string :=
  match n with
  | O => EmptyString
  | S n' => String c (replicate n' c)
  end.

Definition indent (n : nat) : string := replicate n " ".

(** ** Runs of blank lines *)

(** The line numbers [blank_line_check] flags, in order, and the
    dictionary that flagging them builds. *)
Fixpoint blank_flags (lines : list string) (line_number num_blanks : Z)
    : list Z :=
  match lines with
  | [] => []
  | line :: rest =>
      if num_blanks <=? 2 then
        if is_blank line then blank_flags rest (line_number + 1) (num_blanks + 1)
        else blank_flags rest (line_number + 1) 0
      else
        if negb (is_blank line) then
          (line_number + 1) :: blank_flags rest (line_number + 1) 0
        else blank_flags rest (line_number + 1) num_blanks
  end.

Definition flag_all (flags : list Z) (d : dict string) : dict string :=
  fold_left (fun d k => dict_set k S006_message d) flags d.

(** The length of the run of whitespace-only lines at the head of a list,
    and of the maximal run that ends right before the line of index [i]. *)
Fixpoint leading_blanks (lines : list string) : nat :=
  match lines with
  | line :: rest =>
      if whitespace_only line then S (leading_blanks rest) else 0%nat
  | [] => 0%nat
  end.

Definition blank_run_before (file : list string) (i : nat) : nat :=
  leading_blanks (rev (firstn i file)).

(** Line [i] (from 0) is not blank and follows more than two blank lines. *)
Definition after_long_run (file : list string) (i : nat) : Prop :=
  exists line,
    nth_error file i = Some line /\ whitespace_only line = false
    /\ (2 < blank_run_before file i)%nat.

(** The file of the example: one code line after runs of 0, 1, 2, 3, 4
    and 5 blank lines. *)
Definition runs_example : list string :=
  let code := "x = 1" ++ nl in
  [code; nl; code; nl; nl; code; nl; nl; nl; code;
   nl; nl; nl; nl; code; nl; nl; nl; nl; nl; code].

(** ** Trees and the assignments of the pass *)

(** The objects of a tree: its root and, with an object, its children. *)
Inductive within (root : ast_obj) : ast_obj -> Prop :=
| within_root : within root root
| within_child (o c : ast_obj) :
    within root o -> In c (iter_child_nodes o) -> within root c.

(** The assignments each check makes, as lists: of [function_case_check],
    of [argument_case_check] and of the loop over the arguments. *)
Definition function_writes (name : string) (lineno : Z) : list diagnostic :=
  if negb (matched (re_match snake_case name)) then
    [(lineno, S009_message name)]
  else [].

Definition argument_writes (agm : arg) : list diagnostic :=
  match agm with
  | Arg name _ lineno =>
      if negb (matched (re_match snake_case name)) then
        [(lineno, S010_message name)]
      else []
  end.

Definition args_writes (args : list arg) : list diagnostic :=
  flat_map argument_writes args.

(** Of the loop over the defaults: one assignment, for the first list, set
    or dict literal among them, if any. *)
Fixpoint defaults_writes (defaults : list node) : list diagnostic :=
  match defaults with
  | [] => []
  | defval :: rest =>
      match mutable_literal defval with
      | Some lineno => [(lineno, S012_message)]
      | None => defaults_writes rest
      end
  end.

(** Of [variable_case_check], which raises when there is no target. *)
Definition variable_writes (targets : list node) (lineno : Z)
    : result (list diagnostic) :=
  match targets with
  | [] => Raise IndexError
  | Name id _ _ :: _ =>
      if negb (matched (re_match snake_case id)) then
        Ok [(lineno, S011_message id)]
      else Ok []
  | _ :: _ => Ok []
  end.

(** Of the visit of one object, and of the visits of a list of objects. *)
Definition node_writes (o : ast_obj) : result (list diagnostic) :=
  match o with
  | ONode (FunctionDef name _ _ _ _ lineno) => Ok (function_writes name lineno)
  | OArguments (Arguments _ args _ _ _ _ defaults) =>
      Ok (args_writes args ++ defaults_writes defaults)%list
  | ONode (Assign targets _ lineno) => variable_writes targets lineno
  | _ => Ok []
  end.

Fixpoint all_writes (objs : list ast_obj) : result (list diagnostic) :=
  match objs with
  | [] => Ok []
  | o :: rest =>
      ws <- node_writes o ;;
      ws' <- all_writes rest ;;
      Ok (ws ++ ws')%list
  end.


(** [Load()], [Store()], a [pass] statement, a constant and a module. *)
Definition LoadCtx : node := Other [].
Definition StoreCtx : node := Other [].
Definition PassStmt : node := Other [].
Definition Constant : node := Other [].
Definition ModuleNode (body : list node) : node := Other body.

(** The tree of [def myFunc(X=[]):] with a [pass] body on the next line,
    and the tree of [def myFunc(X=[], y={}):] with the same body. *)
Definition my_func_tree : node :=
  ModuleNode
    [FunctionDef "myFunc"
       (Arguments [] [Arg "X" None 1] None [] [] None [ListDisplay [] LoadCtx 1])
       [PassStmt] [] None 1].

Definition my_func_tree_two_defaults : node :=
  ModuleNode
    [FunctionDef "myFunc"
       (Arguments [] [Arg "X" None 1; Arg "y" None 1] None [] [] None
          [ListDisplay [] LoadCtx 1; DictDisplay [] [] 1])
       [PassStmt] [] None 1].


Definition Attribute (value ctx : node) : node := Other [value; ctx].




Definition attribute_assign_tree : node :=
  ModuleNode [Assign [Attribute (Name "X" LoadCtx 1) StoreCtx] Constant 1].



(** The file that holds [def myFunc(X=[]):] and a [pass] body, and a
    parser that knows it. *)
Definition my_func_source : string :=
  "def myFunc(X=[]):" ++ nl ++ "    pass" ++ nl.

Definition my_func_parse (text : string) : result node :=
  if (text =? my_func_source)%string then Ok my_func_tree
  else Raise SyntaxError.

(** ** The errors of a file *)

(** The list of a line in the errors of a file, empty for a line that has
    no entry. *)
Definition errors_at (ln : Z) (errors_in_file : file_errors) : list string :=
  match dict_get ln errors_in_file with
  | Some error_list => error_list
  | None => []
  end.

(** The message a rule files for a line, if any, and the messages of the
    rules, in their order. *)
Definition rule_message (check : line_rule) (ln : Z) (line : string)
    : list string :=
  match check ln line with
  | Ok (Some (_, msg)) => [msg]
  | _ => []
  end.

Definition rule_messages (checks : list line_rule) (ln : Z) (line : string)
    : list string :=
  flat_map (fun check => rule_message check ln line) checks.

(** The messages the rules file for line [ln], the first of [lines] being
    line [n + 1]. *)
Fixpoint line_messages (lines : list string) (n ln : Z) : list string :=
  match lines with
  | [] => []
  | line :: rest =>
      ((if ln =? n + 1 then rule_messages line_rules (n + 1) line else [])
       ++ line_messages rest (n + 1) ln)%list
  end.

(** [subseq l l']: [l] is [l'] with some items left out. *)
Inductive subseq {A : Type} : list A -> list A -> Prop :=
| subseq_nil : subseq [] []
| subseq_skip (x : A) (l l' : list A) : subseq l l' -> subseq l (x :: l')
| subseq_take (x : A) (l l' : list A) : subseq l l' -> subseq (x :: l) (x :: l').

(** The codes of the line rules, in the order of the rules, and the codes
    of the syntax-tree pass. *)
Definition line_codes : list string :=
  ["S001"; "S002"; "S003"; "S004"; "S005"; "S007"; "S008"].

Definition tree_codes : list string := ["S009"; "S010"; "S011"; "S012"].

(** The order in which the diagnostics of a file are printed: by line
    number, and on one line by message and by code. *)
Definition printed_before (a b : diagnostic) : Prop :=
  fst a < fst b \/
  (fst a = fst b /\ (snd a <=? snd b)%string = true
   /\ (code_of (snd a) <? code_of (snd b))%string = true).

(** A source with the function of [my_func_tree], a parser that knows
    this source only, and the errors of the source. *)
Definition sample_source : string :=
  "def  myFunc(X=[]):  # TODO" ++ nl ++ "    pass;" ++ nl.

Definition sample_parse (text : string) : result node :=
  if (text =? sample_source)%string then Ok my_func_tree
  else Raise SyntaxError.

Definition sample_errors : file_errors :=
  [(1, ["S005 TODO found"; "S007 Too many spaces after def"; S012_message]);
   (2, ["S003 Unnecessary semicolon after a statement"])].

(** A name of 79 characters, the file that holds it on its only line, and
    a parser that knows this file only. *)
Definition name_79 : string := replicate 79 "a".
Definition file_79 : string := name_79 ++ nl.

Definition parse_79 (text : string) : result node :=
  if (text =? file_79)%string then
    Ok (ModuleNode [Other [Name name_79 LoadCtx 1]])
  else Raise SyntaxError.

(** ** The line rules, in words *)

(** [s] holds no character [c]. *)
Fixpoint lacks (c : ascii) (s : string) : bool :=
  match s with
  | EmptyString => true
  | String x s' => negb (x =? c)%char && lacks c s'
  end.

(** The text before the first [#], all of it when there is none. *)
Fixpoint before_hash (s : string) : string :=
  match s with
  | EmptyString => EmptyString
  | String c s' => if (c =? "#")%char then EmptyString
                   else String c (before_hash s')
  end.

(** [s] ends in a semicolon, or in a semicolon and a newline. *)
Fixpoint ends_with_semicolon (s : string) : bool :=
  match s with
  | EmptyString => false
  | String c s' =>
      ((c =? ";")%char && ((s' =? "")%string || (s' =? nl)%string))
      || ends_with_semicolon s'
  end.

(** [s] starts with the letters of TODO, in any case; they come in [s]
    before any newline; they come, before any newline, after a [#] of
    [s]. *)
Definition todo_here (s : string) : bool :=
  match s with
  | String a (String b (String c (String d _))) =>
      (to_lower a =? "t")%char && (to_lower b =? "o")%char
      && (to_lower c =? "d")%char && (to_lower d =? "o")%char
  | _ => false
  end.

Fixpoint todo_ahead (s : string) : bool :=
  todo_here s
  || match s with
     | String c s' => dot c && todo_ahead s'
     | EmptyString => false
     end.

Fixpoint hash_then_todo (s : string) : bool :=
  match s with
  | EmptyString => false
  | String c s' => ((c =? "#")%char && todo_ahead s') || hash_then_todo s'
  end.

Definition starts_with_word (t : string) : bool :=
  match t with
  | String c _ => is_word c
  | EmptyString => false
  end.

(** ** The syntax-tree pass, in words *)

(** [s] without the newline that ends it, if one does. *)
Fixpoint chomp (s : string) : string :=
  match s with
  | EmptyString => EmptyString
  | String c s' =>
      match s' with
      | EmptyString => if (c =? newline)%char then EmptyString else s
      | _ => String c (chomp s')
      end
  end.

(** Where [$] holds: at the end of the text and before a last newline. *)
Definition at_end (t : string) : bool :=
  match t with
  | EmptyString => true
  | String x EmptyString => (x =? newline)%char
  | _ => false
  end.

(** A name of one character or more among [a-z], [0-9] and [_]. *)
Definition snake_name (s : string) : bool :=
  match s with
  | EmptyString => false
  | _ => all_chars snake_char s
  end.

(** What in the tree makes the pass assign [msg] to line [ln]: a function
    definition at [ln] with a name that is not snake_case; an argument at
    [ln], among the [args] of an [arguments] object, with such a name; a
    list, set or dict literal at [ln] that is the first one among the
    [defaults] of an [arguments] object; an assignment at [ln] whose
    first target is such a name. *)
Definition cause (tree : node) (ln : Z) (msg : string) : Prop :=
  (exists name a body decorators returns,
      In (ONode (FunctionDef name a body decorators returns ln)) (walk tree)
      /\ re_match snake_case name = None /\ msg = S009_message name)
  \/ (exists posonly args vararg kwonly kw_defaults kwarg defaults name ann,
      In (OArguments
            (Arguments posonly args vararg kwonly kw_defaults kwarg defaults))
         (walk tree)
      /\ In (Arg name ann ln) args
      /\ re_match snake_case name = None /\ msg = S010_message name)
  \/ (exists posonly args vararg kwonly kw_defaults kwarg pre d post,
      In (OArguments
            (Arguments posonly args vararg kwonly kw_defaults kwarg
               (pre ++ d :: post)))
         (walk tree)
      /\ Forall (fun x => mutable_literal x = None) pre
      /\ mutable_literal d = Some ln /\ msg = S012_message)
  \/ (exists id ctx l rest value,
      In (ONode (Assign (Name id ctx l :: rest) value ln)) (walk tree)
      /\ re_match snake_case id = None /\ msg = S011_message id).

(** ** The errors of a file, in words *)

(** All the pairs of a line and a message that the errors of a file
    hold. *)
Definition all_diagnostics (d : file_errors) : list diagnostic :=
  flat_map (fun item => map (pair (fst item)) (snd item)) d.

(** No line of the errors has an empty list. *)
Definition no_empty_list (d : file_errors) : Prop :=
  Forall (fun item => snd item <> []) d.

(** ** The command line, in words *)

(** The names of a listing that [main] looks at. *)
Definition python_files (names : list string) : list string :=
  filter (fun name => endswith name ".py") names.

(** The file at [path] can be opened and its analysis returns [errors]. *)
Definition analysed (parse : string -> result node)
    (read_file : string -> option file_object) (path : string)
    (errors : file_errors) : Prop :=
  exists file, read_file path = Some file /\ check_file parse file = Ok errors.

(** A directory [project] that holds the sample file and a file of notes,
    beside the sample file itself; and the same where the notes cannot be
    read. *)
Definition sample_read (path : string) : option file_object :=
  if ((path =? "sample.py") || (path =? "project/sample.py")
      || (path =? "project/notes.txt"))%string
  then Some (Readable sample_source) else None.

Definition sample_read_python (path : string) : option file_object :=
  if (path =? "project/notes.txt")%string then None else sample_read path.

Definition sample_listdir (path : string) : option (list string) :=
  if (path =? "project")%string then Some ["notes.txt"; "sample.py"]
  else None.

(** ** Constructions, in words *)

(** [t] starts with one space and a word character. *)
Definition space_then_word (t : string) : bool :=
  match t with
  | String a (String c _) => (a =? " ")%char && is_word c
  | _ => false
  end.

(** * Properties *)

(** ** Results *)

Lemma bind_ok {A B : Type} (m : result A) (f : A -> result B) (b : B) :
  bind m f = Ok b -> exists a, m = Ok a /\ f a = Ok b.
Proof.
  destruct m as [a|e]; simpl; intros H; [exists a; auto | discriminate].
Qed.

(** ** Dictionaries *)

Lemma dict_get_set {V : Type} (k k' : Z) (v : V) (d : dict V) :
  dict_get k (dict_set k' v d) = if k =? k' then Some v else dict_get k d.
Proof.
  induction d as [|[k0 v0] d IH]; simpl.
  - reflexivity.
  - destruct (k' =? k0) eqn:E1; simpl.
    + apply Z.eqb_eq in E1; subst k0.
      destruct (k =? k'); reflexivity.
    + destruct (k =? k0) eqn:E2.
      * apply Z.eqb_eq in E2; subst k0.
        rewrite Z.eqb_sym, E1. reflexivity.
      * exact IH.
Qed.

Lemma dict_get_in_keys {V : Type} (k : Z) (d : dict V) :
  In k (keys d) <-> dict_get k d <> None.
Proof.
  induction d as [|[k0 v0] d IH]; simpl.
  - split; [tauto | congruence].
  - destruct (k =? k0) eqn:E.
    + apply Z.eqb_eq in E. split; [congruence | auto].
    + apply Z.eqb_neq in E. rewrite <- IH. split; [intros [?|?] | ]; auto.
      congruence.
Qed.

Lemma keys_dict_set {V : Type} (k : Z) (v : V) (d : dict V) :
  keys (dict_set k v d) =
  if existsb (Z.eqb k) (keys d) then keys d else (keys d ++ [k])%list.
Proof.
  unfold keys. induction d as [|[k0 v0] d IH]; simpl.
  - reflexivity.
  - destruct (k =? k0) eqn:E; simpl.
    + apply Z.eqb_eq in E. subst k0. reflexivity.
    + rewrite IH.
      destruct (existsb (Z.eqb k) (map fst d)); reflexivity.
Qed.

Lemma NoDup_keys_dict_set {V : Type} (k : Z) (v : V) (d : dict V) :
  NoDup (keys d) -> NoDup (keys (dict_set k v d)).
Proof.
  intros H. rewrite keys_dict_set.
  destruct (existsb (Z.eqb k) (keys d)) eqn:E; [exact H|].
  apply NoDup_app; [exact H | repeat constructor; simpl; tauto |].
  intros x Hx [Hk|[]]. subst x.
  assert (existsb (Z.eqb k) (keys d) = true); [|congruence].
  apply existsb_exists. exists k. split; [exact Hx | apply Z.eqb_refl].
Qed.

Lemma In_dict_get {V : Type} (k : Z) (v : V) (d : dict V) :
  NoDup (keys d) -> In (k, v) d -> dict_get k d = Some v.
Proof.
  induction d as [|[k0 v0] d IH]; simpl; [tauto|].
  intros Hnd [Heq|Hin].
  - inversion Heq; subst. rewrite Z.eqb_refl. reflexivity.
  - inversion Hnd as [|? ? Hnotin Hnd']; subst.
    destruct (k =? k0) eqn:E.
    + apply Z.eqb_eq in E; subst k0. exfalso. apply Hnotin.
      change k with (fst (k, v)). apply in_map. exact Hin.
    + auto.
Qed.

(** ** The order of strings *)

Lemma ascii_compare_eq (a b : ascii) : Ascii.compare a b = Eq <-> a = b.
Proof.
  split; [apply Ascii.compare_eq_iff|].
  intros ->. unfold Ascii.compare. apply N.compare_refl.
Qed.

Lemma ascii_compare_lt_trans (a b c : ascii) :
  Ascii.compare a b = Lt -> Ascii.compare b c = Lt -> Ascii.compare a c = Lt.
Proof.
  unfold Ascii.compare. rewrite !N.compare_lt_iff. lia.
Qed.

Lemma str_compare_refl (s : string) : String.compare s s = Eq.
Proof.
  induction s as [|c s IH]; simpl; [reflexivity|].
  rewrite (proj2 (ascii_compare_eq c c) eq_refl). exact IH.
Qed.

Lemma str_compare_lt_trans (a b c : string) :
  String.compare a b = Lt -> String.compare b c = Lt ->
  String.compare a c = Lt.
Proof.
  revert b c. induction a as [|x a IH]; intros [|y b] [|z c]; simpl;
    try congruence.
  destruct (Ascii.compare x y) eqn:Exy; try discriminate;
    destruct (Ascii.compare y z) eqn:Eyz; try discriminate; intros H1 H2.
  - apply ascii_compare_eq in Exy, Eyz. subst.
    rewrite (proj2 (ascii_compare_eq z z) eq_refl). eauto.
  - apply ascii_compare_eq in Exy. subst. rewrite Eyz. reflexivity.
  - apply ascii_compare_eq in Eyz. subst. rewrite Exy. reflexivity.
  - rewrite (ascii_compare_lt_trans _ _ _ Exy Eyz). reflexivity.
Qed.

Lemma str_leb_iff (a b : string) :
  (a <=? b)%string = true <-> String.compare a b = Lt \/ a = b.
Proof.
  unfold String.leb. destruct (String.compare a b) eqn:E.
  - apply String.compare_eq_iff in E. tauto.
  - tauto.
  - split; [discriminate|]. intros [H|H]; [discriminate|].
    subst. rewrite str_compare_refl in E. discriminate.
Qed.

Lemma str_leb_trans (a b c : string) :
  (a <=? b)%string = true -> (b <=? c)%string = true ->
  (a <=? c)%string = true.
Proof.
  rewrite !str_leb_iff. intros [H1|H1] [H2|H2]; subst; auto.
  left. eapply str_compare_lt_trans; eassumption.
Qed.

Lemma str_leb_false (a b : string) :
  (a <=? b)%string = false -> (b <=? a)%string = true.
Proof.
  intros H. destruct (String.leb_total a b) as [H'|H']; congruence.
Qed.

(** The order of two strings is the order of their prefixes of a given
    length, unless the prefixes are equal. *)
Lemma str_leb_prefix (n : nat) (a b : string) :
  (a <=? b)%string = true ->
  (substring 0 n a <=? substring 0 n b)%string = true.
Proof.
  revert a b. induction n as [|n IH]; intros a b.
  - destruct a, b; reflexivity.
  - destruct a as [|x a], b as [|y b]; try reflexivity.
    + discriminate.
    + specialize (IH a b). revert IH. unfold String.leb. simpl.
      destruct (Ascii.compare x y); auto.
Qed.

(** ** Sorting *)

Section Sorting.

Context {A : Type} (leb : A -> A -> bool).
Hypothesis leb_total : forall x y, leb x y = false -> leb y x = true.

Let le (x y : A) : Prop := leb x y = true.

Lemma insert_sorted_perm (x : A) (l : list A) :
  Permutation (insert_sorted leb x l) (x :: l).
Proof.
  induction l as [|y l IH]; simpl.
  - apply Permutation_refl.
  - destruct (leb x y).
    + apply Permutation_refl.
    + eapply perm_trans; [apply perm_skip, IH | apply perm_swap].
Qed.

Lemma sorted_perm (l : list A) : Permutation (sorted leb l) l.
Proof.
  induction l as [|x l IH]; simpl.
  - apply perm_nil.
  - eapply perm_trans; [apply insert_sorted_perm | apply perm_skip, IH].
Qed.

Lemma insert_sorted_Sorted (x : A) (l : list A) :
  Sorted le l -> Sorted le (insert_sorted leb x l).
Proof.
  induction l as [|y l IH]; simpl; intros Hs.
  - repeat constructor.
  - destruct (leb x y) eqn:E.
    + constructor; [exact Hs | constructor; exact E].
    + apply Sorted_inv in Hs. destruct Hs as [Hs Hhd].
      constructor; [apply IH, Hs|].
      destruct l as [|z l]; simpl.
      * constructor. apply leb_total, E.
      * destruct (leb x z); constructor.
        -- apply leb_total, E.
        -- inversion Hhd; assumption.
Qed.

Lemma sorted_Sorted (l : list A) : Sorted le (sorted leb l).
Proof.
  induction l as [|x l IH]; simpl.
  - constructor.
  - apply insert_sorted_Sorted, IH.
Qed.

End Sorting.

Lemma Sorted_weaken {A : Type} (R R' : A -> A -> Prop) (l : list A) :
  (forall x y, R x y -> R' x y) -> Sorted R l -> Sorted R' l.
Proof.
  intros HR. induction 1 as [|x l Hs IH Hhd]; constructor; auto.
  destruct Hhd; constructor; auto.
Qed.

Lemma StronglySorted_app {A : Type} (R : A -> A -> Prop) (l1 l2 : list A) :
  StronglySorted R l1 -> StronglySorted R l2 ->
  (forall x y, In x l1 -> In y l2 -> R x y) ->
  StronglySorted R (l1 ++ l2).
Proof.
  induction 1 as [|x l1 Hs IH Hall]; simpl; intros H2 Hcross.
  - exact H2.
  - constructor.
    + apply IH; [exact H2 | intros; apply Hcross; simpl; auto].
    + apply Forall_app. split; [exact Hall|].
      apply Forall_forall. intros y Hy. apply Hcross; simpl; auto.
Qed.

Lemma StronglySorted_map {A B : Type} (f : A -> B) (R : A -> A -> Prop)
    (R' : B -> B -> Prop) (l : list A) :
  (forall x y, R x y -> R' (f x) (f y)) ->
  StronglySorted R l -> StronglySorted R' (map f l).
Proof.
  intros HR. induction 1 as [|x l Hs IH Hall]; simpl; constructor; auto.
  apply Forall_map. eapply Forall_impl; [|exact Hall]. auto.
Qed.

Lemma str_list_leb_total (l1 l2 : list string) :
  str_list_leb l1 l2 = false -> str_list_leb l2 l1 = true.
Proof.
  revert l2. induction l1 as [|x l1 IH]; intros [|y l2]; simpl;
    try congruence.
  destruct (String.eqb_spec x y) as [->|Hne].
  - rewrite String.eqb_refl. apply IH.
  - destruct (String.eqb_spec y x) as [->|_]; [congruence|].
    unfold String.ltb. rewrite (String.compare_antisym y x).
    destruct (String.compare x y) eqn:E; simpl; try congruence.
    apply String.compare_eq_iff in E. congruence.
Qed.

Lemma item_leb_total (a b : Z * list string) :
  item_leb a b = false -> item_leb b a = true.
Proof.
  unfold item_leb. intros H.
  apply orb_false_iff in H. destruct H as [H1 H2].
  apply Z.ltb_ge in H1.
  destruct (fst a =? fst b) eqn:E.
  - apply Z.eqb_eq in E. simpl in H2. apply str_list_leb_total in H2.
    rewrite H2, E, Z.eqb_refl. apply orb_true_r.
  - apply Z.eqb_neq in E. apply orb_true_iff. left. apply Z.ltb_lt. lia.
Qed.

(** The items of a dictionary come out of [sorted] by strictly rising
    line number. *)
Lemma sorted_items_rising (d : file_errors) :
  NoDup (keys d) ->
  StronglySorted (fun a b => fst a < fst b) (sorted item_leb d).
Proof.
  intros Hnd.
  assert (Hperm : Permutation (sorted item_leb d) d) by apply sorted_perm.
  assert (Hnd' : NoDup (map fst (sorted item_leb d))).
  { eapply Permutation_NoDup; [|exact Hnd].
    apply Permutation_map, Permutation_sym, Hperm. }
  assert (Hs : StronglySorted (fun a b : Z * list string => fst a <= fst b)
                 (sorted item_leb d)).
  { apply Sorted_StronglySorted; [intros x y z; lia|].
    eapply Sorted_weaken; [|apply sorted_Sorted, item_leb_total].
    intros x y. unfold item_leb. intros H.
    apply orb_true_iff in H. destruct H as [H|H].
    - apply Z.ltb_lt in H. lia.
    - apply andb_true_iff in H. destruct H as [H _].
      apply Z.eqb_eq in H. lia. }
  clear Hperm Hnd. induction Hs as [|a l Hs IH Hall]; [constructor|].
  simpl in Hnd'. inversion Hnd' as [|? ? Hnotin Hnd'']; subst.
  constructor; [apply IH, Hnd''|].
  apply Forall_forall. intros b Hb.
  assert (fst a <= fst b) by (eapply Forall_forall in Hall; eauto).
  assert (fst a <> fst b).
  { intros Heq. apply Hnotin. rewrite Heq. apply in_map, Hb. }
  lia.
Qed.

Lemma str_ltb_of_leb (a b : string) :
  (a <=? b)%string = true -> a <> b -> (a <? b)%string = true.
Proof.
  rewrite str_leb_iff. unfold String.ltb. intros [->|H] Hne; [reflexivity|].
  contradiction.
Qed.

Lemma StronglySorted_NoDup {A B : Type} (f : A -> B) (R : A -> A -> Prop)
    (l : list A) :
  StronglySorted R l -> NoDup (map f l) ->
  StronglySorted (fun x y => R x y /\ f x <> f y) l.
Proof.
  induction 1 as [|x l Hs IH Hall]; simpl; intros Hnd; [constructor|].
  inversion Hnd as [|? ? Hnotin Hnd']; subst.
  constructor; [apply IH, Hnd'|].
  apply Forall_forall. intros y Hy. split.
  - eapply Forall_forall in Hall; eauto.
  - intros Heq. apply Hnotin. rewrite Heq. apply in_map, Hy.
Qed.

(** A dictionary whose lines hold messages of different codes is
    reported in the order [printed_before]. *)
Lemma report_sorted (d : file_errors) :
  NoDup (keys d) ->
  (forall ln error_list, In (ln, error_list) d ->
                         NoDup (map code_of error_list)) ->
  StronglySorted printed_before (report d).
Proof.
  intros Hnd Hcodes. unfold report.
  pose proof (sorted_items_rising d Hnd) as Hs.
  assert (Hin : forall item, In item (sorted item_leb d) ->
                             NoDup (map code_of (snd item))).
  { intros [ln l] Hitem. apply (Hcodes ln).
    eapply Permutation_in; [apply sorted_perm | exact Hitem]. }
  induction Hs as [|item l Hs IH Hall]; simpl; [constructor|].
  apply StronglySorted_app.
  - apply StronglySorted_map
      with (R := fun x y => (x <=? y)%string = true
                            /\ code_of x <> code_of y).
    + intros x y [Hxy Hne]. right. simpl. repeat split; [exact Hxy|].
      apply str_ltb_of_leb; [apply str_leb_prefix, Hxy | exact Hne].
    + apply StronglySorted_NoDup.
      * apply Sorted_StronglySorted.
        -- intros x y z. apply str_leb_trans.
        -- apply sorted_Sorted. apply str_leb_false.
      * eapply Permutation_NoDup;
          [apply Permutation_map, Permutation_sym, sorted_perm|].
        apply Hin. left. reflexivity.
  - apply IH. intros item' Hitem. apply Hin. right. exact Hitem.
  - intros x y Hx Hy. left.
    apply in_map_iff in Hx. destruct Hx as [m [<- _]]. simpl.
    apply in_flat_map in Hy. destruct Hy as [item' [Hitem Hy]].
    apply in_map_iff in Hy. destruct Hy as [m' [<- _]]. simpl.
    eapply Forall_forall in Hall; eauto.
Qed.

(** ** The matcher *)

(** The continuation of a repetition is only called inside the text. *)
Lemma star_inv (p : ascii -> bool) (R : Type) (P : R -> Prop) (s : string) :
  forall (i : nat) (k : nat -> string -> option R) (x : R),
  (forall j t y,
      (i <= j)%nat ->
      (j + String.length t = i + String.length s)%nat ->
      k j t = Some y -> P y) ->
  star p R i s k = Some x -> P x.
Proof.
  induction s as [|c s IH]; simpl; intros i k x Hk H.
  - refine (Hk _ _ _ _ _ H); simpl; lia.
  - destruct (p c).
    + destruct (star p R (S i) s k) as [y|] eqn:E.
      * inversion H; subst y. eapply IH; [|exact E].
        intros j t y Hle Hlen. apply Hk; simpl; lia.
      * refine (Hk _ _ _ _ _ H); simpl; lia.
    + refine (Hk _ _ _ _ _ H); simpl; lia.
Qed.

Lemma run_inv (r : regex) :
  forall (R : Type) (P : R -> Prop) (i : nat) (s : string)
         (k : nat -> string -> option R) (x : R),
  (forall j t y,
      (i <= j)%nat ->
      (j + String.length t = i + String.length s)%nat ->
      k j t = Some y -> P y) ->
  run r R i s k = Some x -> P x.
Proof.
  induction r as [| c | p | p | r1 IH1 r2 IH2 | r1 IH1 r2 IH2 | | | r IH];
    simpl; intros R P i s k x Hk H.
  - refine (Hk _ _ _ _ _ H); simpl; lia.
  - destruct s as [|y s]; [discriminate|].
    destruct (y =? c)%char; [|discriminate].
    refine (Hk _ _ _ _ _ H); simpl; lia.
  - destruct s as [|y s]; [discriminate|].
    destruct (p y); [|discriminate].
    refine (Hk _ _ _ _ _ H); simpl; lia.
  - eapply star_inv; eauto.
  - eapply IH1; [|exact H]. simpl.
    intros j t y Hle Hlen Hr2. eapply IH2; [|exact Hr2].
    intros j' t' y' Hle' Hlen'. apply Hk; lia.
  - destruct (run r1 R i s k) as [y|] eqn:E.
    + inversion H; subst y. eapply IH1; eauto.
    + eapply IH2; eauto.
  - destruct (i =? 0)%nat; [|discriminate].
    refine (Hk _ _ _ _ _ H); simpl; lia.
  - destruct s as [|y [|z s]]; try discriminate.
    + refine (Hk _ _ _ _ _ H); simpl; lia.
    + destruct (y =? newline)%char; [|discriminate].
      refine (Hk _ _ _ _ _ H); simpl; lia.
  - destruct (run r unit i s (fun _ _ => Some tt)); [discriminate|].
    refine (Hk _ _ _ _ _ H); simpl; lia.
Qed.

(** A match lies inside the text. *)
Lemma match_at_bounds (r : regex) (i : nat) (s : string) (b : bool) (e : nat) :
  match_at r i s b = Some e -> (i <= e <= i + String.length s)%nat.
Proof.
  unfold match_at.
  apply run_inv with (P := fun e => (i <= e <= i + String.length s)%nat).
  intros j t y Hle Hlen. destruct (b && (j =? i)%nat); [discriminate|].
  intros [= <-]. lia.
Qed.

(** A repetition whose continuation never fails does not fail. *)
Lemma star_total (p : ascii -> bool) (R : Type) (s : string) :
  forall (i : nat) (k : nat -> string -> option R),
  (forall j t, k j t <> None) -> star p R i s k <> None.
Proof.
  induction s as [|c s IH]; simpl; intros i k Hk; [apply Hk|].
  destruct (p c); [|apply Hk].
  destruct (star p R (S i) s k) eqn:E; [discriminate|].
  exfalso. eapply IH; eauto.
Qed.

(** [findall] never returns an empty list for a pattern that matches the
    empty string at the end of the text. *)
Lemma spans_from_nonempty (r : regex) :
  (forall i, match_at r i EmptyString false = Some i) ->
  forall (s : string) (i resume : nat),
  (resume <= i + String.length s)%nat -> spans_from r i resume s <> [].
Proof.
  intros Hend. induction s as [|c s IH]; intros i resume Hres.
  - simpl in *. replace (i <? resume)%nat with false
      by (symmetry; apply Nat.ltb_ge; lia).
    rewrite Hend, Nat.eqb_refl. discriminate.
  - simpl. destruct (i <? resume)%nat.
    + apply IH. simpl in Hres. lia.
    + destruct (match_at r i (String c s) false) as [e|] eqn:E.
      * destruct (e =? i)%nat; discriminate.
      * apply IH. simpl in Hres. lia.
Qed.

Lemma word_not_at_space_end (i : nat) :
  match_at word_not_at_space i EmptyString false = Some i.
Proof. reflexivity. Qed.

Lemma findall_word_nonempty (line : string) :
  findall word_not_at_space line <> [].
Proof.
  unfold findall, spans. intros H. apply map_eq_nil in H. revert H.
  apply spans_from_nonempty; [apply word_not_at_space_end | lia].
Qed.

(** A line that starts with a word character other than the space yields
    at least two items. *)
Lemma findall_word_two (c : ascii) (rest : string) :
  is_word c = true ->
  exists w1 w2 more,
    findall word_not_at_space (String c rest) = w1 :: w2 :: more.
Proof.
  intros Hw.
  assert (Hsp : (c =? " ")%char = false).
  { destruct (Ascii.eqb_spec c " "%char) as [->|]; [discriminate|reflexivity]. }
  unfold findall, spans. cbn [spans_from Nat.ltb Nat.leb].
  destruct (match_at word_not_at_space 0 (String c rest) false) as [e|] eqn:E.
  - assert (He : (1 <= e <= 1 + String.length rest)%nat).
    { revert E. unfold match_at, word_not_at_space. cbn [run].
      rewrite Hsp. cbn [star]. rewrite Hw.
      destruct (star is_word nat 1 rest _) as [y|] eqn:Es.
      - intros [= <-]. revert Es.
        apply star_inv
          with (P := fun y => (1 <= y <= 1 + String.length rest)%nat).
        intros j t y' Hle Hlen [= <-]. lia.
      - exfalso. revert Es. apply star_total. discriminate. }
    replace (e =? 0)%nat with false by (symmetry; apply Nat.eqb_neq; lia).
    destruct (spans_from word_not_at_space 1 e rest) as [|sp more] eqn:Es.
    + exfalso. revert Es.
      apply spans_from_nonempty; [apply word_not_at_space_end | lia].
    + simpl. eauto.
  - exfalso. revert E. unfold match_at, word_not_at_space. cbn [run].
    rewrite Hsp. cbn [star]. rewrite Hw.
    destruct (star is_word nat 1 rest _) eqn:Es; [discriminate|].
    exfalso. revert Es. apply star_total. discriminate.
Qed.

Lemma star_space_eol (s : string) (i : nat) :
  matched (star is_space nat i s
             (fun j t => run Eol nat j t (fun j' _ => Some j')))
  = whitespace_only s.
Proof.
  revert i. induction s as [|c s IH]; intros i; [reflexivity|].
  cbn [star whitespace_only].
  destruct (is_space c) eqn:Ec; simpl andb.
  - specialize (IH (S i)).
    destruct (star is_space nat (S i) s _) as [y|]; simpl in IH;
      [rewrite <- IH; reflexivity|].
    rewrite <- IH. destruct s as [|z s]; [discriminate IH|]. reflexivity.
  - destruct s as [|z s]; [|reflexivity]. simpl.
    destruct (Ascii.eqb_spec c newline) as [->|]; [discriminate|reflexivity].
Qed.

Lemma is_blank_whitespace_only (line : string) :
  is_blank line = whitespace_only line.
Proof. apply star_space_eol. Qed.

(** ** The line rules return *)

Lemma index_raises {A : Type} (l : list A) (i : nat) (e : exn) :
  index l i = Raise e -> e = IndexError.
Proof.
  unfold index. destruct (nth_error l i); [discriminate | congruence].
Qed.

(** No line rule raises: each returns a tuple or [None]. *)
Lemma line_rules_return (check : line_rule) (ln : Z) (line : string) :
  In check line_rules -> exists r, check ln line = Ok r.
Proof.
  unfold line_rules. simpl.
  intros [<-|[<-|[<-|[<-|[<-|[<-|[<-|[]]]]]]]].
  - unfold line_length_check. destruct (len line >? 79); eauto.
  - unfold indentation_check. destruct (_ && _); eauto.
  - unfold semicolon_check. destruct (found _); eauto.
  - unfold comment_space_check.
    destruct (index (findall code_then_hash line) 0) as [c|e] eqn:E.
    + destruct (_ <? 2); eauto.
    + apply index_raises in E. subst e. eauto.
  - unfold todo_check. destruct (found _); eauto.
  - unfold construction_space_check.
    destruct (matched (re_match construction_start line)); eauto.
    pose proof (findall_word_nonempty line) as Hne.
    destruct (findall word_not_at_space line) as [|w ws]; [congruence|].
    simpl. destruct (negb _); eauto.
  - unfold class_case_check.
    destruct (matched (re_match class_start line)) eqn:Em; eauto.
    assert (Hc : exists rest, line = String "c" rest).
    { revert Em. unfold re_match, match_at, class_start. cbn [run Str Nat.eqb].
      destruct line as [|x rest]; [discriminate|].
      destruct (Ascii.eqb_spec x "c"%char) as [->|]; [eauto|discriminate]. }
    destruct Hc as [rest ->].
    destruct (findall_word_two "c" rest eq_refl) as [w1 [w2 [more Hf]]].
    rewrite Hf. simpl. destruct (negb _); eauto.
Qed.

(** ** The lines of a file are gathered without error *)

Lemma dict_set_twice {V : Type} (k : Z) (v v' : V) (d : dict V) :
  dict_set k v (dict_set k v' d) = dict_set k v d.
Proof.
  induction d as [|[k0 v0] d IH]; simpl.
  - rewrite Z.eqb_refl. reflexivity.
  - destruct (k =? k0) eqn:E; simpl.
    + rewrite Z.eqb_refl. reflexivity.
    + rewrite E, IH. reflexivity.
Qed.

(** The block that files a message never raises: it appends the message
    to the list of its line. *)
Lemma add_error_ok (ln : Z) (msg : string) (errors_in_file : file_errors) :
  add_error ln msg errors_in_file
  = Ok (dict_set ln (errors_at ln errors_in_file ++ [msg])%list errors_in_file).
Proof.
  unfold add_error, errors_at.
  destruct (dict_get ln errors_in_file) as [l|] eqn:E.
  - rewrite E. reflexivity.
  - rewrite dict_get_set, Z.eqb_refl, dict_set_twice. reflexivity.
Qed.

Lemma add_error_keys (ln : Z) (msg : string) (d d' : file_errors) :
  add_error ln msg d = Ok d' -> NoDup (keys d) -> NoDup (keys d').
Proof.
  rewrite add_error_ok. intros [= <-]. apply NoDup_keys_dict_set.
Qed.

Lemma add_errors_ok (items : dict string) (d : file_errors) :
  exists d', add_errors items d = Ok d' /\ (NoDup (keys d) -> NoDup (keys d')).
Proof.
  revert d. induction items as [|[ln msg] items IH]; intros d; simpl.
  - eauto.
  - rewrite add_error_ok. simpl.
    destruct (IH (dict_set ln (errors_at ln d ++ [msg])%list d))
      as [d' [H1 H2]].
    exists d'. split; [exact H1|].
    intros Hnd. apply H2, NoDup_keys_dict_set, Hnd.
Qed.

Lemma apply_rule_ok (check : line_rule) (n : Z) (line : string)
    (d : file_errors) :
  In check line_rules ->
  exists d', apply_rule check n line d = Ok d'
             /\ (NoDup (keys d) -> NoDup (keys d')).
Proof.
  intros Hin. unfold apply_rule.
  destruct (line_rules_return check (n + 1) line Hin) as [r ->]. simpl.
  destruct r as [[ln msg]|]; [|eauto].
  rewrite add_error_ok. eexists. split; [reflexivity|].
  apply NoDup_keys_dict_set.
Qed.

Lemma apply_rules_ok (checks : list line_rule) (n : Z) (line : string) :
  incl checks line_rules ->
  forall d, exists d', apply_rules checks n line d = Ok d'
                       /\ (NoDup (keys d) -> NoDup (keys d')).
Proof.
  induction checks as [|check checks IH]; intros Hincl d; simpl.
  - eauto.
  - destruct (apply_rule_ok check n line d) as [d1 [H1 Hk1]].
    { apply Hincl. left. reflexivity. }
    rewrite H1. simpl.
    destruct (IH (fun c Hc => Hincl c (or_intror Hc)) d1) as [d2 [H2 Hk2]].
    exists d2. split; [exact H2 | auto].
Qed.

Lemma check_lines_ok (lines : list string) :
  forall n d, exists d', check_lines lines n d = Ok d'
                         /\ (NoDup (keys d) -> NoDup (keys d')).
Proof.
  induction lines as [|line lines IH]; intros n d; cbn [check_lines].
  - eauto.
  - destruct (apply_rules_ok line_rules n line (incl_refl _) d)
      as [d1 [H1 Hk1]].
    rewrite H1. cbn [bind].
    destruct (IH (n + 1) d1) as [d2 [H2 Hk2]].
    exists d2. split; [exact H2 | auto].
Qed.

(** A file's errors hold each line number once. *)
Lemma check_file_keys (parse : string -> result node) (file : string)
    (d : file_errors) :
  check_file parse file = Ok d -> NoDup (keys d).
Proof.
  unfold check_file. cbn [readlines read bind].
  destruct (check_lines_ok (iter_lines file) 0 []) as [d1 [-> Hk1]]. simpl.
  destruct (add_errors_ok (blank_line_check (iter_lines file)) d1)
    as [d2 [-> Hk2]]. simpl.
  destruct (parse file) as [tree|e]; [simpl|discriminate].
  destruct (ast_checks tree) as [ast_errors|e]; [simpl|discriminate].
  destruct (add_errors_ok ast_errors d2) as [d3 [-> Hk3]].
  intros [= <-]. apply Hk3, Hk2, Hk1. constructor.
Qed.

(** ** The blank-line pass *)

Lemma blank_line_loop_flags (lines : list string) :
  forall n nb d,
  blank_line_loop lines n nb d = flag_all (blank_flags lines n nb) d.
Proof.
  induction lines as [|line rest IH]; intros n nb d; simpl; [reflexivity|].
  destruct (nb <=? 2); destruct (is_blank line); simpl; apply IH.
Qed.

Lemma flag_all_keys (flags : list Z) (d : dict string) :
  NoDup (keys d) -> NoDup (keys (flag_all flags d)).
Proof.
  revert d. induction flags as [|k flags IH]; intros d Hnd; simpl; auto.
  apply IH, NoDup_keys_dict_set, Hnd.
Qed.

Lemma flag_all_get (flags : list Z) (n : Z) :
  forall d,
  dict_get n (flag_all flags d) =
  if existsb (Z.eqb n) flags then Some S006_message else dict_get n d.
Proof.
  induction flags as [|k flags IH]; intros d; simpl; [reflexivity|].
  rewrite IH, dict_get_set.
  destruct (n =? k); simpl; destruct (existsb (Z.eqb n) flags); reflexivity.
Qed.

Lemma blank_run_before_end (pre rest : list string) :
  blank_run_before (pre ++ rest) (List.length pre) = leading_blanks (rev pre).
Proof.
  unfold blank_run_before.
  rewrite firstn_app, Nat.sub_diag, firstn_all. simpl.
  rewrite app_nil_r. reflexivity.
Qed.

Lemma blank_flags_spec (rest : list string) :
  forall (pre : list string) (k : Z),
  In k (blank_flags rest (Z.of_nat (List.length pre))
          (Z.of_nat (Nat.min 3 (leading_blanks (rev pre))))) <->
  exists i, k = Z.of_nat i + 1 /\ (List.length pre <= i)%nat
            /\ after_long_run (pre ++ rest) i.
Proof.
  induction rest as [|line rest IH]; intros pre k.
  - simpl. split; [tauto|].
    intros [i [_ [Hle [l [Hnth _]]]]].
    rewrite app_nil_r in Hnth.
    assert (i < List.length pre)%nat by (apply nth_error_Some; congruence).
    lia.
  - assert (Hstep : forall nb',
        nb' = Z.of_nat (Nat.min 3 (leading_blanks (rev (pre ++ [line])))) ->
        In k (blank_flags rest (Z.of_nat (List.length pre) + 1) nb') <->
        exists i, k = Z.of_nat i + 1 /\ (S (List.length pre) <= i)%nat
                  /\ after_long_run (pre ++ line :: rest) i).
    { intros nb' ->.
      specialize (IH (pre ++ [line])%list k).
      rewrite length_app, <- app_assoc in IH. simpl in IH.
      replace (Z.of_nat (List.length pre + 1)) with (Z.of_nat (List.length pre) + 1)
        in IH by lia.
      rewrite IH. split; intros [i [H1 [H2 H3]]]; exists i;
        (split; [exact H1 | split; [lia | exact H3]]). }
    assert (Hhere : after_long_run (pre ++ line :: rest) (List.length pre) <->
        whitespace_only line = false
        /\ (2 < leading_blanks (rev pre))%nat).
    { unfold after_long_run. rewrite blank_run_before_end.
      rewrite nth_error_app2, Nat.sub_diag by lia. simpl.
      split.
      - intros [l [[= <-] H]]. exact H.
      - intros H. exists line. split; [reflexivity | exact H]. }
    assert (Hsplit : forall P : nat -> Prop,
        (exists i, k = Z.of_nat i + 1 /\ (List.length pre <= i)%nat /\ P i) <->
        (k = Z.of_nat (List.length pre) + 1 /\ P (List.length pre)) \/
        (exists i, k = Z.of_nat i + 1 /\ (S (List.length pre) <= i)%nat /\ P i)).
    { intros P. split.
      - intros [i [H1 [H2 H3]]].
        destruct (Nat.eq_dec i (List.length pre)) as [->|Hne].
        + left. auto.
        + right. exists i. repeat split; auto. lia.
      - intros [[H1 H2]|[i [H1 [H2 H3]]]].
        + exists (List.length pre). auto.
        + exists i. repeat split; auto. lia. }
    rewrite Hsplit, Hhere. clear Hsplit Hhere IH.
    assert (Hrev : leading_blanks (rev (pre ++ [line])) =
                   if whitespace_only line
                   then S (leading_blanks (rev pre)) else 0%nat).
    { rewrite rev_app_distr. reflexivity. }
    cbn [blank_flags]. rewrite is_blank_whitespace_only.
    set (tb := leading_blanks (rev pre)) in *.
    destruct (Z.leb_spec (Z.of_nat (Nat.min 3 tb)) 2) as [Hnb|Hnb];
      destruct (whitespace_only line) eqn:Ews; cbn [negb].
    + rewrite Hstep by (rewrite Hrev; lia).
      split; [auto | intros [[_ [H _]]|H]; [discriminate | exact H]].
    + rewrite Hstep by (rewrite Hrev; lia).
      split; [auto | intros [[_ [_ H]]|H]; [lia | exact H]].
    + rewrite Hstep by (rewrite Hrev; lia).
      split; [auto | intros [[_ [H _]]|H]; [discriminate | exact H]].
    + simpl In. rewrite Hstep by (rewrite Hrev; lia).
      split.
      * intros [H|H]; [left | right; exact H].
        repeat split; [lia | lia].
      * intros [[H _]|H]; [left; lia | right; exact H].
Qed.

(** C4: starting from counter 0, the blank-line pass files S006 exactly
    once for each maximal run of more than two whitespace-only lines that
    a non-blank line follows, at that line, and nowhere else: its result
    holds each line number once, and it holds line [n] if and only if line
    [n] is not blank and comes right after a maximal run of more than two
    whitespace-only lines.  Runs of length 0, 1 or 2, and runs that no
    non-blank line follows, give nothing. *)
Theorem C4_blank_line_check (file : list string) :
  NoDup (keys (blank_line_check file)) /\
  forall (n : Z) (msg : string),
    dict_get n (blank_line_check file) = Some msg <->
    msg = S006_message /\
    exists i, n = Z.of_nat i + 1 /\ after_long_run file i.
Proof.
  unfold blank_line_check. rewrite blank_line_loop_flags. split.
  - apply flag_all_keys. constructor.
  - intros n msg. rewrite flag_all_get.
    pose proof (blank_flags_spec file [] n) as Hspec. simpl in Hspec.
    destruct (existsb (Z.eqb n) (blank_flags file 0 0)) eqn:E.
    + assert (Hin : In n (blank_flags file 0 0)).
      { apply existsb_exists in E. destruct E as [k [Hk Heq]].
        apply Z.eqb_eq in Heq. subst k. exact Hk. }
      apply Hspec in Hin. destruct Hin as [i [H1 [_ H3]]].
      split.
      * intros [= <-]. split; [reflexivity | eauto].
      * intros [-> _]. reflexivity.
    + split; [discriminate|].
      intros [_ [i [H1 H3]]]. exfalso.
      assert (Hin : In n (blank_flags file 0 0)).
      { apply Hspec. exists i. repeat split; auto. lia. }
      assert (existsb (Z.eqb n) (blank_flags file 0 0) = true);
        [|congruence].
      apply existsb_exists. exists n. split; [exact Hin | apply Z.eqb_refl].
Qed.

Example blank_line_check_runs :
  blank_line_check runs_example =
  [(10, S006_message); (15, S006_message); (21, S006_message)].
Proof. reflexivity. Qed.

(** ** The walk *)

Lemma sum_sizes_app {A : Type} (f : A -> nat) (l1 l2 : list A) :
  sum_sizes f (l1 ++ l2) = (sum_sizes f l1 + sum_sizes f l2)%nat.
Proof. unfold sum_sizes. rewrite map_app, list_sum_app. reflexivity. Qed.

Lemma sum_sizes_map {A B : Type} (g : A -> B) (f : B -> nat) (l : list A) :
  sum_sizes f (map g l) = sum_sizes (fun a => f (g a)) l.
Proof. unfold sum_sizes. rewrite map_map. reflexivity. Qed.

Lemma sum_sizes_opt_list {A : Type} (f : A -> nat) (o : option A) :
  sum_sizes f (opt_list o) = opt_size f o.
Proof. destruct o; simpl; unfold sum_sizes; simpl; lia. Qed.

Lemma sum_sizes_present {A : Type} (f : A -> nat) (l : list (option A)) :
  sum_sizes f (present l) = sum_sizes (opt_size f) l.
Proof.
  induction l as [|o l IH]; [reflexivity|].
  unfold present in *. simpl. rewrite sum_sizes_app, IH, sum_sizes_opt_list.
  reflexivity.
Qed.

Lemma sum_sizes_nodes (l : list node) :
  sum_sizes obj_size (map ONode l) = sum_sizes node_size l.
Proof. rewrite sum_sizes_map. reflexivity. Qed.

Lemma sum_sizes_args (l : list arg) :
  sum_sizes obj_size (map OArg l) = sum_sizes arg_size l.
Proof. rewrite sum_sizes_map. reflexivity. Qed.

Lemma sum_sizes_cons {A : Type} (f : A -> nat) (x : A) (l : list A) :
  sum_sizes f (x :: l) = (f x + sum_sizes f l)%nat.
Proof. reflexivity. Qed.

Lemma sum_sizes_nil {A : Type} (f : A -> nat) : sum_sizes f [] = 0%nat.
Proof. reflexivity. Qed.

Ltac count_children :=
  repeat
    (rewrite ?sum_sizes_cons, ?sum_sizes_app, ?sum_sizes_nodes,
       ?sum_sizes_args, ?sum_sizes_opt_list, ?sum_sizes_present,
       ?sum_sizes_nil;
     cbn [obj_size]).

(** An object counts for one more than its children together. *)
Lemma children_size (o : ast_obj) :
  S (sum_sizes obj_size (iter_child_nodes o)) = obj_size o.
Proof.
  destruct o as [n|a|a].
  - destruct n; cbn [iter_child_nodes obj_size node_size];
      count_children; lia.
  - destruct a; cbn [iter_child_nodes obj_size arguments_size].
    count_children. lia.
  - destruct a; cbn [iter_child_nodes obj_size arg_size].
    count_children. lia.
Qed.

Lemma obj_size_pos (o : ast_obj) : (1 <= obj_size o)%nat.
Proof. rewrite <- children_size. lia. Qed.

(** With fuel for every object still to come, the loop yields the queue
    and all that hangs below it. *)
Lemma walk_loop_closed (fuel : nat) :
  forall todo,
  (sum_sizes obj_size todo <= fuel)%nat ->
  (forall o, In o todo -> In o (walk_loop fuel todo)) /\
  (forall o c, In o (walk_loop fuel todo) -> In c (iter_child_nodes o) ->
               In c (walk_loop fuel todo)).
Proof.
  induction fuel as [|fuel IH]; intros todo Hsize.
  - destruct todo as [|o rest].
    + simpl. tauto.
    + exfalso. pose proof (obj_size_pos o). unfold sum_sizes in Hsize.
      simpl in Hsize. lia.
  - destruct todo as [|o rest]; [simpl; tauto|].
    cbn [walk_loop].
    destruct (IH (rest ++ iter_child_nodes o)%list) as [IH1 IH2].
    { rewrite sum_sizes_app. pose proof (children_size o).
      unfold sum_sizes in *. simpl in Hsize. lia. }
    split.
    + intros x [<-|Hx]; [left; reflexivity|].
      right. apply IH1, in_or_app. left. exact Hx.
    + intros x c [<-|Hx] Hc.
      * right. apply IH1, in_or_app. right. exact Hc.
      * right. eapply IH2; eauto.
Qed.

Lemma walk_loop_within (root : ast_obj) (fuel : nat) :
  forall todo,
  (forall o, In o todo -> within root o) ->
  forall o, In o (walk_loop fuel todo) -> within root o.
Proof.
  induction fuel as [|fuel IH]; intros todo Htodo x Hx.
  - destruct todo; destruct Hx.
  - destruct todo as [|o rest]; [destruct Hx|].
    cbn [walk_loop] in Hx. destruct Hx as [<-|Hx].
    + apply Htodo. left. reflexivity.
    + eapply IH; [|exact Hx].
      intros y Hy. apply in_app_or in Hy. destruct Hy as [Hy|Hy].
      * apply Htodo. right. exact Hy.
      * eapply within_child; [apply Htodo; left; reflexivity | exact Hy].
Qed.

(** [ast.walk] yields the objects of the tree, all of them. *)
Lemma walk_spec (tree : node) (o : ast_obj) :
  In o (walk tree) <-> within (ONode tree) o.
Proof.
  unfold walk.
  destruct (walk_loop_closed (node_size tree) [ONode tree]) as [H1 H2].
  { unfold sum_sizes. simpl. lia. }
  split.
  - apply walk_loop_within. intros x [<-|[]]. constructor.
  - induction 1 as [|o c Hw IH Hc].
    + apply H1. left. reflexivity.
    + eapply H2; eauto.
Qed.

(** ** The assignments of the syntax-tree pass *)

Section Writes.

Context {S : Type} (assign : Z -> string -> S -> S).

Lemma apply_writes_app (ws1 ws2 : list diagnostic) (st : S) :
  apply_writes assign (ws1 ++ ws2) st
  = apply_writes assign ws2 (apply_writes assign ws1 st).
Proof.
  revert st. induction ws1 as [|[ln msg] ws1 IH]; intros st; simpl; auto.
Qed.

Lemma scan_args_writes (args : list arg) (st : S) :
  scan_args assign args st = apply_writes assign (args_writes args) st.
Proof.
  revert st. induction args as [|[name ann ln] args IH]; intros st;
    [reflexivity|].
  cbn [scan_args args_writes flat_map]. rewrite apply_writes_app, IH.
  unfold argument_case_check, argument_writes.
  destruct (negb _); reflexivity.
Qed.

Lemma scan_defaults_writes (defaults : list node) (st : S) :
  scan_defaults assign defaults st
  = apply_writes assign (defaults_writes defaults) st.
Proof.
  induction defaults as [|d defaults IH]; [reflexivity|].
  cbn [scan_defaults defaults_writes]. unfold defval_multability_check.
  destruct (mutable_literal d); [reflexivity | exact IH].
Qed.

(** Visiting an object makes the assignments of [node_writes], in order,
    and does nothing else to the store. *)
Lemma visit_writes (o : ast_obj) (st : S) :
  visit assign o st
  = (ws <- node_writes o ;; Ok (apply_writes assign ws st)).
Proof.
  destruct o as [n|[posonly args vararg kwonly kwd kwarg defaults]|a];
    [destruct n| |]; try reflexivity.
  - simpl. unfold function_case_check, function_writes.
    destruct (negb _); reflexivity.
  - simpl. unfold variable_case_check.
    destruct targets as [|t rest]; [reflexivity|].
    destruct t; try reflexivity.
    simpl. destruct (negb _); reflexivity.
  - simpl. rewrite apply_writes_app, scan_defaults_writes, scan_args_writes.
    reflexivity.
Qed.

Lemma visit_all_writes (objs : list ast_obj) (st : S) :
  visit_all assign objs st
  = (ws <- all_writes objs ;; Ok (apply_writes assign ws st)).
Proof.
  revert st. induction objs as [|o objs IH]; intros st; [reflexivity|].
  cbn [visit_all all_writes]. rewrite visit_writes.
  destruct (node_writes o) as [ws|e]; [|reflexivity].
  cbn [bind]. rewrite IH.
  destruct (all_writes objs) as [ws'|e]; [|reflexivity].
  cbn [bind]. rewrite apply_writes_app. reflexivity.
Qed.

End Writes.

Lemma apply_record_write (ws log : list diagnostic) :
  apply_writes record_write ws log = (log ++ ws)%list.
Proof.
  revert log. induction ws as [|[ln msg] ws IH]; intros log; simpl.
  - rewrite app_nil_r. reflexivity.
  - rewrite IH. unfold record_write. rewrite <- app_assoc. reflexivity.
Qed.

Lemma ast_writes_all (tree : node) :
  ast_writes tree = all_writes (walk tree).
Proof.
  unfold ast_writes, tree_pass. rewrite visit_all_writes.
  destruct (all_writes (walk tree)); [|reflexivity].
  simpl. rewrite apply_record_write. reflexivity.
Qed.

(** [ast_checks] returns the dictionary its assignments build. *)
Lemma ast_checks_writes (tree : node) :
  ast_checks tree
  = (ws <- ast_writes tree ;; Ok (apply_writes dict_set ws [])).
Proof.
  rewrite ast_writes_all. unfold ast_checks, tree_pass.
  apply visit_all_writes.
Qed.

Lemma apply_dict_set_get (ws : list diagnostic) (ln : Z) :
  forall d,
  dict_get ln (apply_writes dict_set ws d) =
  match last_write ln ws with
  | Some msg => Some msg
  | None => dict_get ln d
  end.
Proof.
  induction ws as [|[k msg] ws IH]; intros d; [reflexivity|].
  cbn [apply_writes last_write]. rewrite IH, dict_get_set.
  destruct (last_write ln ws); [reflexivity|].
  destruct (ln =? k); reflexivity.
Qed.

Lemma apply_dict_set_keys (ws : list diagnostic) :
  forall d, NoDup (keys d) -> NoDup (keys (apply_writes dict_set ws d)).
Proof.
  induction ws as [|[k msg] ws IH]; intros d Hnd; simpl; auto.
  apply IH, NoDup_keys_dict_set, Hnd.
Qed.


(** ** What reaches the aggregator *)

Lemma errors_at_set (ln k : Z) (l : list string) (d : file_errors) :
  errors_at ln (dict_set k l d) = if ln =? k then l else errors_at ln d.
Proof.
  unfold errors_at. rewrite dict_get_set. destruct (ln =? k); reflexivity.
Qed.

(** Filing the items of a dictionary appends to the list of each line
    the one message the dictionary holds for it. *)
Lemma add_errors_at (items : dict string) :
  NoDup (keys items) ->
  forall errors, exists errors',
    add_errors items errors = Ok errors' /\
    forall ln, errors_at ln errors'
               = (errors_at ln errors ++ opt_list (dict_get ln items))%list.
Proof.
  induction items as [|[k m] items IH]; intros Hnd errors.
  - exists errors. split; [reflexivity|]. intros ln. simpl.
    rewrite app_nil_r. reflexivity.
  - simpl in Hnd. inversion Hnd as [|? ? Hnotin Hnd']; subst.
    cbn [add_errors]. rewrite add_error_ok. cbn [bind].
    destruct (IH Hnd' (dict_set k (errors_at k errors ++ [m])%list errors))
      as [errors' [H1 H2]].
    exists errors'. split; [exact H1|]. intros ln.
    rewrite H2, errors_at_set. cbn [dict_get].
    destruct (ln =? k) eqn:E.
    + apply Z.eqb_eq in E. subst k.
      destruct (dict_get ln items) eqn:Eg.
      * exfalso. apply Hnotin. apply dict_get_in_keys. congruence.
      * simpl. rewrite app_nil_r. reflexivity.
    + reflexivity.
Qed.

(** C10: the syntax-tree pass keeps at most one diagnostic for a line: its
    result holds each line number once, with the last message the checks
    filed for that line, earlier ones being replaced; and when the result
    is merged into the errors of the file, each line receives that one
    message only. *)
Theorem C10_one_diagnostic_per_line (tree : node) (d : dict string) :
  ast_checks tree = Ok d ->
  NoDup (keys d)
  /\ exists ws,
       ast_writes tree = Ok ws
       /\ (forall ln, dict_get ln d = last_write ln ws)
       /\ (forall errors, exists errors',
             add_errors d errors = Ok errors' /\
             forall ln, errors_at ln errors'
                        = (errors_at ln errors
                           ++ opt_list (last_write ln ws))%list).
Proof.
  rewrite ast_checks_writes. intros H.
  apply bind_ok in H. destruct H as [ws [Hws Hd]].
  inversion Hd; subst d. clear Hd.
  assert (Hnd : NoDup (keys (apply_writes dict_set ws []))).
  { apply apply_dict_set_keys. constructor. }
  assert (Hget : forall ln,
             dict_get ln (apply_writes dict_set ws []) = last_write ln ws).
  { intros ln. rewrite apply_dict_set_get.
    destruct (last_write ln ws); reflexivity. }
  split; [exact Hnd|].
  exists ws. split; [exact Hws|]. split; [exact Hget|].
  intros errors.
  destruct (add_errors_at _ Hnd errors) as [errors' [H1 H2]].
  exists errors'. split; [exact H1|].
  intros ln. rewrite H2, Hget. reflexivity.
Qed.

Lemma C10_one_diagnostic_per_line_witness :
  ast_checks my_func_tree = Ok [(1, S012_message)]
  /\ NoDup (keys [(1, S012_message)])
  /\ exists ws,
       ast_writes my_func_tree = Ok ws
       /\ (forall ln, dict_get ln [(1, S012_message)] = last_write ln ws)
       /\ (forall errors, exists errors',
             add_errors [(1, S012_message)] errors = Ok errors' /\
             forall ln, errors_at ln errors'
                        = (errors_at ln errors
                           ++ opt_list (last_write ln ws))%list).
Proof.
  split; [reflexivity|].
  apply (C10_one_diagnostic_per_line my_func_tree [(1, S012_message)]).
  reflexivity.
Defined.

(** ** What the passes file for a line *)

(** A rule files its message at the line it was given. *)
Lemma line_rules_line (check : line_rule) (ln k : Z) (line msg : string) :
  In check line_rules -> check ln line = Ok (Some (k, msg)) -> k = ln.
Proof.
  unfold line_rules. simpl.
  intros [<-|[<-|[<-|[<-|[<-|[<-|[<-|[]]]]]]]].
  - unfold line_length_check. destruct (len line >? 79); congruence.
  - unfold indentation_check. destruct (_ && _); congruence.
  - unfold semicolon_check. destruct (found _); congruence.
  - unfold comment_space_check.
    destruct (index (findall code_then_hash line) 0) as [c|[]];
      try congruence.
    destruct (_ <? 2); congruence.
  - unfold todo_check. destruct (found _); congruence.
  - unfold construction_space_check.
    destruct (matched (re_match construction_start line)); [|congruence].
    destruct (index (findall word_not_at_space line) 0); simpl;
      [|congruence].
    destruct (negb _); congruence.
  - unfold class_case_check.
    destruct (matched (re_match class_start line)); [|congruence].
    destruct (index (findall word_not_at_space line) 1); simpl;
      [|congruence].
    destruct (negb _); congruence.
Qed.

Lemma apply_rule_at (check : line_rule) (n : Z) (line : string)
    (d : file_errors) :
  In check line_rules ->
  exists d',
    apply_rule check n line d = Ok d' /\
    forall ln,
      errors_at ln d'
      = (errors_at ln d
         ++ if ln =? n + 1 then rule_message check (n + 1) line else [])%list.
Proof.
  intros Hin. unfold apply_rule, rule_message.
  destruct (line_rules_return check (n + 1) line Hin) as [r Hr].
  rewrite Hr. cbn [bind]. destruct r as [[k msg]|].
  - apply line_rules_line in Hr; [|exact Hin]. subst k.
    rewrite add_error_ok. eexists. split; [reflexivity|].
    intros ln. rewrite errors_at_set.
    destruct (ln =? n + 1) eqn:E.
    + apply Z.eqb_eq in E. subst ln. reflexivity.
    + rewrite app_nil_r. reflexivity.
  - exists d. split; [reflexivity|]. intros ln.
    destruct (ln =? n + 1); rewrite app_nil_r; reflexivity.
Qed.

Lemma apply_rules_at (checks : list line_rule) (n : Z) (line : string) :
  incl checks line_rules ->
  forall d, exists d',
    apply_rules checks n line d = Ok d' /\
    forall ln,
      errors_at ln d'
      = (errors_at ln d
         ++ if ln =? n + 1 then rule_messages checks (n + 1) line else [])%list.
Proof.
  induction checks as [|check checks IH]; intros Hincl d.
  - exists d. split; [reflexivity|]. intros ln.
    destruct (ln =? n + 1); simpl; rewrite app_nil_r; reflexivity.
  - cbn [apply_rules].
    destruct (apply_rule_at check n line d) as [d1 [H1 Hat1]].
    { apply Hincl. left. reflexivity. }
    rewrite H1. cbn [bind].
    destruct (IH (fun c Hc => Hincl c (or_intror Hc)) d1) as [d2 [H2 Hat2]].
    exists d2. split; [exact H2|]. intros ln.
    rewrite Hat2, Hat1, <- app_assoc. f_equal.
    destruct (ln =? n + 1); reflexivity.
Qed.

Lemma check_lines_at (lines : list string) :
  forall n d, exists d',
    check_lines lines n d = Ok d' /\
    forall ln,
      errors_at ln d' = (errors_at ln d ++ line_messages lines n ln)%list.
Proof.
  induction lines as [|line lines IH]; intros n d.
  - exists d. split; [reflexivity|]. intros ln. simpl.
    rewrite app_nil_r. reflexivity.
  - cbn [check_lines].
    destruct (apply_rules_at line_rules n line (incl_refl _) d)
      as [d1 [H1 Hat1]].
    rewrite H1. cbn [bind].
    destruct (IH (n + 1) d1) as [d2 [H2 Hat2]].
    exists d2. split; [exact H2|]. intros ln.
    rewrite Hat2, Hat1, <- app_assoc. reflexivity.
Qed.

Lemma blank_line_check_keys (file : list string) :
  NoDup (keys (blank_line_check file)).
Proof.
  unfold blank_line_check. rewrite blank_line_loop_flags.
  apply flag_all_keys. constructor.
Qed.

Lemma ast_checks_keys (tree : node) (d : dict string) :
  ast_checks tree = Ok d -> NoDup (keys d).
Proof.
  rewrite ast_checks_writes. intros H.
  apply bind_ok in H. destruct H as [ws [_ Hd]].
  inversion Hd; subst d. apply apply_dict_set_keys. constructor.
Qed.

(** The errors of a line are the messages of the rules for it, then the
    message of the blank-line pass, then the message of the syntax-tree
    pass. *)
Lemma check_file_at (parse : string -> result node) (file : string)
    (d : file_errors) :
  check_file parse file = Ok d ->
  exists tree ast_errors,
    parse file = Ok tree /\ ast_checks tree = Ok ast_errors /\
    forall ln,
      errors_at ln d
      = (line_messages (iter_lines file) 0 ln
         ++ opt_list (dict_get ln (blank_line_check (iter_lines file)))
         ++ opt_list (dict_get ln ast_errors))%list.
Proof.
  unfold check_file. cbn [readlines read bind].
  destruct (check_lines_at (iter_lines file) 0 []) as [d1 [-> Hat1]].
  cbn [bind].
  destruct (add_errors_at (blank_line_check (iter_lines file))
              (blank_line_check_keys _) d1) as [d2 [-> Hat2]].
  cbn [bind].
  destruct (parse file) as [tree|e]; [cbn [bind]|discriminate].
  destruct (ast_checks tree) as [ast_errors|e] eqn:Hast;
    [cbn [bind]|discriminate].
  intros H. exists tree, ast_errors.
  split; [reflexivity|]. split; [exact Hast|].
  destruct (add_errors_at ast_errors (ast_checks_keys _ _ Hast) d2)
    as [d3 [H3 Hat3]].
  rewrite H3 in H. inversion H; subst d3.
  intros ln. rewrite Hat3, Hat2, Hat1, <- app_assoc. reflexivity.
Qed.

(** ** The codes of the messages of a line *)

Lemma subseq_In {A : Type} (l l' : list A) (x : A) :
  subseq l l' -> In x l -> In x l'.
Proof.
  induction 1 as [|y l l' Hs IH|y l l' Hs IH]; simpl; auto.
  intros [->|Hin]; auto.
Qed.

Lemma subseq_NoDup {A : Type} (l l' : list A) :
  subseq l l' -> NoDup l' -> NoDup l.
Proof.
  induction 1 as [|y l l' Hs IH|y l l' Hs IH]; intros Hnd.
  - constructor.
  - inversion Hnd; auto.
  - inversion Hnd as [|? ? Hnotin Hnd']; subst. constructor; auto.
    intros Hin. apply Hnotin. eapply subseq_In; eauto.
Qed.

Lemma subseq_step {A : Type} (piece l l' : list A) (x : A) :
  piece = [] \/ piece = [x] -> subseq l l' -> subseq (piece ++ l) (x :: l').
Proof.
  intros [->| ->] Hs; simpl; [apply subseq_skip | apply subseq_take]; exact Hs.
Qed.

(** A rule files nothing or one message, which starts with the code of
    the rule. *)
Lemma rule_message_code (check : line_rule) (code : string) (ln : Z)
    (line : string) :
  In (check, code) (combine line_rules line_codes) ->
  map code_of (rule_message check ln line) = []
  \/ map code_of (rule_message check ln line) = [code].
Proof.
  unfold line_rules, line_codes. cbn [combine In].
  intros [H|[H|[H|[H|[H|[H|[H|[]]]]]]]]; inversion H; subst check code;
    clear H; unfold rule_message.
  - unfold line_length_check. destruct (len line >? 79); auto.
  - unfold indentation_check. destruct (_ && _); auto.
  - unfold semicolon_check. destruct (found _); auto.
  - unfold comment_space_check.
    destruct (index (findall code_then_hash line) 0) as [c|[]]; auto.
    destruct (_ <? 2); auto.
  - unfold todo_check. destruct (found _); auto.
  - unfold construction_space_check.
    destruct (matched (re_match construction_start line)); auto.
    destruct (index (findall word_not_at_space line) 0); simpl; auto.
    destruct (negb _); auto.
  - unfold class_case_check.
    destruct (matched (re_match class_start line)); auto.
    destruct (index (findall word_not_at_space line) 1); simpl; auto.
    destruct (negb _); auto.
Qed.

Lemma rule_messages_subseq (rules : list line_rule) (codes : list string)
    (ln : Z) (line : string) :
  incl (combine rules codes) (combine line_rules line_codes) ->
  List.length rules = List.length codes ->
  subseq (map code_of (rule_messages rules ln line)) codes.
Proof.
  revert codes. induction rules as [|check rules IH]; intros [|code codes];
    simpl; intros Hincl Hlen; try discriminate; [constructor|].
  rewrite map_app. apply subseq_step.
  - apply rule_message_code, Hincl. left. reflexivity.
  - apply IH; [|lia]. intros x Hx. apply Hincl. right. exact Hx.
Qed.

(** The codes of the messages of the rules for a line are some of the
    seven codes of the rules, in their order. *)
Lemma rule_messages_codes (ln : Z) (line : string) :
  subseq (map code_of (rule_messages line_rules ln line)) line_codes.
Proof.
  apply rule_messages_subseq; [apply incl_refl | reflexivity].
Qed.

Lemma line_messages_before (lines : list string) :
  forall n ln, ln <= n -> line_messages lines n ln = [].
Proof.
  induction lines as [|line lines IH]; intros n ln Hle; [reflexivity|].
  cbn [line_messages].
  replace (ln =? n + 1) with false by (symmetry; apply Z.eqb_neq; lia).
  apply IH. lia.
Qed.

Lemma line_messages_codes (lines : list string) :
  forall n ln, subseq (map code_of (line_messages lines n ln)) line_codes.
Proof.
  induction lines as [|line lines IH]; intros n ln.
  - simpl. unfold line_codes. repeat apply subseq_skip. constructor.
  - cbn [line_messages]. destruct (ln =? n + 1) eqn:E.
    + apply Z.eqb_eq in E.
      rewrite (line_messages_before lines (n + 1) ln) by lia.
      rewrite app_nil_r. apply rule_messages_codes.
    + apply IH.
Qed.

Lemma blank_line_check_message (file : list string) (ln : Z) (msg : string) :
  dict_get ln (blank_line_check file) = Some msg -> msg = S006_message.
Proof.
  unfold blank_line_check. rewrite blank_line_loop_flags, flag_all_get.
  destruct (existsb _ _); [congruence | discriminate].
Qed.

Lemma last_write_In (ln : Z) (msg : string) (ws : list diagnostic) :
  last_write ln ws = Some msg -> In (ln, msg) ws.
Proof.
  induction ws as [|[k m] ws IH]; simpl; [discriminate|].
  destruct (last_write ln ws) as [m'|].
  - intros [= ->]. right. apply IH. reflexivity.
  - destruct (ln =? k) eqn:E; [|discriminate].
    apply Z.eqb_eq in E. intros [= ->]. left. congruence.
Qed.

Lemma node_writes_codes (o : ast_obj) (w : list diagnostic) :
  node_writes o = Ok w ->
  forall ln msg, In (ln, msg) w -> In (code_of msg) tree_codes.
Proof.
  destruct o as [n|[posonly args vararg kwonly kwd kwarg defaults]|a];
    [destruct n| |]; simpl; intros H ln msg Hin;
    try (inversion H; subst w; destruct Hin; fail).
  - inversion H; subst w. unfold function_writes in Hin.
    destruct (negb _); [|destruct Hin].
    destruct Hin as [[= <- <-]|[]]. simpl. auto.
  - revert H. unfold variable_writes.
    destruct targets as [|t rest]; [discriminate|].
    destruct t; try (intros [= <-]; destruct Hin).
    destruct (negb _); intros [= <-]; [|destruct Hin].
    destruct Hin as [[= <- <-]|[]]. simpl. auto.
  - inversion H; subst w. apply in_app_or in Hin. destruct Hin as [Hin|Hin].
    + unfold args_writes in Hin. apply in_flat_map in Hin.
      destruct Hin as [[name ann l] [_ Hin]]. simpl in Hin.
      destruct (negb _); [|destruct Hin].
      destruct Hin as [[= <- <-]|[]]. simpl. auto.
    + clear H. induction defaults as [|d ds IH]; [destruct Hin|].
      simpl in Hin. destruct (mutable_literal d); [|auto].
      destruct Hin as [[= <- <-]|[]]. simpl. auto.
Qed.

Lemma all_writes_codes (objs : list ast_obj) (ws : list diagnostic) :
  all_writes objs = Ok ws ->
  forall ln msg, In (ln, msg) ws -> In (code_of msg) tree_codes.
Proof.
  revert ws. induction objs as [|o objs IH]; intros ws H ln msg Hin.
  - inversion H; subst ws. destruct Hin.
  - cbn [all_writes] in H.
    apply bind_ok in H. destruct H as [w [Hw H]].
    apply bind_ok in H. destruct H as [ws' [Hws' Heq]].
    inversion Heq; subst ws. apply in_app_or in Hin.
    destruct Hin as [Hin|Hin].
    + eapply node_writes_codes; eauto.
    + eapply IH; eauto.
Qed.

Lemma ast_checks_codes (tree : node) (d : dict string) (ln : Z) (msg : string) :
  ast_checks tree = Ok d -> dict_get ln d = Some msg ->
  In (code_of msg) tree_codes.
Proof.
  rewrite ast_checks_writes. intros H Hget.
  apply bind_ok in H. destruct H as [ws [Hws Hd]].
  inversion Hd; subst d. clear Hd.
  rewrite apply_dict_set_get in Hget.
  destruct (last_write ln ws) as [m|] eqn:El; [|discriminate].
  inversion Hget; subst m. apply last_write_In in El.
  rewrite ast_writes_all in Hws. eapply all_writes_codes; eauto.
Qed.

(** The messages of one line of a file have different codes. *)
Lemma check_file_codes (parse : string -> result node) (file : string)
    (d : file_errors) (ln : Z) :
  check_file parse file = Ok d -> NoDup (map code_of (errors_at ln d)).
Proof.
  intros H.
  destruct (check_file_at parse file d H) as [tree [ast [_ [Hast Hat]]]].
  rewrite Hat, !map_app.
  pose proof (line_messages_codes (iter_lines file) 0 ln) as Hline.
  assert (Hblank : forall c,
             In c (map code_of (opt_list
                     (dict_get ln (blank_line_check (iter_lines file))))) ->
             c = "S006").
  { intros c Hc.
    destruct (dict_get ln (blank_line_check (iter_lines file))) as [m|] eqn:E;
      [|destruct Hc].
    apply blank_line_check_message in E. subst m.
    destruct Hc as [<-|[]]. reflexivity. }
  assert (Htree : forall c,
             In c (map code_of (opt_list (dict_get ln ast))) ->
             In c tree_codes).
  { intros c Hc. destruct (dict_get ln ast) as [m|] eqn:E; [|destruct Hc].
    destruct Hc as [<-|[]]. eapply ast_checks_codes; eauto. }
  apply NoDup_app.
  - eapply subseq_NoDup; [exact Hline|].
    unfold line_codes. repeat constructor; simpl; intuition discriminate.
  - apply NoDup_app.
    + destruct (dict_get ln (blank_line_check _)); simpl;
        repeat constructor; simpl; tauto.
    + destruct (dict_get ln ast); simpl; repeat constructor; simpl; tauto.
    + intros c Hc1 Hc2. apply Hblank in Hc1. apply Htree in Hc2. subst c.
      simpl in Hc2. intuition discriminate.
  - intros c Hc1 Hc2.
    apply (subseq_In _ _ c Hline) in Hc1.
    apply in_app_or in Hc2. destruct Hc2 as [Hc2|Hc2].
    + apply Hblank in Hc2. subst c. simpl in Hc1. intuition discriminate.
    + apply Htree in Hc2. unfold line_codes, tree_codes in *. simpl in *.
      intuition (subst; discriminate).
Qed.

(** ** The analysis of a file *)

Example check_file_sample :
  check_file sample_parse sample_source = Ok sample_errors.
Proof. reflexivity. Qed.

(** C3: for every file, the diagnostics are printed by non-decreasing
    line number, and those of one line in the ascending order of their
    messages, which is the ascending order of their codes: two messages
    of one line never have the same code. *)
Theorem C3_report_order (parse : string -> result node) (file path : string)
    (d : file_errors) :
  check_file parse file = Ok d ->
  StronglySorted printed_before (report d)
  /\ print_results [(path, d)] = map (format_line path) (report d).
Proof.
  intros H. split.
  - pose proof (check_file_keys parse file d H) as Hnd.
    apply report_sorted; [exact Hnd|].
    intros ln error_list Hin.
    pose proof (check_file_codes parse file d ln H) as Hcodes.
    unfold errors_at in Hcodes.
    rewrite (In_dict_get ln error_list d Hnd Hin) in Hcodes. exact Hcodes.
  - unfold print_results. simpl. apply app_nil_r.
Qed.

Lemma C3_report_order_witness :
  check_file sample_parse sample_source = Ok sample_errors
  /\ StronglySorted printed_before (report sample_errors)
  /\ print_results [("sample.py", sample_errors)]
     = map (format_line "sample.py") (report sample_errors).
Proof.
  split; [reflexivity|].
  apply (C3_report_order sample_parse sample_source "sample.py" sample_errors).
  reflexivity.
Defined.

Example print_results_sample :
  print_results [("sample.py", sample_errors)] =
  ["sample.py: Line 1: S005 TODO found";
   "sample.py: Line 1: S007 Too many spaces after def";
   "sample.py: Line 1: S012 Default argument value is mutable";
   "sample.py: Line 2: S003 Unnecessary semicolon after a statement"].
Proof. reflexivity. Qed.

(** C5: when [ast.parse] raises for the text of a file, [check_file]
    raises the same error: it returns no mapping, partial or empty, and
    no diagnostic of the syntax-tree pass. *)
Theorem C5_parse_failure (parse : string -> result node) (file : string)
    (e : exn) :
  parse file = Raise e -> check_file parse file = Raise e.
Proof.
  intros Hparse. unfold check_file. cbn [readlines read bind].
  destruct (check_lines_ok (iter_lines file) 0 []) as [d1 [-> _]].
  cbn [bind].
  destruct (add_errors_ok (blank_line_check (iter_lines file)) d1)
    as [d2 [-> _]].
  cbn [bind]. rewrite Hparse. reflexivity.
Qed.

Lemma C5_parse_failure_witness :
  sample_parse ("def f(:" ++ nl) = Raise SyntaxError
  /\ check_file sample_parse ("def f(:" ++ nl) = Raise SyntaxError.
Proof.
  split; [reflexivity|].
  apply (C5_parse_failure sample_parse ("def f(:" ++ nl) SyntaxError).
  reflexivity.
Defined.

(** ** The length of a line *)

Lemma len_append (s t : string) : len (s ++ t) = len s + len t.
Proof.
  unfold len. induction s as [|c s IH]; simpl String.length; lia.
Qed.

(** A line that ends in its newline is flagged from 79 characters of
    content on, a last line without newline from 80 on. *)
Lemma line_length_check_terminated (ln : Z) (content : string) :
  line_length_check ln (content ++ nl) = Ok (Some (ln, "S001 Too long"))
  <-> 79 <= len content.
Proof.
  unfold line_length_check. rewrite len_append.
  change (len nl) with 1.
  destruct (Z.gtb_spec (len content + 1) 79); split;
    try discriminate; try reflexivity; lia.
Qed.

Lemma line_length_check_unterminated (ln : Z) (line : string) :
  line_length_check ln line = Ok (Some (ln, "S001 Too long"))
  <-> 79 < len line.
Proof.
  unfold line_length_check.
  destruct (Z.gtb_spec (len line) 79); split;
    try discriminate; try reflexivity; lia.
Qed.

(** C9 fails on the code: a line of 79 characters followed by its newline
    is iterated with the newline, has length 80 for [line_length_check],
    and is reported as S001. *)
Theorem C9_line_of_79_characters :
  len name_79 = 79
  /\ iter_lines file_79 = [name_79 ++ nl]
  /\ line_length_check 1 (name_79 ++ nl) = Ok (Some (1, "S001 Too long"))
  /\ check_file parse_79 file_79 = Ok [(1, ["S001 Too long"])].
Proof. repeat split; reflexivity. Qed.

(** ** Comments and constructions *)

(** C6 fails on the code: a line that is a comment from its first
    character on, and whose text holds a second [#] with one space before
    it, is reported as S004. *)
Theorem C6_comment_only_line :
  (exists text, "# fix issue #12" ++ nl = "#" ++ text)
  /\ comment_space_check 1 ("# fix issue #12" ++ nl)
     = Ok (Some (1, "S004 At least two spaces before inline comments required")).
Proof.
  split; [eexists|]; reflexivity.
Qed.

(** C7 fails on the code: a line that starts with a name of which [def]
    is a prefix, with no [def] or [class] keyword followed by two spaces
    at its start, is reported as S007. *)
Theorem C7_name_with_keyword_prefix :
  ~ (exists n kw rest,
        (kw = "def" \/ kw = "class")
        /\ "default_value = 1" ++ nl = indent n ++ kw ++ "  " ++ rest)
  /\ construction_space_check 1 ("default_value = 1" ++ nl)
     = Ok (Some (1, "S007 Too many spaces after default_value")).
Proof.
  split; [|reflexivity].
  intros [n [kw [rest [Hkw H]]]].
  destruct n as [|n]; [|discriminate H].
  destruct Hkw as [-> | ->]; discriminate H.
Qed.

(** ** What holds of the comment and construction rules *)

(** Over an indentation, [ *] takes all of it when the rest of the pattern
    then matches, and fails when the rest matches nowhere in it. *)
Lemma star_indent_some (R : Type) (n : nat) :
  forall (i : nat) (t : string) (k : nat -> string -> option R) (x : R),
  starts_with_space t = false ->
  k (i + n)%nat t = Some x ->
  star is_blank_char R i (indent n ++ t) k = Some x.
Proof.
  induction n as [|n IH]; intros i t k x Ht Hk.
  - rewrite Nat.add_0_r in Hk. simpl.
    destruct t as [|c t]; simpl; [exact Hk|].
    simpl in Ht. rewrite Ht. exact Hk.
  - change (indent (S n) ++ t) with (String " " (indent n ++ t)).
    cbn [star]. change (is_blank_char " ") with true. cbn iota.
    rewrite (IH (S i) t k x Ht); [reflexivity|].
    rewrite <- Hk. f_equal. lia.
Qed.

Lemma star_indent_none (R : Type) (n : nat) :
  forall (i : nat) (t : string) (k : nat -> string -> option R),
  starts_with_space t = false ->
  (forall m, (m <= n)%nat -> k (i + m)%nat (indent (n - m) ++ t) = None) ->
  star is_blank_char R i (indent n ++ t) k = None.
Proof.
  induction n as [|n IH]; intros i t k Ht Hk.
  - specialize (Hk 0%nat (Nat.le_refl _)). rewrite Nat.add_0_r in Hk.
    simpl in *. destruct t as [|c t]; simpl; [exact Hk|].
    simpl in Ht. rewrite Ht. exact Hk.
  - change (indent (S n) ++ t) with (String " " (indent n ++ t)).
    cbn [star]. change (is_blank_char " ") with true. cbn iota.
    rewrite (IH (S i) t k Ht).
    + specialize (Hk 0%nat (Nat.le_0_l _)). rewrite Nat.add_0_r in Hk.
      exact Hk.
    + intros m Hm. specialize (Hk (S m) (proj1 (Nat.succ_le_mono _ _) Hm)).
      simpl in Hk. rewrite <- Hk. f_equal. lia.
Qed.

(** The part of C7 that holds: a [def] or [class] keyword at the start of
    a line, indented or not, is reported when two spaces or more follow
    it, and is not reported when one space and a word character follow
    it. *)
Lemma construction_two_spaces (ln : Z) (n : nat) (kw rest : string) :
  kw = "def" \/ kw = "class" ->
  exists name,
    construction_space_check ln (indent n ++ kw ++ "  " ++ rest)
    = Ok (Some (ln, "S007 Too many spaces after " ++ name)).
Proof.
  intros Hkw. unfold construction_space_check.
  assert (Hstart : matched (re_match construction_start
                              (indent n ++ kw ++ "  " ++ rest)) = true).
  { unfold re_match, match_at, construction_start. cbn [run Nat.eqb].
    destruct Hkw as [-> | ->];
      erewrite star_indent_some; reflexivity. }
  assert (Hone : matched (re_match construction_one_space
                            (indent n ++ kw ++ "  " ++ rest)) = false).
  { unfold re_match, match_at, construction_one_space. cbn [run Nat.eqb].
    rewrite star_indent_none; [reflexivity | destruct Hkw; subst; reflexivity|].
    intros m Hm. destruct (n - m)%nat as [|j]; [|reflexivity].
    destruct Hkw as [-> | ->]; reflexivity. }
  rewrite Hstart, Hone.
  pose proof (findall_word_nonempty (indent n ++ kw ++ "  " ++ rest)) as Hne.
  destruct (findall word_not_at_space _) as [|name more]; [congruence|].
  exists name. reflexivity.
Qed.

Lemma construction_one_space_ok (ln : Z) (n : nat) (kw rest : string)
    (c : ascii) :
  kw = "def" \/ kw = "class" -> is_word c = true ->
  construction_space_check ln (indent n ++ kw ++ " " ++ String c rest)
  = Ok None.
Proof.
  intros Hkw Hc. unfold construction_space_check.
  assert (Hone : matched (re_match construction_one_space
                            (indent n ++ kw ++ " " ++ String c rest)) = true).
  { unfold re_match, match_at, construction_one_space. cbn [run Nat.eqb].
    destruct Hkw as [-> | ->];
      erewrite star_indent_some; try reflexivity; simpl; rewrite Hc;
      reflexivity. }
  rewrite Hone. destruct (matched (re_match construction_start _));
    [|reflexivity].
  pose proof (findall_word_nonempty
                (indent n ++ kw ++ " " ++ String c rest)) as Hne.
  destruct (findall word_not_at_space _) as [|name more]; [congruence|].
  reflexivity.
Qed.

Lemma star_then_hash_none (p : ascii -> bool) (R : Type) (s : string) :
  forall (i : nat) (k : nat -> string -> option R),
  (forall j t, starts_with_hash t = false -> k j t = None) ->
  no_hash s = true ->
  star p R i s k = None.
Proof.
  induction s as [|c s IH]; intros i k Hk Hs; [apply Hk; reflexivity|].
  simpl in Hs. apply andb_true_iff in Hs. destruct Hs as [Hc Hs].
  apply negb_true_iff in Hc. cbn [star].
  rewrite (IH (S i) k Hk Hs). rewrite (Hk i (String c s) Hc).
  destruct (p c); reflexivity.
Qed.

Lemma code_then_hash_needs_hash (i : nat) (c : ascii) (s : string) (b : bool) :
  no_hash s = true -> match_at code_then_hash i (String c s) b = None.
Proof.
  intros Hs. unfold match_at, code_then_hash. cbn [run].
  destruct (negb (is_space c)); [|reflexivity].
  apply star_then_hash_none; [|exact Hs].
  intros j [|x t] Hx; [reflexivity|]. simpl in Hx. rewrite Hx. reflexivity.
Qed.

Lemma code_then_hash_needs_code (i : nat) (c : ascii) (s : string) (b : bool) :
  is_space c = true -> match_at code_then_hash i (String c s) b = None.
Proof.
  intros Hc. unfold match_at, code_then_hash. cbn [run].
  rewrite Hc. reflexivity.
Qed.

Lemma spans_no_hash (s : string) :
  forall i resume, no_hash s = true -> spans_from code_then_hash i resume s = [].
Proof.
  induction s as [|c s IH]; intros i resume Hs.
  - simpl. destruct (i <? resume)%nat; reflexivity.
  - pose proof Hs as Hs'. simpl in Hs'. apply andb_true_iff in Hs'.
    destruct Hs' as [_ Hs'].
    cbn [spans_from]. rewrite code_then_hash_needs_hash by exact Hs'.
    destruct (i <? resume)%nat; apply IH; exact Hs'.
Qed.

(** The part of C6 that holds of whole-line comments: a line made of
    whitespace, a [#] and a text that holds no further [#] is not
    reported. *)
Lemma comment_only_single_hash (ln : Z) (lead text : string) :
  whitespace_only lead = true -> no_hash text = true ->
  comment_space_check ln (lead ++ "#" ++ text) = Ok None.
Proof.
  intros Hlead Htext. unfold comment_space_check, findall, spans.
  assert (H : forall i resume,
             spans_from code_then_hash i resume (lead ++ "#" ++ text) = []).
  { induction lead as [|c lead IH]; intros i resume.
    - cbn [append spans_from].
      rewrite code_then_hash_needs_hash by exact Htext.
      destruct (i <? resume)%nat; apply spans_no_hash; exact Htext.
    - simpl in Hlead. apply andb_true_iff in Hlead.
      destruct Hlead as [Hc Hlead].
      cbn [append spans_from].
      rewrite code_then_hash_needs_code by exact Hc.
      destruct (i <? resume)%nat; apply IH; exact Hlead. }
  rewrite H. reflexivity.
Qed.

(** The first span of a scan is a match of the pattern somewhere in the
    text. *)
Lemma spans_from_head (r : regex) (s : string) :
  forall i resume b e rest,
  spans_from r i resume s = (b, e) :: rest ->
  exists pre t,
    s = pre ++ t /\ b = (i + String.length pre)%nat
    /\ match_at r b t false = Some e.
Proof.
  induction s as [|c s IH]; intros i resume b e rest.
  - cbn [spans_from]. destruct (i <? resume)%nat; [discriminate|].
    destruct (match_at r i EmptyString false) as [e0|] eqn:E; [|discriminate].
    intros H. exists EmptyString, EmptyString. simpl. rewrite Nat.add_0_r.
    destruct (Nat.eqb_spec e0 i) as [->|Hne]; inversion H; subst; auto.
  - cbn [spans_from].
    assert (Hnext : forall rs,
               spans_from r (S i) rs s = (b, e) :: rest ->
               exists pre t,
                 String c s = pre ++ t /\ b = (i + String.length pre)%nat
                 /\ match_at r b t false = Some e).
    { intros rs H. destruct (IH _ _ _ _ _ H) as [pre [t [H1 [H2 H3]]]].
      exists (String c pre), t. simpl. rewrite H1.
      repeat split; [lia | exact H3]. }
    destruct (i <? resume)%nat; [apply Hnext|].
    destruct (match_at r i (String c s) false) as [e0|] eqn:E;
      [|apply Hnext].
    intros H. exists EmptyString, (String c s). simpl. rewrite Nat.add_0_r.
    destruct (Nat.eqb_spec e0 i) as [->|Hne]; inversion H; subst; auto.
Qed.

Lemma star_then_hash_some (p : ascii -> bool) (s : string) :
  forall (i : nat) (k : nat -> string -> option nat) (e : nat),
  (forall j t x, k j t = Some x -> starts_with_hash t = true /\ x = S j) ->
  star p nat i s k = Some e ->
  exists sp post,
    s = sp ++ String "#" post /\ all_chars p sp = true
    /\ e = S (i + String.length sp).
Proof.
  induction s as [|c s IH]; intros i k e Hk.
  - simpl. intros H. apply Hk in H. destruct H as [H _]. discriminate.
  - assert (Hhere : k i (String c s) = Some e ->
               exists sp post,
                 String c s = sp ++ String "#" post /\ all_chars p sp = true
                 /\ e = S (i + String.length sp)).
    { intros H. apply Hk in H. destruct H as [Hc ->]. simpl in Hc.
      apply Ascii.eqb_eq in Hc. subst c.
      exists EmptyString, s. simpl. repeat split. lia. }
    cbn [star]. destruct (p c) eqn:Ec; [|exact Hhere].
    destruct (star p nat (S i) s k) as [x|] eqn:Es; [|exact Hhere].
    intros [= ->].
    destruct (IH _ _ _ Hk Es) as [sp [post [H1 [H2 H3]]]].
    exists (String c sp), post. simpl. rewrite Ec, H2, H1.
    repeat split. lia.
Qed.

Lemma code_then_hash_match (i : nat) (t : string) (b : bool) (e : nat) :
  match_at code_then_hash i t b = Some e ->
  exists c sp post,
    t = String c (sp ++ String "#" post) /\ is_space c = false
    /\ all_chars is_blank_char sp = true
    /\ e = (i + 2 + String.length sp)%nat.
Proof.
  unfold match_at, code_then_hash. cbn [run].
  destruct t as [|c t]; [discriminate|].
  destruct (is_space c) eqn:Ec; [discriminate|]. cbn [negb].
  intros H. apply star_then_hash_some in H.
  - destruct H as [sp [post [H1 [H2 H3]]]].
    exists c, sp, post. rewrite H1.
    split; [reflexivity|]. split; [exact Ec|]. split; [exact H2 | lia].
  - intros j [|x u] y; [discriminate|]. simpl.
    destruct (x =? "#")%char; [|discriminate].
    destruct (b && _); [discriminate|]. intros [= <-]. auto.
Qed.

Lemma substring_skip (pre t : string) (n : nat) :
  substring (String.length pre) n (pre ++ t) = substring 0 n t.
Proof. induction pre as [|c pre IH]; simpl; auto. Qed.

Lemma substring_prefix (u v : string) :
  substring 0 (String.length u) (u ++ v) = u.
Proof.
  induction u as [|c u IH]; simpl.
  - destruct v; reflexivity.
  - rewrite IH. reflexivity.
Qed.

Lemma str_length_append (s t : string) :
  String.length (s ++ t) = (String.length s + String.length t)%nat.
Proof. induction s as [|c s IH]; simpl; auto. Qed.

Lemma str_append_assoc (s t u : string) : (s ++ t) ++ u = s ++ (t ++ u).
Proof. induction s as [|c s IH]; simpl; [|rewrite IH]; reflexivity. Qed.

(** [findall("( )", s)] has one item for each space of [s]. *)
Lemma spans_one_space (s : string) :
  forall i resume,
  (resume <= i)%nat ->
  List.length (spans_from one_space i resume s) = count_spaces s.
Proof.
  induction s as [|c s IH]; intros i resume Hle.
  - simpl. destruct (i <? resume)%nat; reflexivity.
  - cbn [spans_from count_spaces].
    replace (i <? resume)%nat with false
      by (symmetry; apply Nat.ltb_ge; exact Hle).
    unfold match_at, one_space. cbn [run]. unfold is_blank_char.
    destruct (c =? " ")%char.
    + cbn [andb]. replace (S i =? i)%nat with false
        by (symmetry; apply Nat.eqb_neq; lia).
      cbn [List.length]. rewrite IH by lia. reflexivity.
    + apply IH. lia.
Qed.

Lemma count_spaces_append (s t : string) :
  count_spaces (s ++ t) = (count_spaces s + count_spaces t)%nat.
Proof.
  induction s as [|c s IH]; simpl; [reflexivity|].
  destruct (is_blank_char c); simpl; rewrite IH; reflexivity.
Qed.

Lemma count_spaces_all (s : string) :
  all_chars is_blank_char s = true -> count_spaces s = String.length s.
Proof.
  induction s as [|c s IH]; simpl; [reflexivity|].
  intros H. apply andb_true_iff in H. destruct H as [Hc Hs].
  rewrite Hc, IH by exact Hs. reflexivity.
Qed.

(** The part of C6 that holds of every line: S004 is reported only when
    the line holds a [#] after a character that is not whitespace, with
    fewer than two spaces, and nothing else, between the two. *)
Lemma comment_space_reported (ln : Z) (line : string) (d : diagnostic) :
  comment_space_check ln line = Ok (Some d) ->
  exists pre c sp post,
    line = pre ++ String c (sp ++ String "#" post)
    /\ is_space c = false /\ all_chars is_blank_char sp = true
    /\ (String.length sp < 2)%nat.
Proof.
  unfold comment_space_check, findall, spans.
  destruct (spans_from code_then_hash 0 0 line) as [|[b e] rest] eqn:Es;
    [discriminate|].
  destruct (spans_from_head _ _ _ _ _ _ _ Es) as [pre [t [-> [-> Hm]]]].
  destruct (code_then_hash_match _ _ _ _ Hm)
    as [c [sp [post [-> [Hc [Hsp ->]]]]]].
  cbn [map index nth_error]. unfold slice. cbn [fst snd Nat.add].
  replace (String.length pre + 2 + String.length sp - String.length pre)%nat
    with (String.length (String c (sp ++ "#"))) by
      (simpl; rewrite str_length_append; simpl; lia).
  rewrite substring_skip.
  replace (String c (sp ++ String "#" post))
    with (String c (sp ++ "#") ++ post)
    by (simpl; rewrite str_append_assoc; reflexivity).
  rewrite substring_prefix.
  rewrite length_map, spans_one_space by lia.
  assert (Hcount : count_spaces (String c (sp ++ "#")) = String.length sp).
  { cbn [count_spaces]. unfold is_blank_char at 1.
    destruct (Ascii.eqb_spec c " "%char) as [->|_]; [discriminate Hc|].
    rewrite count_spaces_append, count_spaces_all by exact Hsp.
    simpl. lia. }
  rewrite Hcount.
  destruct (Z.ltb_spec (Z.of_nat (String.length sp)) 2); [|discriminate].
  intros _. exists pre, c, sp, post.
  split; [simpl; rewrite str_append_assoc; reflexivity|].
  split; [exact Hc|]. split; [exact Hsp | lia].
Qed.

(** ** What holds of the length rule *)

(** A line that ends in a newline is iterated with it. *)
Lemma iter_lines_first (content rest : string) :
  no_newline content = true ->
  iter_lines (content ++ nl ++ rest) = (content ++ nl) :: iter_lines rest.
Proof.
  induction content as [|c content IH]; intros H.
  - reflexivity.
  - simpl in H. apply andb_true_iff in H. destruct H as [Hc H].
    apply negb_true_iff in Hc.
    change ((String c content) ++ nl ++ rest)
      with (String c (content ++ nl ++ rest)).
    cbn [iter_lines]. rewrite Hc, (IH H). reflexivity.
Qed.

Lemma line_messages_nth (lines : list string) :
  forall (n : Z) (i : nat) (line : string),
  nth_error lines i = Some line ->
  line_messages lines n (n + Z.of_nat i + 1)
  = rule_messages line_rules (n + Z.of_nat i + 1) line.
Proof.
  induction lines as [|l lines IH]; intros n i line Hnth.
  - destruct i; discriminate.
  - cbn [line_messages]. destruct i as [|i]; simpl in Hnth.
    + inversion Hnth; subst l.
      replace (n + Z.of_nat 0 + 1) with (n + 1) by lia.
      rewrite Z.eqb_refl, line_messages_before by lia.
      apply app_nil_r.
    + replace (n + Z.of_nat (S i) + 1 =? n + 1) with false
        by (symmetry; apply Z.eqb_neq; lia).
      replace (n + Z.of_nat (S i) + 1) with (n + 1 + Z.of_nat i + 1) by lia.
      apply (IH (n + 1) i line Hnth).
Qed.

(** The part of C9 that holds: the analysis reports S001 for a line
    exactly when the line as iterated, its newline counted, is longer
    than 79 characters. *)
Lemma S001_reported (parse : string -> result node) (file : string)
    (d : file_errors) (i : nat) (line : string) :
  check_file parse file = Ok d ->
  nth_error (iter_lines file) i = Some line ->
  In "S001 Too long" (errors_at (Z.of_nat i + 1) d) <-> 79 < len line.
Proof.
  intros H Hnth.
  destruct (check_file_at parse file d H) as [tree [ast [_ [Hast Hat]]]].
  rewrite Hat.
  pose proof (line_messages_nth (iter_lines file) 0 i line Hnth) as Hline.
  simpl (0 + _) in Hline. rewrite Hline.
  assert (Hsub : subseq
            (map code_of
               (rule_messages (tl line_rules) (Z.of_nat i + 1) line))
            (tl line_codes)).
  { apply rule_messages_subseq; [|reflexivity].
    intros x Hx. right. exact Hx. }
  change (rule_messages line_rules (Z.of_nat i + 1) line)
    with (rule_message line_length_check (Z.of_nat i + 1) line
          ++ rule_messages (tl line_rules) (Z.of_nat i + 1) line)%list.
  unfold rule_message at 1, line_length_check.
  split.
  - intros Hin.
    destruct (Z.gtb_spec (len line) 79) as [Hlen|Hlen]; [lia|].
    exfalso. cbn [app] in Hin.
    apply in_app_or in Hin. destruct Hin as [Hin|Hin].
    + apply (in_map code_of) in Hin.
      apply (subseq_In _ _ _ Hsub) in Hin.
      simpl in Hin. intuition discriminate.
    + apply in_app_or in Hin. destruct Hin as [Hin|Hin].
      * destruct (dict_get _ (blank_line_check _)) as [m|] eqn:E;
          [|destruct Hin].
        apply blank_line_check_message in E. subst m.
        destruct Hin as [Hin|[]]. discriminate Hin.
      * destruct (dict_get _ ast) as [m|] eqn:E; [|destruct Hin].
        destruct Hin as [->|[]].
        pose proof (ast_checks_codes _ _ _ _ Hast E) as Hc.
        simpl in Hc. intuition discriminate.
  - intros Hlen.
    destruct (Z.gtb_spec (len line) 79) as [_|Hle]; [|lia].
    left. reflexivity.
Qed.

(** * Further properties of the rules *)

(** ** Indentation *)

Lemma len_indent (n : nat) : len (indent n) = Z.of_nat n.
Proof.
  unfold len. f_equal. induction n as [|n IH]; simpl; [|rewrite <- IH at 2];
    reflexivity.
Qed.

Lemma lstrip_indent (n : nat) (rest : string) :
  starts_with_space rest = false -> lstrip_spaces (indent n ++ rest) = rest.
Proof.
  intros H. induction n as [|n IH]; [|exact IH].
  destruct rest as [|c rest]; [reflexivity|].
  simpl in *. unfold is_blank_char in H. rewrite H. reflexivity.
Qed.

(** X1: a line that starts with exactly [n] spaces is reported as S002 if
    and only if [n] is not a multiple of four, whatever follows the
    spaces: a tab, a newline, a [#]. *)
Theorem X1_indentation (ln : Z) (n : nat) (rest : string) :
  starts_with_space rest = false ->
  indentation_check ln (indent n ++ rest)
  = Ok (if (n mod 4 =? 0)%nat then None
        else Some (ln, "S002 Indentation is not a multiple of four")).
Proof.
  intros H. unfold indentation_check.
  rewrite lstrip_indent by exact H.
  rewrite len_append, len_indent.
  replace (Z.of_nat n + len rest - len rest) with (Z.of_nat n) by lia.
  change 4 with (Z.of_nat 4). rewrite <- Nat2Z.inj_mod.
  destruct (Nat.eqb_spec (n mod 4) 0) as [E|E].
  - rewrite E. reflexivity.
  - replace (Z.of_nat (n mod 4) =? 0) with false
      by (symmetry; apply Z.eqb_neq; lia).
    replace (Z.of_nat n =? 0) with false; [reflexivity|].
    symmetry. apply Z.eqb_neq. intros H0.
    assert (n = 0%nat) by lia. subst n. apply E. reflexivity.
Qed.

Lemma X1_indentation_witness :
  starts_with_space ("x = 1" ++ nl) = false
  /\ indentation_check 7 (indent 6 ++ "x = 1" ++ nl)
     = Ok (Some (7, "S002 Indentation is not a multiple of four")).
Proof.
  split; [reflexivity|].
  apply (X1_indentation 7 6 ("x = 1" ++ nl)). reflexivity.
Defined.

(** ** Semicolons *)

Lemma star_dot_all (s : string) :
  forall i, star dot_all nat i s (fun j _ => Some j)
            = Some (i + String.length s)%nat.
Proof.
  induction s as [|c s IH]; intros i; simpl.
  - f_equal. lia.
  - rewrite IH. f_equal. lia.
Qed.

Lemma comment_to_end_match (i : nat) (c : ascii) (s : string) :
  match_at comment_to_end i (String c s) false
  = if (c =? "#")%char then Some (S i + String.length s)%nat else None.
Proof.
  unfold match_at, comment_to_end. cbn [run andb].
  destruct (c =? "#")%char; [|reflexivity]. apply star_dot_all.
Qed.

(** Inside a match nothing is scanned. *)
Lemma spans_from_inside (r : regex) (s : string) :
  forall i resume,
  resume = (i + String.length s)%nat ->
  match_at r resume EmptyString false = None ->
  spans_from r i resume s = [].
Proof.
  induction s as [|c s IH]; intros i resume Hres Hend.
  - simpl in Hres. rewrite Nat.add_0_r in Hres. subst resume.
    cbn [spans_from]. rewrite Nat.ltb_irrefl, Hend. reflexivity.
  - cbn [spans_from]. simpl in Hres.
    replace (i <? resume)%nat with true by (symmetry; apply Nat.ltb_lt; lia).
    apply IH; [lia | exact Hend].
Qed.

Lemma spans_from_start (r : regex) (s : string) :
  forall i resume b e,
  In (b, e) (spans_from r i resume s) -> (i <= b)%nat.
Proof.
  induction s as [|c s IH]; intros i resume b e.
  - cbn [spans_from]. destruct (i <? resume)%nat; [intros []|].
    destruct (match_at r i EmptyString false) as [e0|]; [|intros []].
    destruct (e0 =? i)%nat.
    + intros [H|H]; [inversion H; lia|].
      destruct (match_at r i EmptyString true); [|destruct H].
      destruct H as [H|[]]. inversion H. lia.
    + intros [H|[]]. inversion H. lia.
  - cbn [spans_from].
    assert (Hnext : forall rs, In (b, e) (spans_from r (S i) rs s) ->
                               (i <= b)%nat).
    { intros rs H. apply IH in H. lia. }
    destruct (i <? resume)%nat; [apply Hnext|].
    destruct (match_at r i (String c s) false) as [e0|]; [|apply Hnext].
    destruct (e0 =? i)%nat.
    + intros [H|H]; [inversion H; lia|].
      destruct (match_at r i (String c s) true).
      * destruct H as [H|H]; [inversion H; lia | eapply Hnext; eauto].
      * eapply Hnext; eauto.
    + intros [H|H]; [inversion H; lia | eapply Hnext; eauto].
Qed.

Lemma delete_spans_whole (b e : nat) (s : string) :
  forall i, (b <= i)%nat -> (i + String.length s <= e)%nat ->
            delete_spans [(b, e)] i s = EmptyString.
Proof.
  induction s as [|c s IH]; intros i Hb He; [reflexivity|].
  simpl in He. cbn [delete_spans existsb fst snd].
  replace (b <=? i)%nat with true by (symmetry; apply Nat.leb_le; lia).
  replace (i <? e)%nat with true by (symmetry; apply Nat.ltb_lt; lia).
  simpl. apply IH; lia.
Qed.

Lemma delete_spans_keep (sp : list (nat * nat)) (i : nat) (c : ascii)
    (s : string) :
  (forall b e, In (b, e) sp -> (S i <= b)%nat) ->
  delete_spans sp i (String c s) = String c (delete_spans sp (S i) s).
Proof.
  intros H. cbn [delete_spans].
  replace (existsb _ sp) with false; [reflexivity|].
  symmetry. apply not_true_is_false. intros Hex.
  apply existsb_exists in Hex. destruct Hex as [[b e] [Hin Hcov]].
  apply H in Hin. simpl in Hcov. apply andb_true_iff in Hcov.
  destruct Hcov as [Hcov _]. apply Nat.leb_le in Hcov. lia.
Qed.

(** [re.sub("(?s)#.*", "", line)] is the text before the first [#]. *)
Lemma sub_comment_to_end (s : string) :
  forall i resume,
  (resume <= i)%nat ->
  delete_spans (spans_from comment_to_end i resume s) i s = before_hash s.
Proof.
  induction s as [|c s IH]; intros i resume Hle; [reflexivity|].
  cbn [spans_from before_hash].
  replace (i <? resume)%nat with false by (symmetry; apply Nat.ltb_ge; lia).
  rewrite comment_to_end_match. destruct (c =? "#")%char.
  - replace (S i + String.length s =? i)%nat with false
      by (symmetry; apply Nat.eqb_neq; lia).
    rewrite spans_from_inside; [|lia|reflexivity].
    apply delete_spans_whole; simpl; lia.
  - rewrite delete_spans_keep.
    + rewrite IH by lia. reflexivity.
    + intros b e Hin. apply spans_from_start in Hin. exact Hin.
Qed.

(** [re.search(";$", s)] finds something when [s] ends in a semicolon,
    a final newline apart. *)
Lemma search_semicolon_at_end (s : string) :
  forall i, found (search_from semicolon_at_end i s) = ends_with_semicolon s.
Proof.
  induction s as [|c s IH]; intros i; [reflexivity|].
  cbn [search_from ends_with_semicolon].
  unfold match_at, semicolon_at_end. cbn [run andb].
  destruct (c =? ";")%char; cbn [andb orb].
  - destruct s as [|x [|y s]].
    + reflexivity.
    + unfold nl. destruct (Ascii.eqb_spec x newline) as [->|Hx].
      * reflexivity.
      * replace (String x "" =? String newline "")%string with false.
        -- apply IH.
        -- symmetry. apply String.eqb_neq. congruence.
    + replace (String x (String y s) =? "")%string with false by reflexivity.
      replace (String x (String y s) =? nl)%string with false.
      * apply IH.
      * symmetry. apply String.eqb_neq. unfold nl. congruence.
  - apply IH.
Qed.

(** What [semicolon_check] looks at: the text before the first [#],
    without the spaces at its end. *)
Lemma semicolon_check_spec (ln : Z) (line : string) :
  semicolon_check ln line
  = Ok (if ends_with_semicolon (rstrip_spaces (before_hash line))
        then Some (ln, "S003 Unnecessary semicolon after a statement")
        else None).
Proof.
  unfold semicolon_check, sub_empty, spans, re_search.
  rewrite sub_comment_to_end by lia.
  rewrite search_semicolon_at_end.
  destruct (ends_with_semicolon _); reflexivity.
Qed.

Lemma lacks_append (c : ascii) (s t : string) :
  lacks c (s ++ t) = lacks c s && lacks c t.
Proof.
  induction s as [|x s IH]; simpl; [reflexivity|].
  rewrite IH, andb_assoc. reflexivity.
Qed.

Lemma lacks_indent (c : ascii) (n : nat) :
  (c =? " ")%char = false -> lacks c (indent n) = true.
Proof.
  intros H. induction n as [|n IH]; [reflexivity|].
  change (indent (S n)) with (String " " (indent n)). cbn [lacks].
  rewrite Ascii.eqb_sym, H, IH. reflexivity.
Qed.

Lemma no_hash_lacks (s : string) : no_hash s = lacks "#" s.
Proof. induction s as [|c s IH]; simpl; [|rewrite IH]; reflexivity. Qed.

Lemma before_hash_lacks (s : string) :
  lacks "#" s = true -> before_hash s = s.
Proof.
  induction s as [|c s IH]; simpl; [reflexivity|].
  intros H. apply andb_true_iff in H. destruct H as [Hc Hs].
  apply negb_true_iff in Hc. rewrite Hc, IH by exact Hs. reflexivity.
Qed.

Lemma before_hash_append (s t : string) :
  lacks "#" s = true -> before_hash (s ++ String "#" t) = s.
Proof.
  induction s as [|c s IH]; simpl; [reflexivity|].
  intros H. apply andb_true_iff in H. destruct H as [Hc Hs].
  apply negb_true_iff in Hc. rewrite Hc, IH by exact Hs. reflexivity.
Qed.

Lemma rstrip_indent (n : nat) : rstrip_spaces (indent n) = EmptyString.
Proof.
  induction n as [|n IH]; [reflexivity|].
  change (indent (S n)) with (String " " (indent n)).
  cbn [rstrip_spaces]. rewrite IH. reflexivity.
Qed.

Lemma rstrip_append_indent (s : string) (n : nat) :
  rstrip_spaces (s ++ indent n) = rstrip_spaces s.
Proof.
  induction s as [|c s IH]; [apply rstrip_indent|].
  simpl. rewrite IH. reflexivity.
Qed.

Lemma rstrip_ends_other (s : string) (c : ascii) :
  (c =? " ")%char = false ->
  rstrip_spaces (s ++ String c EmptyString) = s ++ String c EmptyString.
Proof.
  intros Hc. induction s as [|x s IH]; simpl.
  - rewrite Hc. reflexivity.
  - rewrite IH. destruct s; reflexivity.
Qed.

Lemma ends_with_semicolon_append (s t : string) :
  ends_with_semicolon t = true -> ends_with_semicolon (s ++ t) = true.
Proof.
  intros H. induction s as [|c s IH]; [exact H|].
  simpl. rewrite IH. apply orb_true_r.
Qed.

Lemma ends_with_semicolon_lacks (s : string) :
  lacks ";" s = true -> ends_with_semicolon s = false.
Proof.
  induction s as [|c s IH]; simpl; [reflexivity|].
  intros H. apply andb_true_iff in H. destruct H as [Hc Hs].
  apply negb_true_iff in Hc. rewrite Hc, IH by exact Hs. reflexivity.
Qed.

Lemma lacks_rstrip (c : ascii) (s : string) :
  lacks c s = true -> lacks c (rstrip_spaces s) = true.
Proof.
  induction s as [|x s IH]; simpl; [reflexivity|].
  intros H. apply andb_true_iff in H. destruct H as [Hx Hs].
  specialize (IH Hs).
  destruct (rstrip_spaces s) as [|y t].
  - destruct (x =? " ")%char; simpl; [reflexivity|].
    rewrite Hx. reflexivity.
  - cbn [lacks] in *. rewrite Hx, IH. reflexivity.
Qed.

(** A semicolon that more than one character follows does not end the
    text. *)
Lemma ends_with_semicolon_long (s t : string) :
  (2 <= String.length t)%nat ->
  ends_with_semicolon (s ++ t) = ends_with_semicolon t.
Proof.
  intros Ht. induction s as [|c s IH]; [reflexivity|].
  simpl. rewrite IH.
  assert (Hlen : (2 <= String.length (s ++ t))%nat)
    by (rewrite str_length_append; lia).
  destruct (s ++ t) as [|x [|y u]]; simpl in Hlen; try lia.
  replace (String x (String y u) =? nl)%string with false
    by (symmetry; apply String.eqb_neq; unfold nl; congruence).
  simpl. rewrite andb_false_r. reflexivity.
Qed.

(** X2: a semicolon at the end of the code of a line is reported as S003
    when a comment follows it, after any number of spaces, when the
    newline follows it, and when it ends the file, after any number of
    spaces; the code is the text before the first [#]. *)
Theorem X2_semicolon_reported (ln : Z) (code comment : string) (n : nat) :
  no_hash code = true ->
  let reported :=
    Ok (Some (ln, "S003 Unnecessary semicolon after a statement")) in
  semicolon_check ln (code ++ ";" ++ indent n ++ "#" ++ comment) = reported
  /\ semicolon_check ln (code ++ ";" ++ nl) = reported
  /\ semicolon_check ln (code ++ ";" ++ indent n) = reported.
Proof.
  intros Hcode reported. rewrite no_hash_lacks in Hcode.
  assert (Hend : ends_with_semicolon (code ++ ";") = true).
  { apply ends_with_semicolon_append. reflexivity. }
  assert (Hstrip : rstrip_spaces ((code ++ ";") ++ indent n) = code ++ ";").
  { rewrite rstrip_append_indent. apply rstrip_ends_other. reflexivity. }
  repeat split; rewrite semicolon_check_spec.
  - replace (code ++ ";" ++ indent n ++ "#" ++ comment)
      with (((code ++ ";") ++ indent n) ++ String "#" comment)
      by (rewrite !str_append_assoc; reflexivity).
    rewrite before_hash_append.
    + rewrite Hstrip, Hend. reflexivity.
    + rewrite !lacks_append, Hcode, lacks_indent by reflexivity. reflexivity.
  - rewrite before_hash_lacks
      by (rewrite !lacks_append, Hcode; reflexivity).
    replace (code ++ ";" ++ nl) with ((code ++ ";") ++ nl)
      by (rewrite !str_append_assoc; reflexivity).
    unfold nl. rewrite rstrip_ends_other by reflexivity.
    rewrite str_append_assoc.
    rewrite ends_with_semicolon_append; reflexivity.
  - rewrite before_hash_lacks
      by (rewrite !lacks_append, Hcode, lacks_indent by reflexivity;
          reflexivity).
    replace (code ++ ";" ++ indent n) with ((code ++ ";") ++ indent n)
      by (rewrite !str_append_assoc; reflexivity).
    rewrite Hstrip, Hend. reflexivity.
Qed.

Lemma X2_semicolon_reported_witness :
  no_hash "x = 1" = true
  /\ semicolon_check 3 ("x = 1" ++ ";" ++ indent 2 ++ "#" ++ " TODO fix")
     = Ok (Some (3, "S003 Unnecessary semicolon after a statement")).
Proof.
  split; [reflexivity|].
  apply (X2_semicolon_reported 3 "x = 1" " TODO fix" 2). reflexivity.
Defined.

(** X3: a line whose code, the text before its first [#], holds no
    semicolon is never reported as S003, whatever its comment holds. *)
Theorem X3_semicolon_in_comment (ln : Z) (line : string) :
  lacks ";" (before_hash line) = true ->
  semicolon_check ln line = Ok None.
Proof.
  intros H. rewrite semicolon_check_spec.
  rewrite ends_with_semicolon_lacks; [reflexivity|].
  apply lacks_rstrip, H.
Qed.

Lemma X3_semicolon_in_comment_witness :
  lacks ";" (before_hash ("x = 1  # a; b;" ++ nl)) = true
  /\ semicolon_check 1 ("x = 1  # a; b;" ++ nl) = Ok None.
Proof.
  split; [reflexivity|].
  apply (X3_semicolon_in_comment 1 ("x = 1  # a; b;" ++ nl)). reflexivity.
Defined.

(** X4: spaces between a final semicolon and the newline hide it: the
    line is not reported, since [rstrip(" ")] stops at the newline. *)
Theorem X4_semicolon_hidden (ln : Z) (code : string) (n : nat) :
  no_hash code = true ->
  semicolon_check ln (code ++ ";" ++ indent (S n) ++ nl) = Ok None.
Proof.
  intros Hcode. rewrite no_hash_lacks in Hcode.
  rewrite semicolon_check_spec.
  rewrite before_hash_lacks
    by (rewrite !lacks_append, Hcode, lacks_indent by reflexivity;
        reflexivity).
  replace (code ++ ";" ++ indent (S n) ++ nl)
    with ((code ++ ";" ++ indent (S n)) ++ nl)
    by (rewrite !str_append_assoc; reflexivity).
  unfold nl at 1. rewrite rstrip_ends_other by reflexivity.
  fold nl.
  replace ((code ++ ";" ++ indent (S n)) ++ nl)
    with ((code ++ ";") ++ indent (S n) ++ nl)
    by (rewrite !str_append_assoc; reflexivity).
  rewrite ends_with_semicolon_long.
  - rewrite ends_with_semicolon_lacks; [reflexivity|].
    rewrite lacks_append, lacks_indent by reflexivity. reflexivity.
  - rewrite str_length_append. simpl. lia.
Qed.

Lemma X4_semicolon_hidden_witness :
  no_hash "x = 1" = true
  /\ semicolon_check 1 ("x = 1" ++ ";" ++ indent 2 ++ nl) = Ok None.
Proof.
  split; [reflexivity|].
  apply (X4_semicolon_hidden 1 "x = 1" 1). reflexivity.
Defined.

(** ** TODO *)

(** The letters of TODO, in any case, as the pattern reads them. *)
Lemma todo_letters_run (i : nat) (s : string) :
  matched
    (run (Seq (LitI "T") (Seq (LitI "O") (Seq (LitI "D") (LitI "O")))) nat i s
       (fun j _ => Some j))
  = todo_here s.
Proof.
  unfold todo_here, LitI. cbn [run].
  change (to_lower "T") with "t"%char. change (to_lower "O") with "o"%char.
  change (to_lower "D") with "d"%char.
  destruct s as [|a [|b [|c [|d s]]]]; try reflexivity;
    repeat match goal with
           | |- context [(to_lower ?x =? ?y)%char] =>
               destruct (to_lower x =? y)%char
           end; reflexivity.
Qed.

Lemma star_dot_todo (k : nat -> string -> option nat) (s : string) :
  (forall j t, matched (k j t) = todo_here t) ->
  forall i, matched (star dot nat i s k) = todo_ahead s.
Proof.
  intros Hk. induction s as [|c s IH]; intros i.
  - simpl. rewrite Hk. reflexivity.
  - cbn [star].
    change (todo_ahead (String c s))
      with (todo_here (String c s) || (dot c && todo_ahead s)).
    rewrite <- (IH (S i)), <- (Hk i (String c s)).
    destruct (dot c); [|rewrite orb_false_r; reflexivity].
    destruct (star dot nat (S i) s k); simpl.
    + rewrite orb_true_r. reflexivity.
    + rewrite orb_false_r. reflexivity.
Qed.

Lemma search_hash_todo (s : string) :
  forall i, found (search_from hash_todo i s) = hash_then_todo s.
Proof.
  induction s as [|c s IH]; intros i; [reflexivity|].
  cbn [search_from hash_then_todo].
  unfold match_at, hash_todo. cbn [run andb].
  destruct (c =? "#")%char; cbn [andb orb]; [|apply IH].
  pose proof (star_dot_todo _ s (fun j t => todo_letters_run j t) (S i)) as H.
  destruct (star dot nat (S i) s _) as [x|]; simpl in H; rewrite <- H.
  - reflexivity.
  - apply IH.
Qed.

Lemma todo_check_spec (ln : Z) (line : string) :
  todo_check ln line
  = Ok (if hash_then_todo line then Some (ln, "S005 TODO found") else None).
Proof.
  unfold todo_check, re_search. rewrite search_hash_todo.
  destruct (hash_then_todo line); reflexivity.
Qed.

Lemma hash_then_todo_code (code rest : string) :
  lacks "#" code = true ->
  hash_then_todo (code ++ rest) = hash_then_todo rest.
Proof.
  induction code as [|c code IH]; simpl; [reflexivity|].
  intros H. apply andb_true_iff in H. destruct H as [Hc H].
  apply negb_true_iff in Hc. rewrite Hc, IH by exact H. reflexivity.
Qed.

Lemma hash_then_todo_lacks (s : string) :
  lacks "#" s = true -> hash_then_todo s = false.
Proof.
  induction s as [|c s IH]; simpl; [reflexivity|].
  intros H. apply andb_true_iff in H. destruct H as [Hc H].
  apply negb_true_iff in Hc. rewrite Hc, IH by exact H. reflexivity.
Qed.

Lemma hash_then_todo_prefix (pre rest : string) :
  hash_then_todo rest = true -> hash_then_todo (pre ++ rest) = true.
Proof.
  intros H. induction pre as [|c pre IH]; [exact H|].
  simpl. rewrite IH. apply orb_true_r.
Qed.

Lemma todo_ahead_after (mid rest : string) :
  no_newline mid = true -> todo_here rest = true ->
  todo_ahead (mid ++ rest) = true.
Proof.
  intros Hmid Hrest. induction mid as [|c mid IH].
  - destruct rest; simpl in *; [discriminate|]. rewrite Hrest. reflexivity.
  - simpl in Hmid. apply andb_true_iff in Hmid. destruct Hmid as [Hc Hmid].
    change (todo_ahead (String c mid ++ rest))
      with (todo_here (String c (mid ++ rest))
            || (dot c && todo_ahead (mid ++ rest))).
    unfold dot. rewrite Hc, IH by exact Hmid. apply orb_true_r.
Qed.

(** X5: only the comment counts for S005: a line without [#] is never
    reported, whatever it holds, and the code before the first [#] of a
    line changes nothing to what is reported. *)
Theorem X5_todo_outside_comment (ln : Z) (code comment : string) :
  no_hash code = true ->
  todo_check ln code = Ok None
  /\ todo_check ln (code ++ "#" ++ comment) = todo_check ln ("#" ++ comment).
Proof.
  intros H. rewrite no_hash_lacks in H. rewrite !todo_check_spec. split.
  - rewrite hash_then_todo_lacks by exact H. reflexivity.
  - rewrite hash_then_todo_code by exact H. reflexivity.
Qed.

Lemma X5_todo_outside_comment_witness :
  no_hash "TODO = 1" = true
  /\ todo_check 1 "TODO = 1" = Ok None
  /\ todo_check 1 ("TODO = 1" ++ "#" ++ " set") = todo_check 1 ("#" ++ " set").
Proof.
  split; [reflexivity|].
  apply (X5_todo_outside_comment 1 "TODO = 1" " set"). reflexivity.
Defined.

(** X6: a line is reported as S005 when the letters of TODO, each in
    either case, come after a [#] of the line, anything but a newline
    between the two. *)
Theorem X6_todo_any_case (ln : Z) (pre mid post : string) (a b c d : ascii) :
  to_lower a = "t"%char -> to_lower b = "o"%char ->
  to_lower c = "d"%char -> to_lower d = "o"%char ->
  no_newline mid = true ->
  todo_check ln
    (pre ++ "#" ++ mid ++ String a (String b (String c (String d post))))
  = Ok (Some (ln, "S005 TODO found")).
Proof.
  intros Ha Hb Hc Hd Hmid. rewrite todo_check_spec.
  rewrite hash_then_todo_prefix; [reflexivity|].
  change ("#" ++ mid ++ String a (String b (String c (String d post))))
    with (String "#" (mid ++ String a (String b (String c (String d post))))).
  cbn [hash_then_todo]. rewrite todo_ahead_after; [reflexivity | exact Hmid|].
  unfold todo_here. rewrite Ha, Hb, Hc, Hd. reflexivity.
Qed.

Lemma X6_todo_any_case_witness :
  todo_check 2 ("x = 1  " ++ "#" ++ " later: " ++ "ToDo!" ++ nl)
  = Ok (Some (2, "S005 TODO found")).
Proof.
  apply (X6_todo_any_case 2 "x = 1  " " later: " ("!" ++ nl) "T" "o" "D" "o");
    reflexivity.
Defined.

(** ** Class names *)

Lemma star_word_run (w : string) :
  forall (t : string) (i : nat),
  all_chars is_word w = true -> starts_with_word t = false ->
  star is_word nat i (w ++ t) (fun j _ => Some j)
  = Some (i + String.length w)%nat.
Proof.
  induction w as [|c w IH]; intros t i Hw Ht.
  - simpl. rewrite Nat.add_0_r. destruct t as [|x t]; [reflexivity|].
    simpl in Ht. cbn [star]. rewrite Ht. reflexivity.
  - simpl in Hw. apply andb_true_iff in Hw. destruct Hw as [Hc Hw].
    cbn [append star String.length]. rewrite Hc, (IH t (S i) Hw Ht).
    f_equal. lia.
Qed.

Lemma is_word_not_space (c : ascii) :
  is_word c = true -> (c =? " ")%char = false.
Proof.
  intros H. destruct (Ascii.eqb_spec c " "%char) as [->|];
    [discriminate H | reflexivity].
Qed.

(** At a word that does not start at a space, [(?! )\w*] takes the whole
    word; at a space it matches nothing. *)
Lemma word_match (c : ascii) (w t : string) (i : nat) :
  all_chars is_word (String c w) = true -> starts_with_word t = false ->
  match_at word_not_at_space i (String c w ++ t) false
  = Some (i + String.length (String c w))%nat.
Proof.
  intros Hw Ht. unfold match_at, word_not_at_space. cbn [run append].
  pose proof Hw as Hc. simpl in Hc. apply andb_true_iff in Hc.
  destruct Hc as [Hc _]. rewrite (is_word_not_space c Hc).
  apply (star_word_run (String c w) t i Hw Ht).
Qed.

Lemma word_match_space (s : string) (i : nat) (b : bool) :
  match_at word_not_at_space i (String " " s) b = None.
Proof. reflexivity. Qed.

Lemma spans_from_skip (r : regex) (u : string) :
  forall (t : string) (i resume : nat),
  (i + String.length u <= resume)%nat ->
  spans_from r i resume (u ++ t)
  = spans_from r (i + String.length u) resume t.
Proof.
  induction u as [|c u IH]; intros t i resume Hle.
  - simpl. rewrite Nat.add_0_r. reflexivity.
  - simpl in Hle. cbn [append spans_from].
    replace (i <? resume)%nat with true by (symmetry; apply Nat.ltb_lt; lia).
    rewrite IH by lia. f_equal. simpl. lia.
Qed.

Lemma spans_from_spaces (n : nat) :
  forall (t : string) (i resume : nat),
  (resume <= i)%nat ->
  spans_from word_not_at_space i resume (indent n ++ t)
  = spans_from word_not_at_space (i + n) resume t.
Proof.
  induction n as [|n IH]; intros t i resume Hle.
  - simpl. rewrite Nat.add_0_r. reflexivity.
  - change (indent (S n) ++ t) with (String " " (indent n ++ t)).
    cbn [spans_from].
    replace (i <? resume)%nat with false by (symmetry; apply Nat.ltb_ge; lia).
    rewrite word_match_space, IH by lia. f_equal. lia.
Qed.

(** The second item of [findall] on a class line is the word after
    [class] and its spaces. *)
Lemma findall_class_name (n : nat) (c : ascii) (name rest : string) :
  all_chars is_word (String c name) = true -> starts_with_word rest = false ->
  index (findall word_not_at_space
           ("class" ++ indent (S n) ++ String c name ++ rest)) 1
  = Ok (String c name).
Proof.
  intros Hname Hrest. unfold findall, spans.
  set (line := "class" ++ indent (S n) ++ String c name ++ rest).
  assert (H1 : match_at word_not_at_space 0 line false = Some 5%nat).
  { apply (word_match "c" "lass" (indent (S n) ++ String c name ++ rest) 0);
      reflexivity. }
  change line with (String "c" ("lass" ++ indent (S n) ++ String c name ++ rest)).
  cbn [spans_from Nat.ltb Nat.leb].
  change (String "c" ("lass" ++ indent (S n) ++ String c name ++ rest))
    with line.
  rewrite H1. cbn [Nat.eqb].
  rewrite (spans_from_skip word_not_at_space "lass") by (simpl; lia).
  rewrite spans_from_spaces by (simpl; lia).
  cbn [String.length Nat.add].
  set (b := S (S (S (S (S (S n)))))).
  assert (H2 : match_at word_not_at_space b (String c name ++ rest) false
               = Some (b + String.length (String c name))%nat)
    by (apply word_match; assumption).
  change (String c name ++ rest) with (String c (name ++ rest)) in *.
  cbn [spans_from].
  replace (b <? 5)%nat with false
    by (symmetry; apply Nat.ltb_ge; unfold b; lia).
  rewrite H2.
  replace (b + String.length (String c name) =? b)%nat with false
    by (symmetry; apply Nat.eqb_neq; simpl; lia).
  cbn [map index nth_error]. unfold slice. cbn [fst snd].
  replace (b + String.length (String c name) - b)%nat
    with (String.length (String c name)) by lia.
  unfold line.
  replace ("class" ++ indent (S n) ++ String c (name ++ rest))
    with (("class" ++ indent (S n)) ++ String c name ++ rest)
    by (rewrite str_append_assoc; reflexivity).
  replace b with (String.length ("class" ++ indent (S n))).
  - rewrite substring_skip, substring_prefix. reflexivity.
  - rewrite str_length_append. unfold b.
    assert (Hn : forall k, String.length (indent k) = k).
    { clear. unfold indent. induction k as [|k IH]; simpl; congruence. }
    rewrite Hn. simpl. lia.
Qed.

Lemma class_start_matches (rest : string) :
  matched (re_match class_start ("class" ++ rest)) = true.
Proof. reflexivity. Qed.

(** X7: on a line that starts with [class], one space or more and a
    word, the name checked is that word without its [__] marks at either
    end: the line is reported as S008, under that name, exactly when the
    name does not match [^[A-Z][A-Za-z]*$]. *)
Theorem X7_class_name (ln : Z) (n : nat) (c : ascii) (name rest : string) :
  all_chars is_word (String c name) = true -> starts_with_word rest = false ->
  class_case_check ln ("class" ++ indent (S n) ++ String c name ++ rest)
  = Ok (if matched (re_match camel_case
                      (sub_empty dunder_marks (String c name)))
        then None
        else Some (ln, "S008 Class name "
                       ++ sub_empty dunder_marks (String c name)
                       ++ " should use CamelCase")).
Proof.
  intros Hname Hrest. unfold class_case_check.
  rewrite class_start_matches, findall_class_name by assumption.
  cbn [bind]. destruct (matched _); reflexivity.
Qed.

Lemma X7_class_name_witness :
  class_case_check 4 ("class" ++ indent 2 ++ "__my_class__" ++ "(Base):" ++ nl)
  = Ok (Some (4, "S008 Class name my_class should use CamelCase")).
Proof.
  apply (X7_class_name 4 1 "_" "_my_class__" ("(Base):" ++ nl)); reflexivity.
Defined.

Lemma dunder_marks_needs_underscore (i : nat) (s : string) (b : bool) :
  lacks "_" s = true -> match_at dunder_marks i s b = None.
Proof.
  unfold match_at, dunder_marks. cbn [run Str].
  destruct s as [|c s]; simpl.
  - destruct (i =? 0)%nat; reflexivity.
  - intros H. apply andb_true_iff in H. destruct H as [Hc _].
    apply negb_true_iff in Hc. rewrite Hc.
    destruct (i =? 0)%nat; reflexivity.
Qed.

Lemma spans_dunder_none (s : string) :
  forall i resume, lacks "_" s = true ->
                   spans_from dunder_marks i resume s = [].
Proof.
  induction s as [|c s IH]; intros i resume H.
  - cbn [spans_from]. rewrite dunder_marks_needs_underscore by exact H.
    destruct (i <? resume)%nat; reflexivity.
  - cbn [spans_from]. rewrite dunder_marks_needs_underscore by exact H.
    simpl in H. apply andb_true_iff in H. destruct H as [_ H].
    destruct (i <? resume)%nat; apply IH; exact H.
Qed.

Lemma delete_no_spans (s : string) : forall i, delete_spans [] i s = s.
Proof.
  induction s as [|c s IH]; intros i; simpl; [|rewrite IH]; reflexivity.
Qed.

Lemma letters_lack_underscore (s : string) :
  all_chars is_letter s = true -> lacks "_" s = true.
Proof.
  induction s as [|c s IH]; simpl; [reflexivity|].
  intros H. apply andb_true_iff in H. destruct H as [Hc H].
  rewrite IH by exact H.
  destruct (Ascii.eqb_spec c "_"%char) as [->|]; [discriminate Hc|reflexivity].
Qed.

Lemma letters_are_words (s : string) :
  all_chars is_letter s = true -> all_chars is_word s = true.
Proof.
  induction s as [|c s IH]; simpl; [reflexivity|].
  intros H. apply andb_true_iff in H. destruct H as [Hc H].
  rewrite IH by exact H. unfold is_letter in Hc. unfold is_word.
  apply orb_true_iff in Hc. destruct Hc as [Hc|Hc];
    unfold is_upper, is_lower in Hc; rewrite Hc; simpl;
    rewrite ?orb_true_r; reflexivity.
Qed.

Lemma star_all_eol (p : ascii -> bool) (s : string) :
  forall i, all_chars p s = true ->
            star p nat i s (fun j t => run Eol nat j t (fun j' _ => Some j'))
            <> None.
Proof.
  induction s as [|c s IH]; intros i H; [discriminate|].
  simpl in H. apply andb_true_iff in H. destruct H as [Hc H].
  cbn [star]. rewrite Hc. specialize (IH (S i) H).
  destruct (star p nat (S i) s _); [discriminate | congruence].
Qed.

(** X8: a class whose name is an upper-case letter followed by letters
    only is never reported as S008. *)
Theorem X8_camel_case_accepted (ln : Z) (n : nat) (c : ascii)
    (name rest : string) :
  is_upper c = true -> all_chars is_letter name = true ->
  starts_with_word rest = false ->
  class_case_check ln ("class" ++ indent (S n) ++ String c name ++ rest)
  = Ok None.
Proof.
  intros Hc Hname Hrest.
  assert (Hletters : all_chars is_letter (String c name) = true).
  { simpl. unfold is_letter at 1. rewrite Hc, Hname. reflexivity. }
  unfold class_case_check.
  rewrite class_start_matches, findall_class_name;
    [|apply letters_are_words, Hletters | exact Hrest].
  cbn [bind]. unfold sub_empty, spans.
  rewrite spans_dunder_none, delete_no_spans
    by (apply letters_lack_underscore, Hletters).
  replace (matched (re_match camel_case (String c name))) with true;
    [reflexivity|].
  unfold re_match, match_at, camel_case. cbn [run Nat.eqb].
  rewrite Hc. cbn [andb].
  pose proof (star_all_eol is_letter name 1 Hname) as H.
  destruct (star is_letter nat 1 name _); [reflexivity | congruence].
Qed.

Lemma X8_camel_case_accepted_witness :
  class_case_check 1 ("class" ++ indent 1 ++ "MyClass" ++ ":" ++ nl) = Ok None.
Proof.
  apply (X8_camel_case_accepted 1 0 "M" "yClass" (":" ++ nl)); reflexivity.
Defined.

(** X9: the rule reads only a line that starts with [class] in its first
    column, and it skips only spaces after it: an indented class line is
    never reported, and a class line with a tab, or any other character
    that is neither a space nor a word character, right after [class] is
    reported under the empty name. *)
Theorem X9_class_line_edges (ln : Z) (c : ascii) (line rest : string) :
  is_word c = false -> (c =? " ")%char = false ->
  class_case_check ln (" " ++ line) = Ok None
  /\ class_case_check ln ("class" ++ String c rest)
     = Ok (Some (ln, "S008 Class name  should use CamelCase")).
Proof.
  intros Hw Hs. split; [reflexivity|].
  unfold class_case_check. rewrite class_start_matches.
  unfold findall, spans.
  assert (H1 : match_at word_not_at_space 0 ("class" ++ String c rest) false
               = Some 5%nat).
  { apply (word_match "c" "lass" (String c rest) 0); [reflexivity|].
    exact Hw. }
  change ("class" ++ String c rest) with (String "c" ("lass" ++ String c rest)).
  cbn [spans_from Nat.ltb Nat.leb].
  change (String "c" ("lass" ++ String c rest))
    with ("class" ++ String c rest).
  rewrite H1. cbn [Nat.eqb].
  rewrite (spans_from_skip word_not_at_space "lass") by (simpl; lia).
  cbn [String.length Nat.add spans_from Nat.ltb Nat.leb].
  assert (H2 : match_at word_not_at_space 5 (String c rest) false = Some 5%nat).
  { unfold match_at, word_not_at_space. cbn [run star]. rewrite Hs, Hw.
    reflexivity. }
  rewrite H2. cbn [Nat.eqb map index nth_error].
  unfold slice. cbn [fst snd Nat.sub].
  replace (substring 5 0 ("class" ++ String c rest)) with EmptyString
    by (destruct rest; reflexivity).
  reflexivity.
Qed.

Lemma X9_class_line_edges_witness :
  class_case_check 1 (" " ++ "   class my_class:" ++ nl) = Ok None
  /\ class_case_check 1 ("class" ++ String "009" ("MyClass:" ++ nl))
     = Ok (Some (1, "S008 Class name  should use CamelCase")).
Proof.
  apply (X9_class_line_edges 1 "009" ("   class my_class:" ++ nl)
           ("MyClass:" ++ nl)); reflexivity.
Defined.

(** * Further properties of the syntax-tree pass *)

Lemma not_matched_iff (m : option nat) : negb (matched m) = true <-> m = None.
Proof. destruct m; simpl; split; congruence. Qed.

Lemma function_writes_In (name : string) (lineno ln : Z) (msg : string) :
  In (ln, msg) (function_writes name lineno) <->
  ln = lineno /\ re_match snake_case name = None /\ msg = S009_message name.
Proof.
  unfold function_writes.
  destruct (negb (matched (re_match snake_case name))) eqn:E.
  - apply not_matched_iff in E. simpl. split.
    + intros [[= <- <-]|[]]. auto.
    + intros [-> [_ ->]]. auto.
  - split; [intros []|]. intros [_ [H _]].
    apply not_matched_iff in H. congruence.
Qed.

Lemma args_writes_In (args : list arg) (ln : Z) (msg : string) :
  In (ln, msg) (args_writes args) <->
  exists name ann,
    In (Arg name ann ln) args /\ re_match snake_case name = None
    /\ msg = S010_message name.
Proof.
  unfold args_writes. rewrite in_flat_map. split.
  - intros [[name ann l] [Hin Hw]]. simpl in Hw.
    destruct (negb (matched (re_match snake_case name))) eqn:E;
      [|destruct Hw].
    apply not_matched_iff in E. destruct Hw as [[= <- <-]|[]]. eauto.
  - intros [name [ann [Hin [Hno ->]]]].
    exists (Arg name ann ln). split; [exact Hin|]. simpl.
    apply not_matched_iff in Hno. rewrite Hno. left. reflexivity.
Qed.

Lemma defaults_writes_In (defaults : list node) (ln : Z) (msg : string) :
  In (ln, msg) (defaults_writes defaults) <->
  exists pre d post,
    defaults = (pre ++ d :: post)%list
    /\ Forall (fun x => mutable_literal x = None) pre
    /\ mutable_literal d = Some ln /\ msg = S012_message.
Proof.
  induction defaults as [|x ds IH]; simpl.
  - split; [intros []|]. intros [pre [d [post [H _]]]].
    destruct pre; discriminate H.
  - destruct (mutable_literal x) as [l|] eqn:E.
    + split.
      * intros [[= <- <-]|[]]. exists [], x, ds. auto.
      * intros [pre [d [post [Heq [Hpre [Hd ->]]]]]].
        destruct pre as [|y pre]; simpl in Heq; inversion Heq; subst.
        -- left. congruence.
        -- inversion Hpre; congruence.
    + rewrite IH. split.
      * intros [pre [d [post [-> [Hpre [Hd ->]]]]]].
        exists (x :: pre), d, post. auto.
      * intros [pre [d [post [Heq [Hpre [Hd ->]]]]]].
        destruct pre as [|y pre]; simpl in Heq; inversion Heq; subst.
        -- congruence.
        -- inversion Hpre; subst. exists pre, d, post. auto.
Qed.

Lemma variable_writes_In (targets : list node) (lineno ln : Z) (msg : string)
    (w : list diagnostic) :
  variable_writes targets lineno = Ok w ->
  In (ln, msg) w <->
  ln = lineno /\ exists id ctx l rest,
    targets = Name id ctx l :: rest /\ re_match snake_case id = None
    /\ msg = S011_message id.
Proof.
  unfold variable_writes. destruct targets as [|t rest]; [discriminate|].
  destruct t as [? ? ? ? ? ?|? ? ? ? ? ?|? ? ?|? ? ?|id0 ctx0 l0|? ? ?|? ?
                 |? ? ?|?];
    try (intros [= <-]; split;
         [intros [] | intros [_ [id [ctx [l [r [H _]]]]]]; discriminate H]).
  destruct (negb (matched (re_match snake_case id0))) eqn:E; intros [= <-].
  - apply not_matched_iff in E. simpl. split.
    + intros [[= <- <-]|[]]. split; [reflexivity|].
      exists id0, ctx0, l0, rest. auto.
    + intros [-> [id' [ctx' [l' [r' [Heq [_ ->]]]]]]].
      inversion Heq; subst. auto.
  - split; [intros []|].
    intros [_ [id' [ctx' [l' [r' [Heq [Hno _]]]]]]].
    inversion Heq; subst. apply not_matched_iff in Hno. congruence.
Qed.

Lemma all_writes_In (objs : list ast_obj) (ws : list diagnostic)
    (x : diagnostic) :
  all_writes objs = Ok ws ->
  In x ws <-> exists o w, In o objs /\ node_writes o = Ok w /\ In x w.
Proof.
  revert ws. induction objs as [|o objs IH]; intros ws H.
  - inversion H; subst ws. split; [intros []|]. intros [o [w [[] _]]].
  - cbn [all_writes] in H.
    apply bind_ok in H. destruct H as [w [Hw H]].
    apply bind_ok in H. destruct H as [ws' [Hws' Heq]].
    inversion Heq; subst ws. rewrite in_app_iff, (IH ws' Hws'). split.
    + intros [Hin|[o' [w' [Hin [Hw' Hx]]]]].
      * exists o, w. simpl. auto.
      * exists o', w'. simpl. auto.
    + intros [o' [w' [[<-|Hin] [Hw' Hx]]]].
      * left. congruence.
      * right. eauto.
Qed.

(** The assignments of the pass are those that have a cause in the
    tree. *)
Lemma writes_iff_causes (tree : node) (ws : list diagnostic) (ln : Z)
    (msg : string) :
  ast_writes tree = Ok ws -> In (ln, msg) ws <-> cause tree ln msg.
Proof.
  intros Hws. rewrite ast_writes_all in Hws.
    rewrite (all_writes_In _ _ (ln, msg) Hws). unfold cause. split.
    - intros [o [w [Hin [Hw Hx]]]].
      destruct o as [n|[posonly args vararg kwonly kwd kwarg defaults]|a].
      + destruct n as [name a body decs ret lno|? ? ? ? ? ?|? ? ?
                       |targets value lno|? ? ?|? ? ?|? ?|? ? ?|?];
          simpl in Hw; try (inversion Hw; subst w; destruct Hx; fail).
        * inversion Hw; subst w. apply function_writes_In in Hx.
          destruct Hx as [-> [Hno ->]]. left.
          exists name, a, body, decs, ret. auto.
        * apply (variable_writes_In _ _ ln msg _ Hw) in Hx.
          destruct Hx as [-> [id [ctx [l [rest [-> [Hno ->]]]]]]].
          right. right. right. exists id, ctx, l, rest, value. auto.
      + simpl in Hw. inversion Hw; subst w. apply in_app_or in Hx.
        destruct Hx as [Hx|Hx].
        * apply args_writes_In in Hx.
          destruct Hx as [name [ann [Harg [Hno ->]]]]. right. left.
          exists posonly, args, vararg, kwonly, kwd, kwarg, defaults, name, ann.
          auto.
        * apply defaults_writes_In in Hx.
          destruct Hx as [pre [dv [post [-> [Hpre [Hdv ->]]]]]].
          right. right. left.
          exists posonly, args, vararg, kwonly, kwd, kwarg, pre, dv, post.
          auto.
      + destruct a. simpl in Hw. inversion Hw; subst w. destruct Hx.
    - intros [H|[H|[H|H]]].
      + destruct H as [name [a [body [decs [ret [Hin [Hno ->]]]]]]].
        eexists _, _. split; [exact Hin|]. split; [reflexivity|].
        apply function_writes_In. auto.
      + destruct H as [posonly [args [vararg [kwonly [kwd [kwarg [defaults
          [name [ann [Hin [Harg [Hno ->]]]]]]]]]]]].
        eexists _, _. split; [exact Hin|]. split; [reflexivity|].
        apply in_or_app. left. apply args_writes_In. eauto.
      + destruct H as [posonly [args [vararg [kwonly [kwd [kwarg [pre
          [dv [post [Hin [Hpre [Hdv ->]]]]]]]]]]]].
        eexists _, _. split; [exact Hin|]. split; [reflexivity|].
        apply in_or_app. right. apply defaults_writes_In.
        exists pre, dv, post. auto.
      + destruct H as [id [ctx [l [rest [value [Hin [Hno ->]]]]]]].
        eexists _, _. split; [exact Hin|]. simpl. apply not_matched_iff in Hno.
        rewrite Hno. split; [reflexivity|]. left. reflexivity.
Qed.





(** X10: the pass assigns a message to a line for the four causes of
    [cause] and for nothing else: every function definition, argument,
    first mutable default and assignment of the tree that is at fault is
    written down, and everything written down, hence everything
    [ast_checks] returns, comes from one of them. *)
Theorem X10_writes_have_causes (tree : node) (ws : list diagnostic)
    (d : dict string) :
  ast_writes tree = Ok ws -> ast_checks tree = Ok d ->
  (forall ln msg, In (ln, msg) ws <-> cause tree ln msg)
  /\ (forall ln msg, dict_get ln d = Some msg -> cause tree ln msg).
Proof.
  intros Hws Hd.
  assert (Hiff : forall ln msg, In (ln, msg) ws <-> cause tree ln msg)
    by (intros ln msg; apply writes_iff_causes, Hws).
  split; [exact Hiff|].
  intros ln msg Hget. apply Hiff.
  rewrite ast_checks_writes, Hws in Hd. cbn [bind] in Hd.
  inversion Hd; subst d. rewrite apply_dict_set_get in Hget.
  destruct (last_write ln ws) as [m|] eqn:E; [|discriminate].
  inversion Hget; subst m. apply last_write_In, E.
Qed.

Lemma X10_writes_have_causes_witness :
  ast_writes my_func_tree
  = Ok [(1, S009_message "myFunc"); (1, S010_message "X"); (1, S012_message)]
  /\ ast_checks my_func_tree = Ok [(1, S012_message)]
  /\ (forall ln msg,
        In (ln, msg)
           [(1, S009_message "myFunc"); (1, S010_message "X");
            (1, S012_message)]
        <-> cause my_func_tree ln msg)
  /\ (forall ln msg,
        dict_get ln [(1, S012_message)] = Some msg ->
        cause my_func_tree ln msg).
Proof.
  split; [reflexivity|]. split; [reflexivity|].
  apply (X10_writes_have_causes my_func_tree
           [(1, S009_message "myFunc"); (1, S010_message "X");
            (1, S012_message)]
           [(1, S012_message)]); reflexivity.
Defined.

Lemma all_writes_returns (objs : list ast_obj) :
  (exists ws, all_writes objs = Ok ws) <->
  (forall o, In o objs -> exists w, node_writes o = Ok w).
Proof.
  induction objs as [|o objs IH]; cbn [all_writes].
  - split; [intros _ o [] | eauto].
  - split.
    + intros [ws H]. apply bind_ok in H. destruct H as [w [Hw H]].
      apply bind_ok in H. destruct H as [ws' [Hws' _]].
      intros x [<-|Hx]; [eauto|]. apply IH; eauto.
    + intros H. destruct (H o (or_introl eq_refl)) as [w ->].
      destruct (proj2 IH (fun x Hx => H x (or_intror Hx))) as [ws' ->].
      simpl. eauto.
Qed.

Lemma all_writes_raises (objs : list ast_obj) (e : exn) :
  all_writes objs = Raise e -> e = IndexError.
Proof.
  induction objs as [|o objs IH]; cbn [all_writes]; [discriminate|].
  destruct (node_writes o) as [w|e'] eqn:Ew.
  - cbn [bind]. destruct (all_writes objs) as [ws|e'']; [discriminate|].
    simpl. intros [= <-]. apply IH. reflexivity.
  - simpl. intros [= <-].
    destruct o as [n|[]|[]]; try discriminate Ew.
    destruct n; try discriminate Ew. simpl in Ew. unfold variable_writes in Ew.
    destruct targets as [|t rest]; [congruence|].
    destruct t; try discriminate Ew.
    destruct (negb _); discriminate Ew.
Qed.

(** X11: [ast_checks] returns a dictionary if and only if no assignment
    of the tree has an empty list of targets (ast.parse builds none);
    otherwise the [IndexError] of [var.targets[0]], which nothing catches,
    goes through. *)
Theorem X11_ast_checks_returns (tree : node) :
  ((exists d, ast_checks tree = Ok d) <->
   (forall value ln, ~ In (ONode (Assign [] value ln)) (walk tree)))
  /\ (forall e, ast_checks tree = Raise e -> e = IndexError).
Proof.
  assert (Hnode : forall o,
             (exists w, node_writes o = Ok w) <->
             (forall value ln, o <> ONode (Assign [] value ln))).
  { intros o. split.
    - intros [w Hw] value ln ->. discriminate Hw.
    - intros H. destruct o as [n|[]|[]]; try (simpl; eauto; fail).
      destruct n; try (simpl; eauto; fail). simpl. unfold variable_writes.
      destruct targets as [|t rest]; [exfalso; eapply H; reflexivity|].
      destruct t; eauto. destruct (negb _); eauto. }
  split.
  - rewrite ast_checks_writes, ast_writes_all. split.
    + intros [d Hd] value ln Hin.
      apply bind_ok in Hd. destruct Hd as [ws [Hws _]].
      assert (Hall : exists ws, all_writes (walk tree) = Ok ws) by eauto.
      rewrite all_writes_returns in Hall. apply Hall in Hin.
      destruct Hin as [w Hw]. discriminate Hw.
    + intros H.
      assert (Hall : exists ws, all_writes (walk tree) = Ok ws).
      { apply all_writes_returns. intros o Hin. apply Hnode.
        intros value ln ->. eapply H. exact Hin. }
      destruct Hall as [ws ->]. simpl. eauto.
  - intros e. rewrite ast_checks_writes, ast_writes_all.
    destruct (all_writes (walk tree)) as [ws|e'] eqn:E; [discriminate|].
    simpl. intros [= <-]. eapply all_writes_raises. exact E.
Qed.

Lemma walk_loop_length (fuel : nat) :
  forall todo,
  (sum_sizes obj_size todo <= fuel)%nat ->
  List.length (walk_loop fuel todo) = sum_sizes obj_size todo.
Proof.
  induction fuel as [|fuel IH]; intros todo Hsize.
  - destruct todo as [|o rest]; [reflexivity|].
    pose proof (obj_size_pos o). rewrite sum_sizes_cons in Hsize. lia.
  - destruct todo as [|o rest]; [reflexivity|].
    cbn [walk_loop List.length]. rewrite sum_sizes_cons in *.
    pose proof (children_size o).
    rewrite IH; rewrite sum_sizes_app; lia.
Qed.

Lemma walk_loop_more (fuel : nat) :
  forall todo extra,
  (sum_sizes obj_size todo <= fuel)%nat ->
  walk_loop (fuel + extra) todo = walk_loop fuel todo.
Proof.
  induction fuel as [|fuel IH]; intros todo extra Hsize.
  - destruct todo as [|o rest]; [destruct extra; reflexivity|].
    pose proof (obj_size_pos o). rewrite sum_sizes_cons in Hsize. lia.
  - destruct todo as [|o rest]; [reflexivity|].
    cbn [walk_loop Nat.add]. rewrite sum_sizes_cons in Hsize.
    pose proof (children_size o).
    rewrite IH; [reflexivity|]. rewrite sum_sizes_app. lia.
Qed.

(** X12: the loop of the pass sees the objects of the tree and only
    them, as many as the tree has, and the queue of the walk is empty by
    then: any further turn would yield nothing. *)
Theorem X12_walk_is_complete (tree : node) :
  (forall o, In o (walk tree) <-> within (ONode tree) o)
  /\ List.length (walk tree) = node_size tree
  /\ (forall extra,
        walk_loop (node_size tree + extra) [ONode tree] = walk tree).
Proof.
  split; [intros o; apply walk_spec|]. split.
  - unfold walk. rewrite walk_loop_length.
    + rewrite sum_sizes_cons, sum_sizes_nil. simpl. lia.
    + rewrite sum_sizes_cons, sum_sizes_nil. simpl. lia.
  - intros extra. unfold walk. apply walk_loop_more.
    rewrite sum_sizes_cons, sum_sizes_nil. simpl. lia.
Qed.

Lemma star_snake_eol (k : nat -> string -> option nat) (s : string) :
  (forall j t, matched (k j t) = at_end t) ->
  forall i,
  matched (star snake_char nat i s k) = all_chars snake_char (chomp s).
Proof.
  intros Hk. induction s as [|c s IH]; intros i.
  - simpl. rewrite Hk. reflexivity.
  - cbn [star chomp]. specialize (IH (S i)).
    destruct (snake_char c) eqn:Ec.
    + destruct s as [|x s].
      * cbn [star]. pose proof (Hk (S i) EmptyString) as H0.
        destruct (k (S i) EmptyString); [|discriminate H0].
        destruct (Ascii.eqb_spec c newline) as [->|_];
          [discriminate Ec|]. simpl. rewrite Ec. reflexivity.
      * cbn [all_chars]. rewrite Ec. cbn [andb]. rewrite <- IH.
        destruct (star snake_char nat (S i) (String x s) k);
          [reflexivity|]. rewrite Hk. reflexivity.
    + rewrite Hk. destruct s as [|x s].
      * simpl. destruct (c =? newline)%char; simpl; [|rewrite Ec];
          reflexivity.
      * cbn [all_chars]. rewrite Ec. reflexivity.
Qed.

(** X13: a name matches [^[a-z0-9_]+$], and so is left alone by the
    three name checks, exactly when it is made of one character or more
    among [a-z], [0-9] and [_], a newline at its very end not counting;
    the empty name does not match. *)
Theorem X13_snake_case_names (name : string) :
  matched (re_match snake_case name) = snake_name (chomp name).
Proof.
  unfold re_match, match_at, snake_case, Plus. cbn [run Nat.eqb andb].
  destruct name as [|c s]; [reflexivity|].
  cbn [chomp]. destruct (snake_char c) eqn:Ec.
  - rewrite star_snake_eol.
    + destruct s as [|x s].
      * destruct (Ascii.eqb_spec c newline) as [->|_]; [discriminate Ec|].
        simpl. rewrite Ec. reflexivity.
      * simpl. rewrite Ec. reflexivity.
    + intros j [|x [|y t]]; simpl; try reflexivity.
      destruct (x =? newline)%char; reflexivity.
  - destruct s as [|x s].
    + destruct (c =? newline)%char; simpl; [|rewrite Ec]; reflexivity.
    + simpl. rewrite Ec. reflexivity.
Qed.

(** * What the syntax-tree pass returns for names and defaults *)

(** C1 fails on the code: for [def myFunc(X=[]):] the pass assigns three
    messages to line 1, for the function name, for the argument and for
    the default, and returns the last one only; [check_file] reports
    that one message for the line, and the same with a second mutable
    default. *)
Theorem C1_my_func_diagnostics :
  ast_writes my_func_tree
  = Ok [(1, S009_message "myFunc"); (1, S010_message "X"); (1, S012_message)]
  /\ ast_checks my_func_tree
     = Ok [(1, "S012 Default argument value is mutable")]
  /\ check_file my_func_parse my_func_source
     = Ok [(1, ["S012 Default argument value is mutable"])]
  /\ print_results
       [("my_func.py", [(1, ["S012 Default argument value is mutable"])])]
     = ["my_func.py: Line 1: S012 Default argument value is mutable"]
  /\ ast_checks my_func_tree_two_defaults
     = Ok [(1, "S012 Default argument value is mutable")].
Proof. repeat split; reflexivity. Qed.







(** * Further properties of the analysis of a file *)

Lemma line_messages_after (lines : list string) :
  forall n ln, n + Z.of_nat (List.length lines) < ln ->
               line_messages lines n ln = [].
Proof.
  induction lines as [|line lines IH]; intros n ln Hlt; [reflexivity|].
  cbn [line_messages List.length] in *.
  replace (ln =? n + 1) with false by (symmetry; apply Z.eqb_neq; lia).
  apply IH. lia.
Qed.

Lemma blank_line_check_range (file : list string) (ln : Z) :
  ln < 1 \/ Z.of_nat (List.length file) < ln ->
  dict_get ln (blank_line_check file) = None.
Proof.
  intros Hout. unfold blank_line_check.
  rewrite blank_line_loop_flags, flag_all_get.
  destruct (existsb (Z.eqb ln) (blank_flags file 0 0)) eqn:E; [|reflexivity].
  exfalso. apply existsb_exists in E. destruct E as [k [Hin Hk]].
  apply Z.eqb_eq in Hk. subst k.
  apply (blank_flags_spec file [] ln) in Hin.
  destruct Hin as [i [-> [_ [line [Hnth _]]]]]. simpl in Hnth.
  assert (i < List.length file)%nat by (apply nth_error_Some; congruence).
  lia.
Qed.

(** X14: the errors of a line of a file are, in this order, the messages
    of the seven rules for the line, in the order of the rules, the
    message of the blank-line pass and the message of the syntax-tree
    pass; a line number that is not one of the file holds what the
    syntax-tree pass gave it, and nothing else. *)
Theorem X14_errors_of_a_line (parse : string -> result node) (file : string)
    (d : file_errors) :
  check_file parse file = Ok d ->
  exists tree ast_errors,
    parse file = Ok tree /\ ast_checks tree = Ok ast_errors
    /\ (forall i line,
          nth_error (iter_lines file) i = Some line ->
          errors_at (Z.of_nat i + 1) d
          = (rule_messages line_rules (Z.of_nat i + 1) line
             ++ opt_list (dict_get (Z.of_nat i + 1)
                            (blank_line_check (iter_lines file)))
             ++ opt_list (dict_get (Z.of_nat i + 1) ast_errors))%list)
    /\ (forall ln,
          ln < 1 \/ Z.of_nat (List.length (iter_lines file)) < ln ->
          errors_at ln d = opt_list (dict_get ln ast_errors)).
Proof.
  intros H.
  destruct (check_file_at parse file d H) as [tree [ast [Hp [Hast Hat]]]].
  exists tree, ast. split; [exact Hp|]. split; [exact Hast|]. split.
  - intros i line Hnth. rewrite Hat.
    pose proof (line_messages_nth (iter_lines file) 0 i line Hnth) as Hl.
    replace (0 + Z.of_nat i + 1) with (Z.of_nat i + 1) in Hl by lia.
    rewrite Hl. reflexivity.
  - intros ln Hout. rewrite Hat, blank_line_check_range by exact Hout.
    destruct Hout as [Hlow|Hhigh].
    + rewrite line_messages_before by lia. reflexivity.
    + rewrite line_messages_after by lia. reflexivity.
Qed.

Lemma X14_errors_of_a_line_witness :
  check_file sample_parse sample_source = Ok sample_errors
  /\ exists tree ast_errors,
       sample_parse sample_source = Ok tree
       /\ ast_checks tree = Ok ast_errors
       /\ (forall i line,
             nth_error (iter_lines sample_source) i = Some line ->
             errors_at (Z.of_nat i + 1) sample_errors
             = (rule_messages line_rules (Z.of_nat i + 1) line
                ++ opt_list (dict_get (Z.of_nat i + 1)
                               (blank_line_check (iter_lines sample_source)))
                ++ opt_list (dict_get (Z.of_nat i + 1) ast_errors))%list)
       /\ (forall ln,
             ln < 1 \/ Z.of_nat (List.length (iter_lines sample_source)) < ln ->
             errors_at ln sample_errors = opt_list (dict_get ln ast_errors)).
Proof.
  split; [reflexivity|].
  apply (X14_errors_of_a_line sample_parse sample_source sample_errors).
  reflexivity.
Defined.

Lemma dict_get_In {V : Type} (k : Z) (v : V) (d : dict V) :
  dict_get k d = Some v -> In (k, v) d.
Proof.
  induction d as [|[k0 v0] d IH]; simpl; [discriminate|].
  destruct (k =? k0) eqn:E.
  - apply Z.eqb_eq in E. subst k0. intros [= ->]. left. reflexivity.
  - intros H. right. apply IH, H.
Qed.

Lemma dict_set_no_empty (ln : Z) (l : list string) (d : file_errors) :
  l <> [] -> no_empty_list d -> no_empty_list (dict_set ln l d).
Proof.
  intros Hl. unfold no_empty_list.
  induction d as [|[k v] d IH]; simpl; intros Hd.
  - repeat constructor. exact Hl.
  - inversion Hd; subst. destruct (ln =? k); constructor; auto.
Qed.

Lemma add_error_no_empty (ln : Z) (msg : string) (d d' : file_errors) :
  add_error ln msg d = Ok d' -> no_empty_list d -> no_empty_list d'.
Proof.
  rewrite add_error_ok. intros [= <-]. apply dict_set_no_empty.
  destruct (errors_at ln d); discriminate.
Qed.

Lemma add_errors_no_empty (items : dict string) :
  forall d d', add_errors items d = Ok d' ->
               no_empty_list d -> no_empty_list d'.
Proof.
  induction items as [|[ln msg] items IH]; intros d d' H Hd.
  - inversion H; subst. exact Hd.
  - cbn [add_errors] in H. apply bind_ok in H. destruct H as [d1 [H1 H2]].
    eapply IH; [exact H2|]. eapply add_error_no_empty; eauto.
Qed.

Lemma apply_rule_no_empty (check : line_rule) (n : Z) (line : string)
    (d d' : file_errors) :
  apply_rule check n line d = Ok d' -> no_empty_list d -> no_empty_list d'.
Proof.
  unfold apply_rule.
  destruct (check (n + 1) line) as [[[ln msg]|]|e]; cbn [bind].
  - destruct (add_error ln msg d) as [d1|e] eqn:E.
    + intros [= <-]. eapply add_error_no_empty; eauto.
    + destruct e; try discriminate. intros [= <-]. auto.
  - intros [= <-]. auto.
  - destruct e; try discriminate. intros [= <-]. auto.
Qed.

Lemma apply_rules_no_empty (checks : list line_rule) (n : Z) (line : string) :
  forall d d', apply_rules checks n line d = Ok d' ->
               no_empty_list d -> no_empty_list d'.
Proof.
  induction checks as [|check checks IH]; intros d d' H Hd.
  - inversion H; subst. exact Hd.
  - cbn [apply_rules] in H. apply bind_ok in H. destruct H as [d1 [H1 H2]].
    eapply IH; [exact H2|]. eapply apply_rule_no_empty; eauto.
Qed.

Lemma check_lines_no_empty (lines : list string) :
  forall n d d', check_lines lines n d = Ok d' ->
                 no_empty_list d -> no_empty_list d'.
Proof.
  induction lines as [|line lines IH]; intros n d d' H Hd.
  - inversion H; subst. exact Hd.
  - cbn [check_lines] in H. apply bind_ok in H. destruct H as [d1 [H1 H2]].
    eapply IH; [exact H2|]. eapply apply_rules_no_empty; eauto.
Qed.

(** X15: in the errors of a file every line number comes once, and only
    with a list that holds a message: a line without diagnostic has no
    entry. *)
Theorem X15_entries_of_the_errors (parse : string -> result node)
    (file : string) (d : file_errors) :
  check_file parse file = Ok d ->
  NoDup (keys d)
  /\ (forall ln error_list, In (ln, error_list) d -> error_list <> [])
  /\ (forall ln, dict_get ln d = None <-> errors_at ln d = []).
Proof.
  intros H. pose proof (check_file_keys parse file d H) as Hnd.
  assert (Hne : no_empty_list d).
  { revert H. unfold check_file. cbn [readlines read bind]. intros H.
    apply bind_ok in H. destruct H as [d1 [H1 H]].
    apply bind_ok in H. destruct H as [d2 [H2 H]].
    apply bind_ok in H. destruct H as [tree [_ H]].
    apply bind_ok in H. destruct H as [ast [_ H]].
    eapply add_errors_no_empty; [exact H|].
    eapply add_errors_no_empty; [exact H2|].
    eapply check_lines_no_empty; [exact H1|]. constructor. }
  split; [exact Hnd|]. split.
  - intros ln l Hin. unfold no_empty_list in Hne.
    rewrite Forall_forall in Hne. apply (Hne (ln, l) Hin).
  - intros ln. unfold errors_at. split; [intros ->; reflexivity|].
    destruct (dict_get ln d) as [l|] eqn:E; [|reflexivity].
    intros ->. exfalso. unfold no_empty_list in Hne.
    rewrite Forall_forall in Hne.
    apply (Hne (ln, []) (dict_get_In _ _ _ E)). reflexivity.
Qed.

Lemma X15_entries_of_the_errors_witness :
  check_file sample_parse sample_source = Ok sample_errors
  /\ NoDup (keys sample_errors)
  /\ (forall ln error_list, In (ln, error_list) sample_errors ->
                            error_list <> [])
  /\ (forall ln, dict_get ln sample_errors = None
                 <-> errors_at ln sample_errors = []).
Proof.
  split; [reflexivity|].
  apply (X15_entries_of_the_errors sample_parse sample_source sample_errors).
  reflexivity.
Defined.

(** X16: [check_file] raises what reading the file raises, in its first
    loop; on a file that can be read it fails only where the parser or
    the syntax-tree pass fails, and then with their exception: it returns
    a dictionary exactly when the file reads, ast.parse returns a tree for
    its text and [ast_checks] returns on that tree; the line rules and
    the blank-line pass never make it fail. *)
Theorem X16_check_file_returns (parse : string -> result node)
    (file : file_object) :
  ((exists d, check_file parse file = Ok d) <->
   (exists text tree ast_errors,
       file = Readable text
       /\ parse text = Ok tree /\ ast_checks tree = Ok ast_errors))
  /\ (forall e, check_file parse file = Raise e <->
                file = Unreadable e
                \/ exists text,
                     file = Readable text
                     /\ (parse text = Raise e
                         \/ exists tree, parse text = Ok tree
                                         /\ ast_checks tree = Raise e)).
Proof.
  destruct file as [text|e0].
  - unfold check_file. cbn [readlines read bind].
    destruct (check_lines_ok (iter_lines text) 0 []) as [d1 [-> _]].
    cbn [bind].
    destruct (add_errors_ok (blank_line_check (iter_lines text)) d1)
      as [d2 [-> _]].
    cbn [bind].
    destruct (parse text) as [tree|e1] eqn:Hparse; cbn [bind].
    + destruct (ast_checks tree) as [ast|e2] eqn:Hast; cbn [bind].
      * destruct (add_errors_ok ast d2) as [d3 [-> _]]. split.
        -- split; [intros _; exists text, tree, ast; auto | eauto].
        -- intros e. split; [discriminate|].
           intros [H|[t [Ht [H|[tr [Htr H]]]]]]; try discriminate;
             inversion Ht; subst t; congruence.
      * split.
        -- split; [intros [d H]; discriminate|].
           intros [t [tr [a [Ht [Htr Ha]]]]]. inversion Ht; subst t.
           congruence.
        -- intros e. split.
           ++ intros [= <-]. right. exists text. split; [reflexivity|].
              right. exists tree. auto.
           ++ intros [H|[t [Ht [H|[tr [Htr H]]]]]]; try discriminate;
                inversion Ht; subst t; congruence.
    + split.
      * split; [intros [d H]; discriminate|].
        intros [t [tr [a [Ht [Htr _]]]]]. inversion Ht; subst t. congruence.
      * intros e. split.
        -- intros [= <-]. right. exists text. auto.
        -- intros [H|[t [Ht [H|[tr [Htr H]]]]]]; try discriminate;
             inversion Ht; subst t; congruence.
  - unfold check_file. cbn [readlines bind]. split.
    + split; [intros [d H]; discriminate|].
      intros [t [tr [a [Ht _]]]]. discriminate.
    + intros e. split.
      * intros [= <-]. left. reflexivity.
      * intros [H|[t [Ht _]]]; [congruence | discriminate].
Qed.

(** ** The report *)

Lemma report_perm (d : file_errors) :
  Permutation (report d) (all_diagnostics d).
Proof.
  unfold report, all_diagnostics.
  apply perm_trans
    with (flat_map
            (fun item => map (pair (fst item)) (sorted String.leb (snd item)))
            d).
  - apply Permutation_flat_map. apply sorted_perm.
  - induction d as [|item d IH]; simpl; [constructor|].
    apply Permutation_app; [|exact IH].
    apply Permutation_map, sorted_perm.
Qed.

(** X17: printing loses nothing and repeats nothing: the report of the
    errors of a file holds each pair of a line and a message as many
    times as the errors do, and one line is printed for each. *)
Theorem X17_report_is_complete (path : string) (d : file_errors) :
  Permutation (report d) (all_diagnostics d)
  /\ List.length (print_results [(path, d)])
     = List.length (all_diagnostics d).
Proof.
  split; [apply report_perm|].
  unfold print_results. simpl. rewrite app_nil_r, length_map.
  apply Permutation_length, report_perm.
Qed.

(** * Properties of the command line *)

Section MainProperties.

Variable parse : string -> result node.
Variable read_file : string -> option file_object.
Variable sep : string.

Lemma check_path_done (path : string) (acc all : list (string * file_errors)) :
  check_path parse read_file path acc = Done all <->
  exists errors, analysed parse read_file path errors
                 /\ all = path_set path errors acc.
Proof.
  unfold check_path, analysed.
  destruct (read_file path) as [text|] eqn:Er.
  - destruct (check_file parse text) as [d|e] eqn:Ec.
    + split.
      * intros [= <-]. exists d. split; [exists text; split|]; auto.
      * intros [d' [[t [Ht Hd]] ->]]. inversion Ht; subst t. congruence.
    + split; [discriminate|].
      intros [d' [[t [Ht H]] _]]. inversion Ht; subst t. congruence.
  - split; [discriminate|]. intros [d' [[t [H _]] _]]. discriminate.
Qed.

Lemma check_entries_done (path : string) (names : list string) :
  forall acc,
    (exists all, check_entries parse read_file sep path names acc = Done all)
    <-> (forall name, In name names -> endswith name ".py" = true ->
                      exists errors,
                        analysed parse read_file (path ++ sep ++ name) errors).
Proof.
  induction names as [|name names IH]; intros acc; cbn [check_entries].
  - split; [intros _ name []|]. intros _. exists acc. reflexivity.
  - destruct (endswith name ".py") eqn:Epy.
    + destruct (check_path parse read_file (path ++ sep ++ name) acc)
        as [acc'| |] eqn:Ecp.
      * rewrite IH. apply check_path_done in Ecp.
        destruct Ecp as [d [Hd _]]. split.
        -- intros H n [<-|Hin] Hpy; [exists d; exact Hd | auto].
        -- intros H n Hin Hpy. apply H; [right; exact Hin | exact Hpy].
      * split; [intros [all H]; discriminate|]. intros H.
        destruct (H name (or_introl eq_refl) Epy) as [d Hd].
        assert (Hdone : check_path parse read_file (path ++ sep ++ name) acc
                        = Done (path_set (path ++ sep ++ name) d acc))
          by (apply check_path_done; eauto).
        congruence.
      * split; [intros [all H]; discriminate|]. intros H.
        destruct (H name (or_introl eq_refl) Epy) as [d Hd].
        assert (Hdone : check_path parse read_file (path ++ sep ++ name) acc
                        = Done (path_set (path ++ sep ++ name) d acc))
          by (apply check_path_done; eauto).
        congruence.
    + rewrite IH. split.
      * intros H n [<-|Hin] Hpy; [congruence | auto].
      * intros H n Hin Hpy. apply H; [right; exact Hin | exact Hpy].
Qed.

Lemma path_set_new (path : string) (errors : file_errors)
    (acc : list (string * file_errors)) :
  ~ In path (map fst acc) ->
  path_set path errors acc = (acc ++ [(path, errors)])%list.
Proof.
  induction acc as [|[p d] acc IH]; simpl; intros Hnot; [reflexivity|].
  destruct (String.eqb_spec path p) as [->|Hne]; [tauto|].
  rewrite IH by tauto. reflexivity.
Qed.

Lemma append_inj (p a b : string) : p ++ a = p ++ b -> a = b.
Proof.
  induction p as [|c p IH]; simpl; intros H; [exact H|].
  inversion H. auto.
Qed.

Lemma check_entries_entries (path : string) (names : list string) :
  forall acc all,
    check_entries parse read_file sep path names acc = Done all ->
    NoDup names ->
    (forall name, In name names ->
                  ~ In (path ++ sep ++ name) (map fst acc)) ->
    exists new,
      all = (acc ++ new)%list
      /\ Forall2 (fun name entry =>
                    fst entry = path ++ sep ++ name
                    /\ analysed parse read_file (fst entry) (snd entry))
                 (python_files names) new.
Proof.
  induction names as [|name names IH]; intros acc all H Hnd Hfresh;
    cbn [check_entries] in H.
  - inversion H; subst. exists []. rewrite app_nil_r.
    split; [reflexivity | constructor].
  - inversion Hnd as [|? ? Hnotin Hnd']; subst.
    unfold python_files. cbn [filter].
    destruct (endswith name ".py") eqn:Epy.
    + destruct (check_path parse read_file (path ++ sep ++ name) acc)
        as [acc'| |] eqn:Ecp; try discriminate.
      apply check_path_done in Ecp. destruct Ecp as [d [Hd ->]].
      rewrite path_set_new in H by (apply Hfresh; left; reflexivity).
      destruct (IH _ _ H Hnd') as [new [-> HF]].
      { intros n Hin. rewrite map_app, in_app_iff. simpl.
        intros [Hacc|[Heq|[]]].
        - apply (Hfresh n (or_intror Hin) Hacc).
        - apply append_inj, append_inj in Heq. subst n. tauto. }
      exists ((path ++ sep ++ name, d) :: new). split.
      * rewrite <- app_assoc. reflexivity.
      * constructor; [split; [reflexivity | exact Hd] | exact HF].
    + apply (IH _ _ H Hnd'). intros n Hin. apply Hfresh. right. exact Hin.
Qed.

Lemma endswith_append (pre s suffix : string) :
  endswith s suffix = true -> endswith (pre ++ s) suffix = true.
Proof.
  unfold endswith. intros H. apply andb_true_iff in H. destruct H as [Hle Heq].
  apply Nat.leb_le in Hle. apply andb_true_iff. split.
  - apply Nat.leb_le. rewrite str_length_append. lia.
  - rewrite str_length_append.
    replace (String.length pre + String.length s - String.length suffix)%nat
      with (String.length pre
            + (String.length s - String.length suffix))%nat by lia.
    revert Heq. generalize (String.length s - String.length suffix)%nat.
    generalize (String.length suffix) as m.
    clear Hle. intros m k Heq.
    induction pre as [|c pre IH]; simpl; [exact Heq | exact IH].
Qed.

End MainProperties.

(** X18: given a path that ends in [.py], [main] reads that one file and
    prints the report of its errors under the path as given; it ends with
    an exception of the analysis exactly when the file can be opened and
    [check_file] raises it. *)
Theorem X18_main_on_a_file (parse : string -> result node)
    (read_file : string -> option file_object)
    (listdir : string -> option (list string)) (sep path : string) :
  endswith path ".py" = true ->
  (forall out,
      main parse read_file listdir sep path = Done out <->
      exists errors, analysed parse read_file path errors
                     /\ out = map (format_line path) (report errors))
  /\ (forall e,
         main parse read_file listdir sep path = Failed e <->
         exists file, read_file path = Some file
                      /\ check_file parse file = Raise e).
Proof.
  intros Hpy. unfold main, check_path, analysed. rewrite Hpy.
  destruct (read_file path) as [text|] eqn:Er.
  - destruct (check_file parse text) as [d|e0] eqn:Ec; split.
    + intros out. unfold print_results. simpl. rewrite app_nil_r. split.
      * intros [= <-]. exists d. split; [exists text; auto | reflexivity].
      * intros [d' [[t [Ht Hd]] ->]]. inversion Ht; subst t. congruence.
    + intros e. split; [discriminate|].
      intros [t [Ht H]]. inversion Ht; subst t. congruence.
    + intros out. split; [discriminate|].
      intros [d' [[t [Ht H]] _]]. inversion Ht; subst t. congruence.
    + intros e. split.
      * intros [= <-]. exists text. auto.
      * intros [t [Ht H]]. inversion Ht; subst t. congruence.
  - split.
    + intros out. split; [discriminate|].
      intros [d' [[t [H _]] _]]. discriminate.
    + intros e. split; [discriminate|]. intros [t [H _]]. discriminate.
Qed.

Lemma X18_main_on_a_file_witness :
  endswith "sample.py" ".py" = true
  /\ (forall out,
         main sample_parse sample_read sample_listdir "/" "sample.py"
         = Done out <->
         exists errors,
           analysed sample_parse sample_read "sample.py" errors
           /\ out = map (format_line "sample.py") (report errors))
  /\ (forall e,
         main sample_parse sample_read sample_listdir "/" "sample.py"
         = Failed e <->
         exists file, sample_read "sample.py" = Some file
                      /\ check_file sample_parse file = Raise e).
Proof.
  split; [reflexivity|].
  apply (X18_main_on_a_file sample_parse sample_read sample_listdir "/"
           "sample.py").
  reflexivity.
Defined.

(** X19: given a directory, [main] prints all or nothing: it comes to
    print exactly when every listed name that ends in [.py] is a file
    that can be read and on which [check_file] returns; one file that
    fails leaves the others unreported. *)
Theorem X19_directory_all_or_nothing (parse : string -> result node)
    (read_file : string -> option file_object)
    (listdir : string -> option (list string)) (sep path : string)
    (names : list string) :
  endswith path ".py" = false ->
  listdir path = Some names ->
  ((exists out, main parse read_file listdir sep path = Done out) <->
   (forall name, In name names -> endswith name ".py" = true ->
                 exists errors,
                   analysed parse read_file (path ++ sep ++ name) errors)).
Proof.
  intros Hpy Hls. unfold main. rewrite Hpy, Hls.
  rewrite <- (check_entries_done parse read_file sep path names []).
  destruct (check_entries parse read_file sep path names []) as [all| |].
  - split; eauto.
  - split; intros [x H]; discriminate.
  - split; intros [x H]; discriminate.
Qed.

Lemma X19_directory_all_or_nothing_witness :
  endswith "project" ".py" = false
  /\ sample_listdir "project" = Some ["notes.txt"; "sample.py"]
  /\ ((exists out,
          main sample_parse sample_read sample_listdir "/" "project"
          = Done out) <->
      (forall name, In name ["notes.txt"; "sample.py"] ->
                    endswith name ".py" = true ->
                    exists errors,
                      analysed sample_parse sample_read
                        ("project" ++ "/" ++ name) errors)).
Proof.
  split; [reflexivity|]. split; [reflexivity|].
  apply (X19_directory_all_or_nothing sample_parse sample_read sample_listdir
           "/" "project" ["notes.txt"; "sample.py"]); reflexivity.
Defined.

(** X20: given a directory whose listing has no name twice, what [main]
    prints is the reports of the listed names that end in [.py], one
    after the other in the order of the listing, each under the
    directory path, the separator and the name. *)
Theorem X20_directory_report (parse : string -> result node)
    (read_file : string -> option file_object)
    (listdir : string -> option (list string)) (sep path : string)
    (names out : list string) :
  endswith path ".py" = false ->
  listdir path = Some names ->
  NoDup names ->
  main parse read_file listdir sep path = Done out ->
  exists all_errors,
    Forall2 (fun name entry =>
               fst entry = path ++ sep ++ name
               /\ analysed parse read_file (fst entry) (snd entry))
            (python_files names) all_errors
    /\ out = flat_map
               (fun entry => map (format_line (fst entry)) (report (snd entry)))
               all_errors.
Proof.
  intros Hpy Hls Hnd. unfold main. rewrite Hpy, Hls.
  destruct (check_entries parse read_file sep path names []) as [all| |] eqn:E;
    try discriminate.
  intros [= <-].
  destruct (check_entries_entries parse read_file sep path names [] all E Hnd)
    as [new [-> HF]]; [intros n _ []|].
  exists new. split; [exact HF | reflexivity].
Qed.

Lemma X20_directory_report_witness :
  endswith "project" ".py" = false
  /\ sample_listdir "project" = Some ["notes.txt"; "sample.py"]
  /\ NoDup ["notes.txt"; "sample.py"]
  /\ main sample_parse sample_read sample_listdir "/" "project"
     = Done (map (format_line "project/sample.py") (report sample_errors))
  /\ exists all_errors,
       Forall2 (fun name entry =>
                  fst entry = "project" ++ "/" ++ name
                  /\ analysed sample_parse sample_read (fst entry) (snd entry))
               (python_files ["notes.txt"; "sample.py"]) all_errors
       /\ map (format_line "project/sample.py") (report sample_errors)
          = flat_map
              (fun entry => map (format_line (fst entry)) (report (snd entry)))
              all_errors.
Proof.
  assert (Hnd : NoDup ["notes.txt"; "sample.py"]).
  { repeat constructor; simpl; intros H;
      repeat (destruct H as [H|H]; [discriminate H|]); exact H. }
  split; [reflexivity|]. split; [reflexivity|]. split; [exact Hnd|].
  split; [reflexivity|].
  apply (X20_directory_report sample_parse sample_read sample_listdir "/"
           "project" ["notes.txt"; "sample.py"]);
    [reflexivity | reflexivity | exact Hnd | reflexivity].
Defined.

Lemma check_entries_python (parse : string -> result node)
    (read_file read_file' : string -> option file_object) (sep path : string)
    (names : list string) :
  (forall p, endswith p ".py" = true -> read_file p = read_file' p) ->
  forall acc,
    check_entries parse read_file sep path names acc
    = check_entries parse read_file' sep path (python_files names) acc.
Proof.
  intros Hsame. unfold python_files.
  induction names as [|name names IH]; intros acc; [reflexivity|].
  cbn [check_entries filter].
  destruct (endswith name ".py") eqn:Epy; [|apply IH].
  cbn [check_entries]. rewrite Epy. unfold check_path.
  rewrite <- Hsame
    by (rewrite <- str_append_assoc; apply endswith_append, Epy).
  destruct (read_file (path ++ sep ++ name)) as [text|]; [|reflexivity].
  destruct (check_file parse text); [apply IH | reflexivity].
Qed.

(** X21: [main] looks at nothing but Python files: a run goes the same
    way, and prints the same, when the names that do not end in [.py]
    are taken out of every listing and when the files whose path does
    not end in [.py] change or become unreadable. *)
Theorem X21_only_python_files (parse : string -> result node)
    (read_file read_file' : string -> option file_object)
    (listdir : string -> option (list string)) (sep path : string) :
  (forall p, endswith p ".py" = true -> read_file p = read_file' p) ->
  main parse read_file listdir sep path
  = main parse read_file'
      (fun p => option_map python_files (listdir p)) sep path.
Proof.
  intros Hsame. unfold main.
  destruct (endswith path ".py") eqn:Epy.
  - unfold check_path. rewrite <- Hsame by exact Epy. reflexivity.
  - destruct (listdir path) as [names|]; [|reflexivity]. cbn [option_map].
    rewrite (check_entries_python parse read_file read_file' sep path names
               Hsame).
    reflexivity.
Qed.

Lemma X21_only_python_files_witness :
  (forall p, endswith p ".py" = true -> sample_read p = sample_read_python p)
  /\ sample_read "project/notes.txt" <> sample_read_python "project/notes.txt"
  /\ main sample_parse sample_read sample_listdir "/" "project"
     = main sample_parse sample_read_python
         (fun p => option_map python_files (sample_listdir p)) "/" "project".
Proof.
  assert (Hsame : forall p, endswith p ".py" = true ->
                            sample_read p = sample_read_python p).
  { intros p Hpy. unfold sample_read_python.
    destruct (String.eqb_spec p "project/notes.txt") as [->|_];
      [discriminate Hpy | reflexivity]. }
  split; [exact Hsame|]. split; [discriminate|].
  apply (X21_only_python_files sample_parse sample_read sample_read_python
           sample_listdir "/" "project" Hsame).
Defined.

(** * Further properties of the line rules *)

(** ** Length *)

(** X22: in the errors of a file a line holds S001 exactly when the line
    as it is iterated, with the newline that ends it, is longer than 79
    characters: a line that ends in a newline is reported from 79
    characters of content on. *)
Theorem X22_line_length (parse : string -> result node) (file : string)
    (d : file_errors) (i : nat) (line : string) :
  check_file parse file = Ok d ->
  nth_error (iter_lines file) i = Some line ->
  (In "S001 Too long" (errors_at (Z.of_nat i + 1) d) <-> 79 < len line)
  /\ (forall content, line = content ++ nl ->
        (In "S001 Too long" (errors_at (Z.of_nat i + 1) d)
         <-> 79 <= len content)).
Proof.
  intros H Hnth.
  pose proof (S001_reported parse file d i line H Hnth) as Hiff.
  split; [exact Hiff|].
  intros content ->. rewrite Hiff, len_append.
  change (len nl) with 1. lia.
Qed.

Lemma X22_line_length_witness :
  check_file sample_parse sample_source = Ok sample_errors
  /\ nth_error (iter_lines sample_source) 0 = Some ("def  myFunc(X=[]):  # TODO" ++ nl)
  /\ (In "S001 Too long" (errors_at (Z.of_nat 0 + 1) sample_errors)
      <-> 79 < len ("def  myFunc(X=[]):  # TODO" ++ nl))
  /\ (forall content, "def  myFunc(X=[]):  # TODO" ++ nl = content ++ nl ->
        (In "S001 Too long" (errors_at (Z.of_nat 0 + 1) sample_errors)
         <-> 79 <= len content)).
Proof.
  split; [reflexivity|]. split; [reflexivity|].
  apply (X22_line_length sample_parse sample_source sample_errors 0
           ("def  myFunc(X=[]):  # TODO" ++ nl)); reflexivity.
Defined.

(** ** Constructions *)

Lemma str_length_indent (k : nat) : String.length (indent k) = k.
Proof. unfold indent. induction k as [|k IH]; simpl; congruence. Qed.

Lemma run_Str_none (p : string) :
  forall (R : Type) (i : nat) (s : string) (k : nat -> string -> option R),
  prefix p s = false -> run (Str p) R i s k = None.
Proof.
  induction p as [|c p IH]; intros R i s k H;
    [destruct s; discriminate H|].
  destruct s as [|x s]; [destruct p; reflexivity|].
  cbn [prefix] in H.
  destruct (ascii_dec c x) as [->|Hne].
  - destruct p as [|c' p]; [destruct s; discriminate H|].
    change (Str (String x (String c' p)))
      with (Seq (Lit x) (Str (String c' p))).
    cbn [run]. rewrite Ascii.eqb_refl. apply IH, H.
  - assert (E : (x =? c)%char = false)
      by (apply Ascii.eqb_neq; congruence).
    destruct p as [|c' p]; cbn [Str run]; rewrite E; reflexivity.
Qed.

(** The first item of [findall] on a line is its first word. *)
Lemma findall_first_word (n : nat) (c : ascii) (w tail : string) :
  all_chars is_word (String c w) = true -> starts_with_word tail = false ->
  index (findall word_not_at_space (indent n ++ String c w ++ tail)) 0
  = Ok (String c w).
Proof.
  intros Hw Htail. unfold findall, spans.
  rewrite spans_from_spaces by lia. cbn [Nat.add].
  assert (H : match_at word_not_at_space n (String c w ++ tail) false
              = Some (n + String.length (String c w))%nat)
    by (apply word_match; assumption).
  change (String c w ++ tail) with (String c (w ++ tail)) in *.
  cbn [spans_from]. cbn [Nat.ltb Nat.leb]. rewrite H.
  replace (n + String.length (String c w) =? n)%nat with false
    by (symmetry; apply Nat.eqb_neq; simpl; lia).
  cbn [map index nth_error]. unfold slice. cbn [fst snd].
  replace (n + String.length (String c w) - n)%nat
    with (String.length (String c w)) by lia.
  rewrite <- (str_length_indent n) at 1.
  rewrite substring_skip.
  change (String c (w ++ tail)) with (String c w ++ tail).
  rewrite substring_prefix. reflexivity.
Qed.

Lemma construction_start_spec (n : nat) (kw rest : string) :
  kw = "def" \/ kw = "class" ->
  matched (re_match construction_start (indent n ++ kw ++ rest)) = true.
Proof.
  intros Hkw. unfold re_match, match_at, construction_start.
  cbn [run Nat.eqb].
  destruct Hkw as [-> | ->]; erewrite star_indent_some; reflexivity.
Qed.

Lemma construction_one_space_spec (n : nat) (kw rest : string) :
  kw = "def" \/ kw = "class" ->
  matched (re_match construction_one_space (indent n ++ kw ++ rest))
  = space_then_word rest.
Proof.
  intros Hkw. unfold re_match, match_at, construction_one_space.
  cbn [run Nat.eqb].
  destruct (space_then_word rest) eqn:E.
  - destruct rest as [|a [|c t]]; try discriminate E. simpl in E.
    apply andb_true_iff in E. destruct E as [Ea Ec].
    apply Ascii.eqb_eq in Ea. subst a.
    destruct Hkw as [-> | ->];
      erewrite star_indent_some; try reflexivity; simpl; rewrite Ec;
      reflexivity.
  - rewrite star_indent_none;
      [reflexivity | destruct Hkw; subst; reflexivity|].
    intros m Hm. destruct (n - m)%nat as [|j]; [|reflexivity].
    destruct rest as [|a [|c t]]; simpl in E.
    + destruct Hkw as [-> | ->]; reflexivity.
    + destruct Hkw as [-> | ->]; simpl;
        destruct (a =? " ")%char; reflexivity.
    + destruct Hkw as [-> | ->]; simpl;
        destruct (a =? " ")%char; simpl in *; try reflexivity;
        rewrite E; reflexivity.
Qed.

(** X23: on a line that starts, after its indentation, with [def] or
    [class], the rule looks at what follows these letters: one space and
    a word character, and nothing is reported; anything else, and the
    line is reported as S007, under the word the line starts with, which
    is the keyword and the word characters that follow it at once, not
    the name of what is defined. *)
Theorem X23_construction_space (ln : Z) (n : nat) (kw w tail : string) :
  kw = "def" \/ kw = "class" ->
  all_chars is_word w = true -> starts_with_word tail = false ->
  construction_space_check ln (indent n ++ kw ++ w ++ tail)
  = Ok (if space_then_word (w ++ tail) then None
        else Some (ln, "S007 Too many spaces after " ++ kw ++ w)).
Proof.
  intros Hkw Hw Htail. unfold construction_space_check.
  rewrite construction_start_spec, construction_one_space_spec by exact Hkw.
  assert (Hname : index (findall word_not_at_space
                           (indent n ++ kw ++ w ++ tail)) 0
                  = Ok (kw ++ w)).
  { destruct Hkw as [-> | ->].
    - apply (findall_first_word n "d" ("ef" ++ w) tail); [exact Hw | exact Htail].
    - apply (findall_first_word n "c" ("lass" ++ w) tail);
        [exact Hw | exact Htail]. }
  rewrite Hname. cbn [bind].
  destruct (space_then_word (w ++ tail)); reflexivity.
Qed.

Lemma X23_construction_space_witness :
  ("class" = "def" \/ "class" = "class")
  /\ all_chars is_word "es" = true /\ starts_with_word " = []" = false
  /\ construction_space_check 3 (indent 4 ++ "class" ++ "es" ++ " = []")
     = Ok (Some (3, "S007 Too many spaces after classes")).
Proof.
  split; [right; reflexivity|]. split; [reflexivity|]. split; [reflexivity|].
  apply (X23_construction_space 3 4 "class" "es" " = []");
    [right; reflexivity | reflexivity | reflexivity].
Defined.

(** X24: a line that does not start, after its indentation, with the
    letters [def] or [class] is never reported as S007. *)
Theorem X24_construction_other_lines (ln : Z) (n : nat) (rest : string) :
  starts_with_space rest = false ->
  prefix "def" rest = false -> prefix "class" rest = false ->
  construction_space_check ln (indent n ++ rest) = Ok None.
Proof.
  intros Hsp Hdef Hclass. unfold construction_space_check.
  assert (H : re_match construction_start (indent n ++ rest) = None).
  { unfold re_match, match_at, construction_start. cbn [run Nat.eqb].
    apply star_indent_none; [exact Hsp|].
    intros m Hm. unfold def_or_class. cbn [run].
    destruct (n - m)%nat as [|j].
    - simpl append. rewrite !run_Str_none by assumption. reflexivity.
    - rewrite !run_Str_none by reflexivity. reflexivity. }
  rewrite H. reflexivity.
Qed.

Lemma X24_construction_other_lines_witness :
  starts_with_space "x = define(1)" = false
  /\ prefix "def" "x = define(1)" = false
  /\ prefix "class" "x = define(1)" = false
  /\ construction_space_check 2 (indent 8 ++ "x = define(1)") = Ok None.
Proof.
  split; [reflexivity|]. split; [reflexivity|]. split; [reflexivity|].
  apply (X24_construction_other_lines 2 8 "x = define(1)"); reflexivity.
Defined.

(** ** Inline comments *)

Lemma star_blank_code_none (R : Type) (u : string) :
  forall (t : string) (i : nat) (k : nat -> string -> option R),
  no_hash u = true -> all_chars is_blank_char u = false ->
  (forall j t', starts_with_hash t' = false -> k j t' = None) ->
  star is_blank_char R i (u ++ t) k = None.
Proof.
  induction u as [|a u IH]; intros t i k Hu Hblank Hk; [discriminate Hblank|].
  simpl in Hu. apply andb_true_iff in Hu. destruct Hu as [Ha Hu].
  apply negb_true_iff in Ha.
  change (String a u ++ t) with (String a (u ++ t)). cbn [star].
  rewrite (Hk i (String a (u ++ t)) Ha).
  destruct (is_blank_char a) eqn:Eb; [|reflexivity].
  simpl in Hblank. rewrite Eb in Hblank.
  rewrite (IH t (S i) k Hu Hblank Hk). reflexivity.
Qed.

Lemma all_chars_last (p : ascii -> bool) (u : string) (c : ascii) :
  p c = false -> all_chars p (u ++ String c "") = false.
Proof.
  intros Hc. induction u as [|a u IH]; simpl.
  - rewrite Hc. reflexivity.
  - rewrite IH. apply andb_false_r.
Qed.

Lemma code_then_hash_before (a : ascii) (u t : string) (i : nat) (b : bool) :
  no_hash u = true -> all_chars is_blank_char u = false ->
  match_at code_then_hash i (String a (u ++ t)) b = None.
Proof.
  intros Hu Hblank. unfold match_at, code_then_hash. cbn [run].
  destruct (negb (is_space a)); [|reflexivity].
  apply star_blank_code_none; [exact Hu | exact Hblank|].
  intros j [|x t'] Hx; [reflexivity|]. simpl in Hx. rewrite Hx. reflexivity.
Qed.

Lemma code_then_hash_here (c : ascii) (n i : nat) (comment : string) :
  is_space c = false ->
  match_at code_then_hash i (String c (indent n ++ String "#" comment)) false
  = Some (i + n + 2)%nat.
Proof.
  intros Hc. unfold match_at, code_then_hash. cbn [run].
  rewrite Hc. cbn [negb].
  rewrite (star_indent_some nat n (S i) (String "#" comment) _
             (S (S i + n)));
    [f_equal; lia | reflexivity | reflexivity].
Qed.

(** The first match of [\S *#] on a line with one [#] after code starts
    at the last character of the code. *)
Lemma spans_code_then_hash (c : ascii) (n : nat) (comment pre : string) :
  forall i resume,
  (resume <= i)%nat ->
  no_hash (pre ++ String c "") = true -> is_space c = false ->
  exists rest,
    spans_from code_then_hash i resume
      (pre ++ String c (indent n ++ String "#" comment))
    = (i + String.length pre, i + String.length pre + n + 2)%nat :: rest.
Proof.
  induction pre as [|a pre IH]; intros i resume Hle Hpre Hc.
  - change ("" ++ String c (indent n ++ String "#" comment))
      with (String c (indent n ++ String "#" comment)).
    cbn [spans_from].
    replace (i <? resume)%nat with false by (symmetry; apply Nat.ltb_ge; lia).
    rewrite code_then_hash_here by exact Hc.
    replace (i + n + 2 =? i)%nat with false
      by (symmetry; apply Nat.eqb_neq; lia).
    eexists. simpl String.length. rewrite Nat.add_0_r. reflexivity.
  - simpl in Hpre. apply andb_true_iff in Hpre. destruct Hpre as [_ Hpre].
    change (String a pre ++ String c (indent n ++ String "#" comment))
      with (String a (pre ++ String c (indent n ++ String "#" comment))).
    assert (Hnone : match_at code_then_hash i
                      (String a (pre ++ String c
                                   (indent n ++ String "#" comment))) false
                    = None).
    { replace (pre ++ String c (indent n ++ String "#" comment))
        with ((pre ++ String c "") ++ indent n ++ String "#" comment)
        by (rewrite str_append_assoc; reflexivity).
      apply code_then_hash_before; [exact Hpre|].
      apply all_chars_last. unfold is_blank_char.
      destruct (Ascii.eqb_spec c " "%char) as [->|_];
        [discriminate Hc | reflexivity]. }
    cbn [spans_from].
    replace (i <? resume)%nat with false by (symmetry; apply Nat.ltb_ge; lia).
    rewrite Hnone.
    destruct (IH (S i) resume) as [rest Hrest]; [lia | exact Hpre | exact Hc|].
    exists rest. rewrite Hrest. simpl String.length.
    replace (S i + String.length pre)%nat
      with (i + S (String.length pre))%nat by lia.
    reflexivity.
Qed.

(** X25: on a line with one [#], after code that ends in a character
    other than whitespace, the rule counts the spaces between that
    character and the [#]: the line is reported as S004 exactly when
    they are fewer than two. *)
Theorem X25_inline_comment (ln : Z) (pre : string) (c : ascii) (n : nat)
    (comment : string) :
  no_hash (pre ++ String c "") = true -> is_space c = false ->
  comment_space_check ln (pre ++ String c (indent n ++ String "#" comment))
  = Ok (if (n <? 2)%nat
        then Some (ln,
                   "S004 At least two spaces before inline comments required")
        else None).
Proof.
  intros Hpre Hc. unfold comment_space_check, findall, spans.
  destruct (spans_code_then_hash c n comment pre 0 0 (Nat.le_refl 0) Hpre Hc)
    as [rest ->].
  cbn [map index nth_error]. unfold slice. cbn [fst snd Nat.add].
  replace (String.length pre + n + 2 - String.length pre)%nat
    with (String.length (String c (indent n ++ "#")))
    by (simpl; rewrite str_length_append, str_length_indent; simpl; lia).
  rewrite substring_skip.
  replace (String c (indent n ++ String "#" comment))
    with (String c (indent n ++ "#") ++ comment)
    by (simpl; rewrite str_append_assoc; reflexivity).
  rewrite substring_prefix.
  rewrite length_map, spans_one_space by lia.
  assert (Hcount : count_spaces (String c (indent n ++ "#")) = n).
  { cbn [count_spaces]. unfold is_blank_char at 1.
    destruct (Ascii.eqb_spec c " "%char) as [->|_]; [discriminate Hc|].
    rewrite count_spaces_append, count_spaces_all, str_length_indent.
    - simpl. lia.
    - clear. unfold indent. induction n as [|n IH]; [reflexivity | exact IH]. }
  rewrite Hcount.
  destruct (Z.ltb_spec (Z.of_nat n) 2); destruct (Nat.ltb_spec n 2);
    try lia; reflexivity.
Qed.

Lemma X25_inline_comment_witness :
  no_hash ("total = " ++ String "1" "") = true /\ is_space "1" = false
  /\ comment_space_check 5
       ("total = " ++ String "1" (indent 1 ++ String "#" " sum"))
     = Ok (Some (5,
                 "S004 At least two spaces before inline comments required")).
Proof.
  split; [reflexivity|]. split; [reflexivity|].
  apply (X25_inline_comment 5 "total = " "1" 1 " sum"); reflexivity.
Defined.

(** X26: S004 is the only report of the rule, and it is made only for a
    line where some [#] comes after a character that is not whitespace,
    with no or one space and nothing else between them. *)
Theorem X26_comment_space_only_if (ln : Z) (line : string) (d : diagnostic) :
  comment_space_check ln line = Ok (Some d) ->
  d = (ln, "S004 At least two spaces before inline comments required")
  /\ exists pre c sp post,
       line = pre ++ String c (sp ++ String "#" post)
       /\ is_space c = false /\ (sp = "" \/ sp = " ").
Proof.
  intros H. split.
  - revert H. unfold comment_space_check.
    destruct (index (findall code_then_hash line) 0) as [comment|[]];
      try discriminate.
    destruct (_ <? 2); [|discriminate]. intros [= <-]. reflexivity.
  - destruct (comment_space_reported ln line d H)
      as [pre [c [sp [post [Hline [Hc [Hsp Hlen]]]]]]].
    exists pre, c, sp, post. split; [exact Hline|]. split; [exact Hc|].
    destruct sp as [|a [|b sp]]; [left; reflexivity | right | simpl in Hlen; lia].
    simpl in Hsp. unfold is_blank_char in Hsp.
    destruct (Ascii.eqb_spec a " "%char) as [->|_];
      [reflexivity | discriminate Hsp].
Qed.

Lemma X26_comment_space_only_if_witness :
  comment_space_check 1 "x = 1 # one"
  = Ok (Some (1, "S004 At least two spaces before inline comments required"))
  /\ exists pre c sp post,
       "x = 1 # one" = pre ++ String c (sp ++ String "#" post)
       /\ is_space c = false /\ (sp = "" \/ sp = " ").
Proof.
  split; [reflexivity|].
  apply (X26_comment_space_only_if 1 "x = 1 # one"
           (1, "S004 At least two spaces before inline comments required")).
  reflexivity.
Defined.

(** X27: a line without [#] is never reported as S004, nor is a line
    that holds only whitespace before its one [#]. *)
Theorem X27_no_inline_comment (ln : Z) (lead text : string) :
  whitespace_only lead = true -> no_hash text = true ->
  comment_space_check ln text = Ok None
  /\ comment_space_check ln (lead ++ "#" ++ text) = Ok None.
Proof.
  intros Hlead Htext. split.
  - unfold comment_space_check, findall, spans.
    rewrite spans_no_hash by exact Htext. reflexivity.
  - apply comment_only_single_hash; assumption.
Qed.

Lemma X27_no_inline_comment_witness :
  whitespace_only "    " = true /\ no_hash " a note; TODO" = true
  /\ comment_space_check 7 " a note; TODO" = Ok None
  /\ comment_space_check 7 ("    " ++ "#" ++ " a note; TODO") = Ok None.
Proof.
  split; [reflexivity|]. split; [reflexivity|].
  apply (X27_no_inline_comment 7 "    " " a note; TODO"); reflexivity.
Defined.
